(** * lite-blog: the incremental build pipeline and the dev server.

    A shallow embedding of [utils.js], [builder.js] and [server.js],
    of the scaffold of [index.js] and of the file classification of
    [images.js].

    JavaScript strings are sequences of UTF-16 code units; they are
    modelled as [list N].  Plain objects used as dictionaries are finite
    maps ([gmap]) where only lookups matter and association lists where
    the enumeration order of [Object.entries] matters; a read of a key
    the object does not own finds the member inherited from
    [Object.prototype], if there is one.  Engine builtins whose result
    the code only passes along (MD5, the Markdown renderer, the
    front-matter parser, locale-dependent date formatting, Unicode case
    mapping and normalisation, MIME lookup) are operations of the class
    [Builtins], and so is the order in which [Array.prototype.sort]
    leaves an array on which the comparator is not consistent; markup
    generators whose bytes no property depends on are operations of the
    class [Fragments].

    What is left out: file-system calls do not fail (only a read of a
    directory does, in the dev server); directories of the output tree
    are not modelled, only its files, keyed by their path below the
    output directory; front-matter fields hold strings (or are absent);
    paths follow the POSIX variant of the [path] module; the clock is
    read where the code calls [new Date()] and is an argument of the
    pass.  A call that throws or does not end has the [outcome] [Throws]
    or [Diverges]. *)

From Stdlib Require Import ZArith NArith List Bool Lia String Ascii.
From Stdlib Require Import Sorting.Permutation Sorting.Sorted.
From Stdlib Require Import DecimalString DecimalN DecimalFacts.
From stdpp Require Import base option list gmap.

Import ListNotations.
Local Open Scope N_scope.
Local Open Scope list_scope.

(** ** JavaScript strings and values *)

Module JS.

(** A string is its sequence of UTF-16 code units. *)
Definition jsstring := list N.

(** The code units of an ASCII literal. *)
Definition js (s : string) : jsstring :=
  List.map N_of_ascii (list_ascii_of_string s).

(** The double-quote character, which the literals above cannot hold. *)
Definition dq : jsstring := [34].

Definition streq (a b : jsstring) : bool := bool_decide (a = b).

(** [String.prototype.startsWith]. *)
Fixpoint startsWith (s pre : jsstring) : bool :=
  match pre, s with
  | [], _ => true
  | _ :: _, [] => false
  | p :: pre', c :: s' => (p =? c) && startsWith s' pre'
  end.

(** [String.prototype.includes]. *)
Fixpoint includes (s needle : jsstring) : bool :=
  startsWith s needle ||
  match s with
  | [] => false
  | _ :: s' => includes s' needle
  end.

(** The values a property read or a front-matter field can yield.
    Numbers are the integer-valued ones and [NaN]; [JInherited k] stands
    for the function or object that every plain object inherits from
    [Object.prototype] under the name [k]. *)
Inductive jsval : Type :=
| JUndefined
| JNull
| JBool (b : bool)
| JNum (z : Z)
| JNaN
| JStr (s : jsstring)
| JInherited (k : jsstring).

(** [ToBoolean]. *)
Definition truthy (v : jsval) : bool :=
  match v with
  | JUndefined | JNull | JNaN => false
  | JBool b => b
  | JNum z => negb (z =? 0)%Z
  | JStr s => match s with [] => false | _ => true end
  | JInherited _ => true
  end.

(** The strict equality [===]. *)
Definition strictEq (a b : jsval) : bool :=
  match a, b with
  | JUndefined, JUndefined => true
  | JNull, JNull => true
  | JBool x, JBool y => Bool.eqb x y
  | JNum x, JNum y => (x =? y)%Z
  | JStr x, JStr y => streq x y
  | JInherited x, JInherited y => streq x y
  | _, _ => false
  end.

(** The own property names of [Object.prototype]. *)
Definition objectPrototypeKeys : list jsstring :=
  List.map js
    ["constructor"; "__defineGetter__"; "__defineSetter__"; "hasOwnProperty";
     "__lookupGetter__"; "__lookupSetter__"; "isPrototypeOf";
     "propertyIsEnumerable"; "toString"; "valueOf"; "__proto__";
     "toLocaleString"]%string.

Definition isInheritedKey (k : jsstring) : bool :=
  existsb (streq k) objectPrototypeKeys.

(** [o[k]] on a plain object: the own property if there is one, else the
    member inherited from [Object.prototype], else [undefined]. *)
Definition objGet (o : gmap jsstring jsval) (k : jsstring) : jsval :=
  match o !! k with
  | Some v => v
  | None => if isInheritedKey k then JInherited k else JUndefined
  end.

(** A call returns, throws or never ends; the builder lets every
    exception escape, which aborts the pass. *)
Inductive outcome (A : Type) : Type :=
| Returns (a : A)
| Throws
| Diverges.
Arguments Returns {A} a.
Arguments Throws {A}.
Arguments Diverges {A}.

Definition bind {A B : Type} (m : outcome A) (k : A -> outcome B) : outcome B :=
  match m with
  | Returns a => k a
  | Throws => Throws
  | Diverges => Diverges
  end.

Fixpoint mapM {A B : Type} (f : A -> outcome B) (l : list A) : outcome (list B) :=
  match l with
  | [] => Returns []
  | a :: l' =>
      bind (f a) (fun b => bind (mapM f l') (fun bs => Returns (b :: bs)))
  end.

End JS.

Export JS.

Notation "x <- m ;; k" := (bind m (fun x => k))
  (at level 100, m at next level, right associativity).

(** ** The records the builder passes around *)

(** The object [parseMarkdownFile] returns (the [frontmatter] member,
    which nothing reads afterwards, is left out). *)
Record Post := {
  slug : jsstring;
  filePath : jsstring;
  title : jsstring;
  date : jsstring;
  description : jsstring;
  tags : list jsstring;
  template : jsstring;
  draft : jsval;
  image : jsstring;
  readingTime : N;
  toc : jsstring;
  content : jsstring;
  raw : jsstring
}.

(** The site configuration after defaulting. *)
Record Config := {
  cfg_title : jsstring;
  cfg_description : jsstring;
  cfg_siteUrl : jsstring;
  cfg_author : jsstring;
  cfg_postsPerPage : N;
  cfg_language : jsstring
}.

(** ** Engine and library builtins *)

(** What gray-matter hands back for the fields the builder reads.
    A string-valued field is [None] when the key is absent. *)
Record FrontMatter := {
  fm_title : option jsstring;
  fm_date : option jsstring;
  fm_description : option jsstring;
  fm_tags : option (jsstring + list jsstring);
  fm_template : option jsstring;
  fm_draft : jsval;
  fm_image : option jsstring
}.

Class Builtins := {
  (** [String.prototype.toLowerCase] *)
  toLowerCase : jsstring -> jsstring;
  (** [String.prototype.normalize('NFD')] *)
  normalizeNFD : jsstring -> jsstring;
  (** [crypto.createHash('md5').update(c).digest('hex')] *)
  md5hex : jsstring -> jsstring;
  (** [new Date(s).getTime()], [None] for an invalid date *)
  dateParse : jsstring -> option Z;
  (** [new Date(s).toLocaleDateString(locale, {year, month, day})] *)
  toLocaleDateString : jsstring -> jsstring -> jsstring;
  (** [matter(content)]: front matter and body *)
  matter : jsstring -> FrontMatter * jsstring;
  (** [marked(markdown)] with the highlighting renderer *)
  marked : jsstring -> jsstring;
  (** [mime.lookup(path)], [None] for [false] *)
  mimeLookup : jsstring -> option jsstring;
  (** [Array.prototype.sort] on an array of posts with a comparator that
      is not consistent on it: the order is the engine's own, the
      elements are those of the array *)
  sortUnordered : (Post -> Post -> option Z) -> list Post -> list Post;
  sortUnordered_perm :
    forall cmp posts, Permutation (sortUnordered cmp posts) posts
}.

(** ** utils.js: the build cache *)

Module Cache.
Section WithBuiltins.
Context `{Builtins}.

Definition getFileHash (fs : gmap jsstring jsstring) (filePath : jsstring) : jsval :=
  match fs !! filePath with
  | None => JNull
  | Some content => JStr (md5hex content)
  end.

Definition needsRebuild (fs : gmap jsstring jsstring) (filePath : jsstring)
    (cache : gmap jsstring jsval) : bool :=
  let currentHash := getFileHash fs filePath in
  let cachedHash := objGet cache filePath in
  negb (strictEq currentHash cachedHash).

End WithBuiltins.
End Cache.

(** ** utils.js: strings, headings, related posts, feeds *)

Module Utils.

(** Character classes of the regular expressions used below. *)

(** [\s] and the characters [String.prototype.trim] strips: WhiteSpace
    and LineTerminator code units. *)
Definition isSpace (c : N) : bool :=
  ((9 <=? c) && (c <=? 13)) || (c =? 32) || (c =? 160) || (c =? 5760) ||
  ((8192 <=? c) && (c <=? 8202)) || (c =? 8232) || (c =? 8233) ||
  (c =? 8239) || (c =? 8287) || (c =? 12288) || (c =? 65279).

Definition isLower (c : N) : bool := (97 <=? c) && (c <=? 122).
Definition isDigit (c : N) : bool := (48 <=? c) && (c <=? 57).
Definition isHyphen (c : N) : bool := c =? 45.

(** The class of the combining diacritical marks, U+0300 to U+036F. *)
Definition isCombining (c : N) : bool := (768 <=? c) && (c <=? 879).

(** [[a-z0-9\s-]], the complement of the class [[^a-z0-9\s-]]. *)
Definition isSlugKeep (c : N) : bool :=
  isLower c || isDigit c || isSpace c || isHyphen c.

(** [s.replace(/C/g, '')] for a character class [C]. *)
Definition removeClass (cls : N -> bool) (s : jsstring) : jsstring :=
  List.filter (fun c => negb (cls c)) s.

(** [s.replace(/C+/g, r)] for a character class [C]: every maximal run
    of [C] becomes [r].  [inRun] tells that the previous unit was in [C]. *)
Fixpoint replaceRuns (cls : N -> bool) (r : jsstring) (inRun : bool)
    (s : jsstring) : jsstring :=
  match s with
  | [] => []
  | c :: s' =>
      if cls c
      then (if inRun then [] else r) ++ replaceRuns cls r true s'
      else c :: replaceRuns cls r false s'
  end.

Fixpoint dropSpace (s : jsstring) : jsstring :=
  match s with
  | [] => []
  | c :: s' => if isSpace c then dropSpace s' else s
  end.

(** [String.prototype.trim]. *)
Definition trim (s : jsstring) : jsstring :=
  rev (dropSpace (rev (dropSpace s))).

(** Decimal rendering of a non-negative integer ([Number::toString]). *)
Definition showN (n : N) : jsstring :=
  js (DecimalString.NilZero.string_of_uint (N.to_uint n)).

Section WithBuiltins.
Context `{Builtins}.

Definition slugify (str : jsstring) : jsstring :=
  trim
    (replaceRuns isHyphen (js "-") false
       (replaceRuns isSpace (js "-") false
          (removeClass (fun c => negb (isSlugKeep c))
             (removeClass isCombining
                (normalizeNFD (toLowerCase str)))))).

(** *** addHeadingIds *)

(** The identifier derived from a heading's text (the chain of
    replacements inside the callback). *)
Definition headingBaseId (text : jsstring) : jsstring :=
  trim
    (replaceRuns isHyphen (js "-") false
       (replaceRuns isSpace (js "-") false
          (removeClass (fun c => negb (isSlugKeep c))
             (toLowerCase text)))).

End WithBuiltins.

(** [h] under the [i] flag. *)
Definition isH (c : N) : bool := (c =? 104) || (c =? 72).
(** [[2-6]]. *)
Definition isLevel (c : N) : bool := (50 <=? c) && (c <=? 54).

(** The longest prefix of units other than [<], and what follows it:
    the greedy run of the heading pattern. *)
Fixpoint spanText (s : jsstring) : jsstring * jsstring :=
  match s with
  | [] => ([], [])
  | c :: s' =>
      if c =? 60 then ([], s)
      else let '(t, r) := spanText s' in (c :: t, r)
  end.

(** A match of the heading pattern (an opening [<hN>] with N from 2 to
    6, a run of units other than [<], a closing [</hN>] with N from 2 to
    6, case-insensitively) anchored at the head of [s]: the captured
    level, the captured text and the length of the match.  After the
    greedy run the next unit must be [<], so no shorter text can make
    the rest match. *)
Definition matchHeading (s : jsstring) : option (N * jsstring * nat) :=
  match s with
  | 60 :: h :: d :: 62 :: body =>
      if isH h && isLevel d then
        match spanText body with
        | (text, 60 :: 47 :: h' :: d' :: 62 :: _) =>
            if isH h' && isLevel d'
            then Some (d, text, (length text + 9)%nat)
            else None
        | _ => None
        end
      else None
  | _ => None
  end.

(** The pieces [String.prototype.replace] cuts a document into: the
    units it copies and the matches it hands to the callback. *)
Inductive segment :=
| Lit (c : N)
| Heading (level : N) (text : jsstring).

(** The left-to-right scan of a global regular expression: after a match
    the scan resumes behind it ([skip] counts the units still covered by
    the last match). *)
Fixpoint scanHeadings (s : jsstring) (skip : nat) : list segment :=
  match s with
  | [] => []
  | c :: s' =>
      match skip with
      | S k => scanHeadings s' k
      | O =>
          match matchHeading s with
          | Some (level, text, len) =>
              Heading level text :: scanHeadings s' (Nat.pred len)
          | None => Lit c :: scanHeadings s' 0%nat
          end
      end
  end.

(** [counter[id]++] on the number the property holds: a function
    inherited from [Object.prototype] converts to [NaN]. *)
Definition increment (v : jsval) : jsval :=
  match v with
  | JNum z => JNum (z + 1)
  | _ => JNaN
  end.

(** [`${v}`] for the values a counter can hold. *)
Definition showCounter (v : jsval) : jsstring :=
  match v with
  | JNum z => showN (Z.to_N z)
  | _ => js "NaN"
  end.

(** The body of the callback after [id] is computed: the identifier to
    emit and the updated counter object. *)
Definition assignId (counter : gmap jsstring jsval) (id : jsstring)
    : jsstring * gmap jsstring jsval :=
  if truthy (objGet counter id) then
    let v := increment (objGet counter id) in
    (id ++ js "-" ++ showCounter v, <[id := v]> counter)
  else
    (id, <[id := JNum 1]> counter).

Section WithBuiltins.
Context `{Builtins}.

(** The callback's return value. *)
Definition headingTag (level : N) (id text : jsstring) : jsstring :=
  js "<h" ++ [level] ++ js " id=" ++ dq ++ id ++ dq ++ js ">" ++ text ++
  js "</h" ++ [level] ++ js ">".

(** The identifiers handed out to the headings of a scanned document,
    in document order, starting from the counter object [counter]. *)
Fixpoint headingIds (segs : list segment) (counter : gmap jsstring jsval)
    : list (jsstring * jsstring) :=
  match segs with
  | [] => []
  | Lit _ :: segs' => headingIds segs' counter
  | Heading _ text :: segs' =>
      let '(id, counter') := assignId counter (headingBaseId text) in
      (text, id) :: headingIds segs' counter'
  end.

Fixpoint renderSegments (segs : list segment) (counter : gmap jsstring jsval)
    : jsstring :=
  match segs with
  | [] => []
  | Lit c :: segs' => c :: renderSegments segs' counter
  | Heading level text :: segs' =>
      let '(id, counter') := assignId counter (headingBaseId text) in
      headingTag level id text ++ renderSegments segs' counter'
  end.

(** Each call starts from its own empty [counter] object. *)
Definition addHeadingIds (html : jsstring) : jsstring :=
  renderSegments (scanHeadings html 0%nat) ∅.

End WithBuiltins.

End Utils.

(** ** utils.js: sorting, related posts, pagination *)

Module Lists.

(** [Array.prototype.sort] with a comparator that is consistent on the
    array: the sort is stable, so its result is the one an insertion
    sort computes.  [cmp a b] is the comparator's number; [None] is
    [NaN], which no comparator returns on the arrays sorted with this
    function (the dates are sorted with [Feeds.sortByDate]). *)
Section Sort.
Context {A : Type} (cmp : A -> A -> option Z).

Definition before (a b : A) : bool :=
  match cmp a b with
  | Some z => (z <=? 0)%Z
  | None => true
  end.

Fixpoint insertSorted (a : A) (l : list A) : list A :=
  match l with
  | [] => [a]
  | b :: l' => if before a b then a :: b :: l' else b :: insertSorted a l'
  end.

Fixpoint sort (l : list A) : list A :=
  match l with
  | [] => []
  | a :: l' => insertSorted a (sort l')
  end.

End Sort.

(** [Array.prototype.slice(start, end)] for non-negative bounds. *)
Definition slice {A : Type} (l : list A) (start stop : nat) : list A :=
  firstn (stop - start) (skipn start l).

End Lists.

Module Related.

(** The filter of [findRelatedPosts]. *)
Definition eligible (currentPost p : Post) : bool :=
  negb (streq (slug p) (slug currentPost)) && negb (truthy (draft p)) &&
  negb (streq (slug p) (js "index")) && negb (streq (slug p) (js "about")) &&
  negb (startsWith (slug p) (js "tags/")).

(** [Array.prototype.includes] on an array of strings. *)
Definition arrayIncludes (l : list jsstring) (x : jsstring) : bool :=
  existsb (streq x) l.

(** The number of entries of [post.tags] that occur in
    [currentPost.tags]. *)
Definition sharedTags (currentPost post : Post) : nat :=
  length (List.filter (arrayIncludes (tags currentPost)) (tags post)).

(** The comparator [(a, b) => b.score - a.score]. *)
Definition byScoreDesc (a b : Post * nat) : option Z :=
  Some (Z.of_nat (snd b) - Z.of_nat (snd a))%Z.

Definition defaultLimit : nat := 3.

Definition findRelatedPosts (currentPost : Post) (allPosts : list Post)
    (limit : nat) : list Post :=
  match tags currentPost with
  | [] => []
  | _ :: _ =>
      let scored :=
        List.map (fun post => (post, sharedTags currentPost post))
          (List.filter (eligible currentPost) allPosts) in
      List.map fst
        (Lists.slice
           (Lists.sort byScoreDesc
              (List.filter (fun item => (0 <? snd item)%nat) scored))
           0 limit)
  end.

End Related.

Module Paginate.

Record Page := {
  items : list Post;
  currentPage : N;
  totalPages : N;
  hasNext : bool;
  hasPrev : bool;
  nextPage : option N;
  prevPage : option N
}.

(** [Math.ceil(n / perPage)] for a positive [perPage]. *)
Definition ceilDiv (n perPage : N) : N := (n + perPage - 1) / perPage.

Definition pageAt (pitems : list Post) (perPage total : N) (i : nat) : Page :=
  let start := (i * N.to_nat perPage)%nat in
  {| items := Lists.slice pitems start (start + N.to_nat perPage);
     currentPage := N.of_nat i + 1;
     totalPages := total;
     hasNext := N.of_nat i <? total - 1;
     hasPrev := 0 <? N.of_nat i;
     nextPage := if N.of_nat i <? total - 1 then Some (N.of_nat i + 2) else None;
     prevPage := if 0 <? N.of_nat i then Some (N.of_nat i) else None |}.

(** [paginate].  With [perPage] zero and a non-empty list the quotient
    is [Infinity] and the loop never ends: there is no result.  With
    both zero the quotient is [NaN] and the loop body never runs. *)
Definition paginate (pitems : list Post) (perPage : N) : option (list Page) :=
  if perPage =? 0 then
    match pitems with
    | [] => Some []
    | _ :: _ => None
    end
  else
    let total := ceilDiv (N.of_nat (length pitems)) perPage in
    Some (List.map (pageAt pitems perPage total) (seq 0 (N.to_nat total))).

End Paginate.

(** ** Dates: the renderings of [Date.prototype] the feeds use *)

Module Dates.
Local Open Scope Z_scope.

(** A time value is a number of milliseconds since the epoch; it is a
    valid date when it lies within 8.64e15 of it. *)
Definition validTime (t : Z) : bool :=
  (-8640000000000000 <=? t) && (t <=? 8640000000000000).

Definition msPerDay : Z := 86400000.

Definition dayOf (t : Z) : Z := t / msPerDay.
Definition msOfDay (t : Z) : Z := t mod msPerDay.

(** Year, month (1 to 12) and day of the month of a day number, in the
    proleptic Gregorian calendar. *)
Definition civil (days : Z) : Z * Z * Z :=
  let z := days + 719468 in
  let era := z / 146097 in
  let doe := z - era * 146097 in
  let yoe := (doe - doe / 1460 + doe / 36524 - doe / 146096) / 365 in
  let y := yoe + era * 400 in
  let doy := doe - (365 * yoe + yoe / 4 - yoe / 100) in
  let mp := (5 * doy + 2) / 153 in
  let d := doy - (153 * mp + 2) / 5 + 1 in
  let m := if mp <? 10 then mp + 3 else mp - 9 in
  (if m <=? 2 then y + 1 else y, m, d).

(** Day of the week, Sunday being 0. *)
Definition weekDay (days : Z) : Z := (days + 4) mod 7.

Definition dayName (w : Z) : jsstring :=
  nth (Z.to_nat w)
    (List.map js ["Sun"; "Mon"; "Tue"; "Wed"; "Thu"; "Fri"; "Sat"]%string) [].

Definition monthName (m : Z) : jsstring :=
  nth (Z.to_nat (m - 1))
    (List.map js ["Jan"; "Feb"; "Mar"; "Apr"; "May"; "Jun"; "Jul"; "Aug";
                  "Sep"; "Oct"; "Nov"; "Dec"]%string) [].

Definition showNat (z : Z) : jsstring :=
  js (NilZero.string_of_uint (N.to_uint (Z.to_N z))).

(** Decimal digits of a non-negative number, zero-padded to [width]. *)
Definition pad (width : nat) (z : Z) : jsstring :=
  let digits := showNat z in
  repeat 48%N (width - length digits) ++ digits.

Definition timeOfDay (t : Z) : jsstring :=
  let ms := msOfDay t in
  pad 2 (ms / 3600000) ++ js ":" ++ pad 2 ((ms / 60000) mod 60) ++ js ":" ++
  pad 2 ((ms / 1000) mod 60).

(** [Date.prototype.toUTCString] of a valid time value. *)
Definition utcString (t : Z) : jsstring :=
  let '(y, m, d) := civil (dayOf t) in
  dayName (weekDay (dayOf t)) ++ js ", " ++ pad 2 d ++ js " " ++
  monthName m ++ js " " ++
  (if y <? 0 then js "-" else []) ++ pad 4 (Z.abs y) ++ js " " ++
  timeOfDay t ++ js " GMT".

(** [Date.prototype.toISOString] of a valid time value. *)
Definition isoString (t : Z) : jsstring :=
  let '(y, m, d) := civil (dayOf t) in
  (if (0 <=? y) && (y <=? 9999) then pad 4 y
   else (if y <? 0 then js "-" else js "+") ++ pad 6 (Z.abs y)) ++
  js "-" ++ pad 2 m ++ js "-" ++ pad 2 d ++ js "T" ++ timeOfDay t ++
  js "." ++ pad 3 (msOfDay t mod 1000) ++ js "Z".

(** [toUTCString] of a possibly invalid date: it does not throw. *)
Definition toUTCString (d : option Z) : jsstring :=
  match d with
  | Some t => if validTime t then utcString t else js "Invalid Date"
  | None => js "Invalid Date"
  end.

(** [toISOString] throws a RangeError on an invalid date. *)
Definition toISOString (d : option Z) : outcome jsstring :=
  match d with
  | Some t => if validTime t then Returns (isoString t) else Throws
  | None => Throws
  end.

End Dates.

Module Feeds.

(** [s.replace(/c/g, r)] for a single character [c]. *)
Definition replaceChar (c : N) (r : jsstring) (s : jsstring) : jsstring :=
  flat_map (fun x => if x =? c then r else [x]) s.

Definition escapeXml (str : jsstring) : jsstring :=
  match str with
  | [] => []
  | _ :: _ =>
      replaceChar 39 (js "&apos;")
        (replaceChar 34 (js "&quot;")
           (replaceChar 62 (js "&gt;")
              (replaceChar 60 (js "&lt;")
                 (replaceChar 38 (js "&amp;") str))))
  end.

Definition nl : jsstring := [10].

(** [s.split(c)[0]]: the units before the first [c]. *)
Fixpoint upTo (c : N) (s : jsstring) : jsstring :=
  match s with
  | [] => []
  | x :: s' => if x =? c then [] else x :: upTo c s'
  end.

Section WithBuiltins.
Context `{Builtins}.

(** The posts a feed or a listing shows: neither drafts nor the special
    slugs. *)
Definition listed (p : Post) : bool :=
  negb (truthy (draft p)) && negb (streq (slug p) (js "index")) &&
  negb (startsWith (slug p) (js "tags/")) && negb (streq (slug p) (js "about")).

(** The comparator [(a, b) => new Date(b.date) - new Date(a.date)];
    the difference is [NaN] when one of the dates is invalid. *)
Definition byDateDesc (a b : Post) : option Z :=
  match dateParse (date b), dateParse (date a) with
  | Some tb, Some ta => Some (tb - ta)%Z
  | _, _ => None
  end.

(** [posts.sort((a, b) => new Date(b.date) - new Date(a.date))].  When
    every date parses the comparator is consistent and the result is
    that of the stable sort; with an invalid date among them it is not,
    and the order is the engine's own. *)
Definition sortByDate (posts : list Post) : list Post :=
  if forallb (fun p => bool_decide (is_Some (dateParse (date p)))) posts
  then Lists.sort byDateDesc posts
  else sortUnordered byDateDesc posts.

Definition rssItem (siteUrl : jsstring) (post : Post) : jsstring :=
  let postUrl := siteUrl ++ js "/" ++ slug post ++ js ".html" in
  js "  <item>" ++ nl ++
  js "    <title>" ++ escapeXml (title post) ++ js "</title>" ++ nl ++
  js "    <link>" ++ postUrl ++ js "</link>" ++ nl ++
  js "    <guid>" ++ postUrl ++ js "</guid>" ++ nl ++
  js "    <pubDate>" ++ Dates.toUTCString (dateParse (date post)) ++
  js "</pubDate>" ++ nl ++
  js "    <description>" ++ escapeXml (description post) ++
  js "</description>" ++ nl ++
  js "  </item>" ++ nl.

(** [generateRSS]; [now] is the instant [new Date()] reads. *)
Definition generateRSS (now : Z) (posts : list Post) (siteConfig : Config)
    : jsstring :=
  let siteUrl := cfg_siteUrl siteConfig in
  let sortedPosts :=
    Lists.slice (sortByDate (List.filter listed posts)) 0 20 in
  js "<?xml version=" ++ dq ++ js "1.0" ++ dq ++ js " encoding=" ++ dq ++
  js "UTF-8" ++ dq ++ js "?>" ++ nl ++
  js "<rss version=" ++ dq ++ js "2.0" ++ dq ++ js " xmlns:atom=" ++ dq ++
  js "http://www.w3.org/2005/Atom" ++ dq ++ js ">" ++ nl ++
  js "<channel>" ++ nl ++
  js "  <title>" ++ escapeXml (cfg_title siteConfig) ++ js "</title>" ++ nl ++
  js "  <description>" ++ escapeXml (cfg_description siteConfig) ++
  js "</description>" ++ nl ++
  js "  <link>" ++ siteUrl ++ js "</link>" ++ nl ++
  js "  <atom:link href=" ++ dq ++ siteUrl ++ js "/rss.xml" ++ dq ++
  js " rel=" ++ dq ++ js "self" ++ dq ++ js " type=" ++ dq ++
  js "application/rss+xml" ++ dq ++ js "/>" ++ nl ++
  js "  <lastBuildDate>" ++ Dates.toUTCString (Some now) ++
  js "</lastBuildDate>" ++ nl ++
  concat (List.map (rssItem siteUrl) sortedPosts) ++
  js "</channel>" ++ nl ++ js "</rss>".

Definition sitemapUrl (siteUrl : jsstring) (post : Post) : outcome jsstring :=
  iso <- Dates.toISOString (dateParse (date post)) ;;
  Returns
    (js "  <url>" ++ nl ++
     js "    <loc>" ++ siteUrl ++ js "/" ++ slug post ++ js ".html</loc>" ++ nl ++
     js "    <lastmod>" ++ upTo 84 iso ++ js "</lastmod>" ++ nl ++
     js "    <changefreq>monthly</changefreq>" ++ nl ++
     js "    <priority>0.8</priority>" ++ nl ++
     js "  </url>" ++ nl).

Definition generateSitemap (posts : list Post) (siteConfig : Config)
    : outcome jsstring :=
  let siteUrl := cfg_siteUrl siteConfig in
  urls <- mapM (sitemapUrl siteUrl)
            (List.filter
               (fun p => negb (truthy (draft p)) &&
                         negb (streq (slug p) (js "index")) &&
                         negb (startsWith (slug p) (js "tags/")))
               posts) ;;
  Returns
    (js "<?xml version=" ++ dq ++ js "1.0" ++ dq ++ js " encoding=" ++ dq ++
     js "UTF-8" ++ dq ++ js "?>" ++ nl ++
     js "<urlset xmlns=" ++ dq ++
     js "http://www.sitemaps.org/schemas/sitemap/0.9" ++ dq ++ js ">" ++ nl ++
     js "  <url>" ++ nl ++
     js "    <loc>" ++ siteUrl ++ js "</loc>" ++ nl ++
     js "    <changefreq>daily</changefreq>" ++ nl ++
     js "    <priority>1.0</priority>" ++ nl ++
     js "  </url>" ++ nl ++
     concat urls ++ js "</urlset>").

End WithBuiltins.

(** [calculateReadingTime]: one more word than there are whitespace runs
    in the trimmed text, 200 words a minute, rounded up. *)
Fixpoint countRuns (cls : N -> bool) (inRun : bool) (s : jsstring) : N :=
  match s with
  | [] => 0
  | c :: s' =>
      if cls c then (if inRun then 0 else 1) + countRuns cls true s'
      else countRuns cls false s'
  end.

Definition calculateReadingTime (text : jsstring) : N :=
  let words := countRuns Utils.isSpace false (Utils.trim text) + 1 in
  (words + 199) / 200.

End Feeds.

(** ** builder.js: the template renderer *)

Module Template.

(** The values of a template's data object: strings, numbers (the
    reading time, a post count) and [undefined]/[null]. *)
Inductive tvalue :=
| TStr (s : jsstring)
| TNum (n : N)
| TNullish.

(** [value || ''], converted to the string [replace] takes. *)
Definition replacementOf (v : tvalue) : jsstring :=
  match v with
  | TStr s => s
  | TNum n => if n =? 0 then [] else Utils.showN n
  | TNullish => []
  end.

(** The keys whose text, spliced into the pattern source, denotes
    itself: letters, digits and the underscore.  For these keys the
    definitions below are the source's; other keys would be read as
    regular-expression syntax. *)
Definition isWordChar (c : N) : bool :=
  Utils.isLower c || ((65 <=? c) && (c <=? 90)) || Utils.isDigit c || (c =? 95).

Definition plainKey (key : jsstring) : bool := forallb isWordChar key.

Fixpoint spaceRun (s : jsstring) : nat :=
  match s with
  | [] => 0
  | c :: s' => if Utils.isSpace c then S (spaceRun s') else 0
  end.

(** A match of the placeholder pattern (two opening braces, optional
    whitespace, the key, optional whitespace, two closing braces)
    anchored at the head of [s]: its length. *)
Definition matchPlaceholder (key s : jsstring) : option nat :=
  match s with
  | 123 :: 123 :: r =>
      let n1 := spaceRun r in
      let r1 := skipn n1 r in
      if startsWith r1 key then
        let r2 := skipn (length key) r1 in
        let n2 := spaceRun r2 in
        match skipn n2 r2 with
        | 125 :: 125 :: _ => Some (2 + n1 + length key + n2 + 2)%nat
        | _ => None
        end
      else None
  | _ => None
  end.

(** [GetSubstitution] for a pattern without capture groups: in the
    replacement text a dollar sign followed by a dollar sign, an
    ampersand, a backquote or a quote stands for a dollar sign, the
    matched text, the text before the match and the text after it. *)
Fixpoint expand (repl matched pre post : jsstring) : jsstring :=
  match repl with
  | [] => []
  | 36 :: rest =>
      match rest with
      | 36 :: rest' => 36 :: expand rest' matched pre post
      | 38 :: rest' => matched ++ expand rest' matched pre post
      | 96 :: rest' => pre ++ expand rest' matched pre post
      | 39 :: rest' => post ++ expand rest' matched pre post
      | _ => 36 :: expand rest matched pre post
      end
  | c :: rest => c :: expand rest matched pre post
  end.

(** [s.replace(placeholder, repl)] with the global flag; [seen] is the
    part of the subject already scanned, in reverse. *)
Fixpoint replaceAll (key repl : jsstring) (seen s : jsstring) (skip : nat)
    : jsstring :=
  match s with
  | [] => []
  | c :: s' =>
      match skip with
      | S k => replaceAll key repl (c :: seen) s' k
      | O =>
          match matchPlaceholder key s with
          | Some len =>
              expand repl (firstn len s) (rev seen) (skipn len s) ++
              replaceAll key repl (c :: seen) s' (Nat.pred len)
          | None => c :: replaceAll key repl (c :: seen) s' 0%nat
          end
      end
  end.

(** [renderTemplate]; [data] lists the entries in the order
    [Object.entries] enumerates them. *)
Definition renderTemplate (template : jsstring)
    (data : list (jsstring * tvalue)) : jsstring :=
  fold_left
    (fun result entry =>
       replaceAll (fst entry) (replacementOf (snd entry)) [] result 0%nat)
    data template.

End Template.

(** ** builder.js: parsing and rendering a post *)

(** The markup generators whose bytes no property below depends on.
    Each is a pure function of the arguments shown. *)
Class Fragments := {
  generateTOC : jsstring -> jsstring;
  generateMetaTags : Post -> Config -> jsstring;
  getProgressBarCode : jsstring;
  generatePostsListHtml : list Post -> Config -> jsstring;
  generateTagsListHtml : list Post -> jsstring
}.

Module Builder.
Import Template.

(** [a || b] on strings that may be absent. *)
Definition orDefault (a : option jsstring) (b : jsstring) : jsstring :=
  match a with
  | Some (c :: s) => c :: s
  | _ => b
  end.

(** [s.split(',')]. *)
Fixpoint splitComma (s : jsstring) : list jsstring :=
  match s with
  | [] => [[]]
  | c :: s' =>
      if c =? 44 then [] :: splitComma s'
      else match splitComma s' with
           | [] => [[c]]
           | w :: ws => (c :: w) :: ws
           end
  end.

Definition parseTags (t : option (jsstring + list jsstring)) : list jsstring :=
  match t with
  | None => []
  | Some (inl []) => []
  | Some (inl s) => List.map Utils.trim (splitComma s)
  | Some (inr l) => l
  end.

(** [s.replace(/\.md$/, '')]. *)
Definition stripMd (s : jsstring) : jsstring :=
  match rev s with
  | 100 :: 109 :: 46 :: r => rev r
  | _ => s
  end.

Definition escapeHtml (str : jsstring) : jsstring :=
  match str with
  | [] => []
  | _ :: _ =>
      Feeds.replaceChar 39 (js "&#039;")
        (Feeds.replaceChar 34 (js "&quot;")
           (Feeds.replaceChar 62 (js "&gt;")
              (Feeds.replaceChar 60 (js "&lt;")
                 (Feeds.replaceChar 38 (js "&amp;") str))))
  end.

(** [l.join(sep)]. *)
Fixpoint join (sep : jsstring) (l : list jsstring) : jsstring :=
  match l with
  | [] => []
  | [x] => x
  | x :: l' => x ++ sep ++ join sep l'
  end.

Definition generateRelatedPostsHtml (relatedPosts : list Post) : jsstring :=
  match relatedPosts with
  | [] => []
  | _ :: _ =>
      js "<section class=" ++ dq ++ js "related-posts" ++ dq ++
      js "><h3>Related Posts</h3><ul>" ++
      concat
        (List.map
           (fun post =>
              js "<li><a href=" ++ dq ++ js "/" ++ slug post ++ js ".html" ++
              dq ++ js ">" ++ escapeHtml (title post) ++ js "</a></li>")
           relatedPosts) ++
      js "</ul></section>"
  end.

(** [o[k]] on the templates object. *)
Definition templateGet (templates : gmap jsstring jsstring) (k : jsstring)
    : jsval :=
  match templates !! k with
  | Some s => JStr s
  | None => if isInheritedKey k then JInherited k else JUndefined
  end.

(** [a || b]. *)
Definition orElse (a b : jsval) : jsval := if truthy a then a else b.

Section WithBuiltins.
Context `{Builtins} `{Fragments}.

Definition formatDate (dateStr locale : jsstring) : jsstring :=
  toLocaleDateString dateStr locale.

(** [parseMarkdownFile] on the file [file] of the pages directory, whose
    content is [fileContent]; [now] is the instant [new Date()] reads
    when the front matter has no date. *)
Definition parseMarkdownFile (now : Z) (pagesDir file fileContent : jsstring)
    : Post :=
  let '(frontmatter, markdown) := matter fileContent in
  let html := Utils.addHeadingIds (marked markdown) in
  {| slug := Feeds.replaceChar 92 (js "/") (stripMd file);
     filePath := pagesDir ++ js "/" ++ file;
     title := orDefault (fm_title frontmatter) (js "Untitled");
     date := orDefault (fm_date frontmatter) (Dates.isoString now);
     description := orDefault (fm_description frontmatter) [];
     tags := parseTags (fm_tags frontmatter);
     template := orDefault (fm_template frontmatter) (js "post");
     draft := orElse (fm_draft frontmatter) (JBool false);
     image := orDefault (fm_image frontmatter) [];
     readingTime := Feeds.calculateReadingTime markdown;
     toc := generateTOC html;
     content := html;
     raw := markdown |}.

Definition tagLink (t : jsstring) : jsstring :=
  js "<a href=" ++ dq ++ js "/tags/" ++ Utils.slugify t ++ js ".html" ++ dq ++
  js " class=" ++ dq ++ js "tag" ++ dq ++ js ">" ++ escapeHtml t ++ js "</a>".

Definition tagsHtmlOf (post : Post) : jsstring :=
  match tags post with
  | [] => []
  | _ :: _ =>
      js "<div class=" ++ dq ++ js "post-tags" ++ dq ++ js ">" ++
      join (js " ") (List.map tagLink (tags post)) ++ js "</div>"
  end.

Definition templateData (post : Post) (allPosts : list Post) (config : Config)
    : list (jsstring * tvalue) :=
  let relatedPosts := Related.findRelatedPosts post allPosts Related.defaultLimit in
  let isListTemplate :=
    streq (template post) (js "list") || streq (slug post) (js "index") in
  let isTagTemplate :=
    streq (template post) (js "tag") || startsWith (slug post) (js "tags/") in
  [ (js "title", TStr (title post));
    (js "description", TStr (description post));
    (js "date", TStr (formatDate (date post) (cfg_language config)));
    (js "dateISO", TStr (date post));
    (js "author", TStr (cfg_author config));
    (js "content", TStr (content post));
    (js "toc", TStr (toc post));
    (js "readingTime", TNum (readingTime post));
    (js "tags", TStr (tagsHtmlOf post));
    (js "relatedPosts", TStr (generateRelatedPostsHtml relatedPosts));
    (js "metaTags", TStr (generateMetaTags post config));
    (js "progressBar", TStr getProgressBarCode);
    (js "siteTitle", TStr (cfg_title config));
    (js "siteDescription", TStr (cfg_description config));
    (js "siteUrl", TStr (cfg_siteUrl config));
    (js "posts",
     TStr (if isListTemplate then generatePostsListHtml allPosts config else []));
    (js "pagination", TStr []);
    (js "tagsList",
     TStr (if isTagTemplate then generateTagsListHtml allPosts else [])) ].

(** [buildPost]: [None] is the [null] returned when no template is
    found.  A template name that is a member every object inherits
    selects that member, and rendering it throws. *)
Definition buildPost (post : Post) (templates : gmap jsstring jsstring)
    (allPosts : list Post) (config : Config) : outcome (option jsstring) :=
  let template :=
    orElse (templateGet templates (template post))
      (orElse (templateGet templates (js "post"))
         (templateGet templates (js "default"))) in
  if truthy template then
    match template with
    | JStr t => Returns (Some (renderTemplate t (templateData post allPosts config)))
    | _ => Throws
    end
  else Returns None.

End WithBuiltins.

End Builder.

(** ** builder.js: the site assembler *)

Module Assembler.
Import Template Builder.

(** The output directory: its files, keyed by their path below it, and
    the writes made so far, the latest first. *)
Record Disk := {
  files : gmap jsstring jsstring;
  written : list (jsstring * jsstring)
}.

(** [fs.writeFileSync(path.join(outputDir, rel), data)] and
    [fs.copyFileSync(src, path.join(outputDir, rel))]. *)
Definition writeFile (rel data : jsstring) (d : Disk) : Disk :=
  {| files := <[rel := data]> (files d);
     written := (rel, data) :: written d |}.

Definition exists_ (rel : jsstring) (d : Disk) : bool :=
  bool_decide (is_Some (files d !! rel)).

(** The project a pass reads: configuration, templates, the Markdown
    files the glob finds below the pages directory (relative name and
    content, in the order found), the files of the static directory in
    the order [copyDir] visits them if there is one, and the custom 404
    page if there is one. *)
Record Source := {
  src_config : Config;
  src_templates : gmap jsstring jsstring;
  src_pagesDir : jsstring;
  src_pages : list (jsstring * jsstring);
  src_static : option (list (jsstring * jsstring));
  src_404 : option jsstring
}.

(** The instants the pass reads from the clock: when it parses the
    [i]-th file and when it generates the feed. *)
Record Clock := {
  parseInstant : nat -> Z;
  rssInstant : Z
}.

(** *** Grouping posts by tag *)

(** [tagPosts[tag].push(post)] after [tagPosts[tag]] was created if
    missing.  A tag that names a member every object inherits finds that
    member instead of an array, and the call throws. *)
Fixpoint pushTag (tagPosts : list (jsstring * list Post)) (tag : jsstring)
    (post : Post) : list (jsstring * list Post) :=
  match tagPosts with
  | [] => [(tag, [post])]
  | (t, l) :: rest =>
      if streq t tag then (t, l ++ [post]) :: rest
      else (t, l) :: pushTag rest tag post
  end.

Definition hasOwn {V : Type} (o : list (jsstring * V)) (k : jsstring) : bool :=
  existsb (fun e => streq (fst e) k) o.

Definition addTag (post : Post) (acc : outcome (list (jsstring * list Post)))
    (tag : jsstring) : outcome (list (jsstring * list Post)) :=
  tagPosts <- acc ;;
  if negb (hasOwn tagPosts tag) && isInheritedKey tag then Throws
  else Returns (pushTag tagPosts tag post).

Definition groupByTag (posts : list Post) : outcome (list (jsstring * list Post)) :=
  fold_left
    (fun acc post => fold_left (addTag post) (tags post) acc)
    (List.filter (fun p => negb (truthy (draft p))) posts)
    (Returns []).

(** The value of a key that is an array index: a canonical decimal
    numeral below 2^32 - 1. *)
Definition digitsValue (k : jsstring) : N :=
  fold_left (fun acc c => 10 * acc + (c - 48)) k 0.

Definition arrayIndex (k : jsstring) : option N :=
  match k with
  | [] => None
  | c :: r =>
      if forallb Utils.isDigit k && (negb (c =? 48) || match r with [] => true | _ => false end)
         && (length k <=? 10)%nat && (digitsValue k <? 4294967295)
      then Some (digitsValue k)
      else None
  end.

Definition byIndex {V : Type} (a b : jsstring * V) : option Z :=
  match arrayIndex (fst a), arrayIndex (fst b) with
  | Some x, Some y => Some (Z.of_N x - Z.of_N y)%Z
  | _, _ => None
  end.

(** [Object.entries]: array-index keys in ascending order, then the
    other keys in the order they were created. *)
Definition entries {V : Type} (o : list (jsstring * V)) : list (jsstring * V) :=
  Lists.sort byIndex
    (List.filter (fun e => bool_decide (is_Some (arrayIndex (fst e)))) o) ++
  List.filter (fun e => negb (bool_decide (is_Some (arrayIndex (fst e))))) o.

Section WithBuiltins.
Context `{Builtins} `{Fragments}.

Definition sp (n : nat) : jsstring := repeat 32 n.

Definition tagPostItem (config : Config) (post : Post) : jsstring :=
  Feeds.nl ++ sp 8 ++ js "<li class=" ++ dq ++ js "post-item" ++ dq ++ js ">" ++
  Feeds.nl ++ sp 10 ++ js "<a href=" ++ dq ++ js "/" ++ slug post ++
  js ".html" ++ dq ++ js ">" ++ escapeHtml (title post) ++ js "</a>" ++
  Feeds.nl ++ sp 10 ++ js "<span class=" ++ dq ++ js "post-date" ++ dq ++
  js ">" ++ formatDate (date post) (cfg_language config) ++ js "</span>" ++
  Feeds.nl ++ sp 8 ++ js "</li>" ++ Feeds.nl ++ sp 6.

Definition tagPagePath (tag : jsstring) : jsstring :=
  js "tags/" ++ Utils.slugify tag ++ js ".html".

Definition tagPage (tagTemplate : jsstring) (config : Config)
    (tag : jsstring) (taggedPosts : list Post) : jsstring :=
  let sortedPosts := Feeds.sortByDate taggedPosts in
  let postsHtml :=
    js "<ul class=" ++ dq ++ js "posts-list" ++ dq ++ js ">" ++
    concat (List.map (tagPostItem config) sortedPosts) ++ js "</ul>" in
  renderTemplate tagTemplate
    [ (js "title", TStr (js "Tag: " ++ escapeHtml tag));
      (js "tag", TStr (escapeHtml tag));
      (js "posts", TStr postsHtml);
      (js "postCount", TNum (N.of_nat (length sortedPosts)));
      (js "siteTitle", TStr (cfg_title config));
      (js "siteUrl", TStr (cfg_siteUrl config));
      (js "tagsList", TStr []) ].

Definition buildTagPages (posts : list Post) (templates : gmap jsstring jsstring)
    (config : Config) (d : Disk) : outcome Disk :=
  tagPosts <- groupByTag posts ;;
  match orElse (templateGet templates (js "tag"))
          (templateGet templates (js "default")) with
  | JStr (c :: t) =>
      Returns
        (fold_left
           (fun d e => writeFile (tagPagePath (fst e))
                         (tagPage (c :: t) config (fst e) (snd e)) d)
           (entries tagPosts) d)
  | _ => Returns d
  end.

(** *** Pagination pages *)

Definition listPostItem (config : Config) (post : Post) : jsstring :=
  Feeds.nl ++ sp 8 ++ js "<li class=" ++ dq ++ js "post-item" ++ dq ++ js ">" ++
  Feeds.nl ++ sp 10 ++ js "<a href=" ++ dq ++ js "/" ++ slug post ++
  js ".html" ++ dq ++ js " class=" ++ dq ++ js "post-title" ++ dq ++ js ">" ++
  escapeHtml (title post) ++ js "</a>" ++
  Feeds.nl ++ sp 10 ++ js "<span class=" ++ dq ++ js "post-date" ++ dq ++
  js ">" ++ formatDate (date post) (cfg_language config) ++ js "</span>" ++
  Feeds.nl ++ sp 10 ++ js "<span class=" ++ dq ++ js "post-reading-time" ++
  dq ++ js ">" ++ Utils.showN (readingTime post) ++ js " min read</span>" ++
  Feeds.nl ++ sp 10 ++
  match description post with
  | [] => []
  | _ :: _ =>
      js "<p class=" ++ dq ++ js "post-description" ++ dq ++ js ">" ++
      escapeHtml (description post) ++ js "</p>"
  end ++
  Feeds.nl ++ sp 8 ++ js "</li>" ++ Feeds.nl ++ sp 6.

Definition paginationNav (page : Paginate.Page) : jsstring :=
  js "<nav class=" ++ dq ++ js "pagination" ++ dq ++ js ">" ++
  (if Paginate.hasPrev page then
     let prevUrl :=
       match Paginate.prevPage page with
       | Some 1 => js "/"
       | Some n => js "/page/" ++ Utils.showN n ++ js ".html"
       | None => js "/page/null.html"
       end in
     js "<a href=" ++ dq ++ prevUrl ++ dq ++ js " class=" ++ dq ++ js "prev" ++
     dq ++ js ">" ++ [8592] ++ js " Previous</a>"
   else []) ++
  js "<span class=" ++ dq ++ js "current" ++ dq ++ js ">Page " ++
  Utils.showN (Paginate.currentPage page) ++ js " / " ++
  Utils.showN (Paginate.totalPages page) ++ js "</span>" ++
  (if Paginate.hasNext page then
     js "<a href=" ++ dq ++ js "/page/" ++
     match Paginate.nextPage page with
     | Some n => Utils.showN n
     | None => js "null"
     end ++ js ".html" ++ dq ++ js " class=" ++ dq ++ js "next" ++ dq ++
     js ">Next " ++ [8594] ++ js "</a>"
   else []) ++
  js "</nav>".

Definition listPage (listTemplate : jsstring) (config : Config)
    (page : Paginate.Page) : jsstring :=
  let postsHtml :=
    js "<ul class=" ++ dq ++ js "posts-list" ++ dq ++ js ">" ++
    concat (List.map (listPostItem config) (Paginate.items page)) ++
    js "</ul>" in
  renderTemplate listTemplate
    [ (js "title",
       TStr (if Paginate.currentPage page =? 1 then cfg_title config
             else js "Page " ++ Utils.showN (Paginate.currentPage page) ++
                  js " - " ++ cfg_title config));
      (js "posts", TStr postsHtml);
      (js "pagination", TStr (paginationNav page));
      (js "siteTitle", TStr (cfg_title config));
      (js "siteUrl", TStr (cfg_siteUrl config)) ].

Definition pagePath (n : N) : jsstring :=
  js "page/" ++ Utils.showN n ++ js ".html".

(** The body of [pages.forEach]. *)
Definition writePage (listTemplate : jsstring) (config : Config) (d : Disk)
    (page : Paginate.Page) : Disk :=
  let html := listPage listTemplate config page in
  let d1 :=
    if (Paginate.currentPage page =? 1) && negb (exists_ (js "index.html") d)
    then writeFile (js "index.html") html d
    else d in
  writeFile (pagePath (Paginate.currentPage page)) html d1.

Definition buildPaginationPages (posts : list Post)
    (templates : gmap jsstring jsstring) (config : Config) (d : Disk)
    : outcome Disk :=
  let sortedPosts := Feeds.sortByDate (List.filter Feeds.listed posts) in
  match Paginate.paginate sortedPosts (cfg_postsPerPage config) with
  | None => Diverges
  | Some pages =>
      match orElse (templateGet templates (js "list"))
              (templateGet templates (js "default")) with
      | JStr (c :: t) => Returns (fold_left (writePage (c :: t) config) pages d)
      | _ => Returns d
      end
  end.

(** *** The pass *)

Definition pagePathOf (pagesDir file : jsstring) : jsstring :=
  pagesDir ++ js "/" ++ file.

(** The pages directory as a file system. *)
Definition pagesFs (src : Source) : gmap jsstring jsstring :=
  list_to_map
    (List.map (fun e => (pagePathOf (src_pagesDir src) (fst e), snd e))
       (src_pages src)).

(** The loop that parses every file the glob found, counting the files
    from [i]. *)
Fixpoint parseFrom (clock : Clock) (pagesDir : jsstring) (i : nat)
    (pages : list (jsstring * jsstring)) : list Post :=
  match pages with
  | [] => []
  | (file, fileContent) :: rest =>
      parseMarkdownFile (parseInstant clock i) pagesDir file fileContent ::
      parseFrom clock pagesDir (S i) rest
  end.

(** [newCache[filePath] = getFileHash(filePath)] for every post. *)
Definition hashAll (fs : gmap jsstring jsstring) (posts : list Post)
    : gmap jsstring jsval :=
  fold_left
    (fun cache post => <[filePath post := Cache.getFileHash fs (filePath post)]> cache)
    posts ∅.

Definition needsBuild (incremental : bool) (fs : gmap jsstring jsstring)
    (cache : gmap jsstring jsval) (post : Post) : bool :=
  negb incremental || Cache.needsRebuild fs (filePath post) cache.

Definition postPath (post : Post) : jsstring := slug post ++ js ".html".

(** [if (html) fs.writeFileSync(...)]. *)
Definition writeIfHtml (rel : jsstring) (html : option jsstring) (d : Disk)
    : Disk :=
  match html with
  | Some (c :: h) => writeFile rel (c :: h) d
  | _ => d
  end.

(** One turn of the loop over the posts; the state is [hasNewPosts] and
    the output directory. *)
Definition buildOne (incremental : bool) (fs : gmap jsstring jsstring)
    (cache : gmap jsstring jsval) (templates : gmap jsstring jsstring)
    (posts : list Post) (config : Config) (st : bool * Disk) (post : Post)
    : outcome (bool * Disk) :=
  if truthy (draft post) then Returns st
  else if needsBuild incremental fs cache post then
    html <- buildPost post templates posts config ;;
    Returns (true, writeIfHtml (postPath post) html (snd st))
  else Returns st.

Fixpoint foldM {S A : Type} (f : S -> A -> outcome S) (l : list A) (s : S)
    : outcome S :=
  match l with
  | [] => Returns s
  | a :: l' => s' <- f s a ;; foldM f l' s'
  end.

(** The block that rebuilds the index page. *)
Definition rebuildIndex (templates : gmap jsstring jsstring)
    (posts : list Post) (config : Config) (d : Disk) : outcome Disk :=
  match List.find (fun p => streq (slug p) (js "index")) posts with
  | Some indexPost =>
      html <- buildPost indexPost templates posts config ;;
      Returns (writeIfHtml (js "index.html") html d)
  | None => Returns d
  end.

Definition copyStatic (src : Source) (d : Disk) : Disk :=
  match src_static src with
  | Some staticFiles =>
      fold_left (fun d e => writeFile (fst e) (snd e) d) staticFiles d
  | None => d
  end.

Definition copy404 (src : Source) (d : Disk) : Disk :=
  match src_404 src with
  | Some page => writeFile (js "404.html") page d
  | None => d
  end.

(** What a completed pass leaves: the output directory with the writes
    of the pass, the cache snapshot it saved, the posts and whether any
    post was rebuilt. *)
Record Pass := {
  out : Disk;
  savedCache : gmap jsstring jsval;
  posts : list Post;
  hasNewPosts : bool
}.

(** [build(projectDir, { incremental })]: [persisted] is the snapshot
    [loadBuildCache] returns and [files0] the output directory the pass
    finds. *)
Definition build (src : Source) (incremental : bool)
    (persisted : gmap jsstring jsval) (files0 : gmap jsstring jsstring)
    (clock : Clock) : outcome Pass :=
  let config := src_config src in
  let cache := if incremental then persisted else ∅ in
  let d0 := {| files := if incremental then files0 else ∅; written := [] |} in
  let templates := src_templates src in
  let fs := pagesFs src in
  let posts := parseFrom clock (src_pagesDir src) 0 (src_pages src) in
  let newCache := hashAll fs posts in
  st <- foldM (buildOne incremental fs cache templates posts config) posts
          (false, d0) ;;
  d1 <- (if fst st || negb incremental
         then rebuildIndex templates posts config (snd st)
         else Returns (snd st)) ;;
  d2 <- buildTagPages posts templates config d1 ;;
  d3 <- buildPaginationPages posts templates config d2 ;;
  let d4 := writeFile (js "rss.xml")
              (Feeds.generateRSS (rssInstant clock) posts config) d3 in
  sitemap <- Feeds.generateSitemap posts config ;;
  let d5 := writeFile (js "sitemap.xml") sitemap d4 in
  let d6 := copy404 src (copyStatic src d5) in
  Returns {| out := d6; savedCache := newCache; posts := posts;
             hasNewPosts := fst st |}.

(** The paths a pass wrote, in the order it wrote them. *)
Definition writes (p : Pass) : list jsstring :=
  List.map fst (rev (written (out p))).

End WithBuiltins.

End Assembler.

(** ** Paths: the POSIX functions of the [path] module *)

Module Path.

(** The segments between the slashes of a path, empty ones included. *)
Fixpoint splitSlash (s : jsstring) : list jsstring :=
  match s with
  | [] => [[]]
  | c :: s' =>
      if c =? 47 then [] :: splitSlash s'
      else match splitSlash s' with
           | [] => [[c]]
           | w :: ws => (c :: w) :: ws
           end
  end.

Definition dot : jsstring := [46].
Definition dotdot : jsstring := [46; 46].

(** One segment of [normalizeString]; the segments kept so far are held
    last first. *)
Definition normStep (allowAboveRoot : bool) (kept : list jsstring)
    (seg : jsstring) : list jsstring :=
  if streq seg [] || streq seg dot then kept
  else if streq seg dotdot then
    match kept with
    | last :: kept' =>
        if streq last dotdot
        then (if allowAboveRoot then dotdot :: kept else kept)
        else kept'
    | [] => if allowAboveRoot then [dotdot] else []
    end
  else seg :: kept.

Definition normSegments (allowAboveRoot : bool) (segs : list jsstring)
    : list jsstring :=
  rev (fold_left (normStep allowAboveRoot) segs []).

Fixpoint joinSlash (segs : list jsstring) : jsstring :=
  match segs with
  | [] => []
  | [x] => x
  | x :: rest => x ++ [47] ++ joinSlash rest
  end.

Definition normalizeString (p : jsstring) (allowAboveRoot : bool) : jsstring :=
  joinSlash (normSegments allowAboveRoot (splitSlash p)).

Definition isAbsolute (p : jsstring) : bool :=
  match p with
  | 47 :: _ => true
  | _ => false
  end.

Definition endsWithSlash (p : jsstring) : bool :=
  match rev p with
  | 47 :: _ => true
  | _ => false
  end.

Definition normalize (p : jsstring) : jsstring :=
  match p with
  | [] => dot
  | _ :: _ =>
      let trailingSeparator := endsWithSlash p in
      match normalizeString p (negb (isAbsolute p)) with
      | [] =>
          if isAbsolute p then [47]
          else if trailingSeparator then [46; 47] else dot
      | c :: q =>
          (if isAbsolute p then [47] else []) ++ (c :: q) ++
          (if trailingSeparator then [47] else [])
      end
  end.

(** [path.join(a, b)]. *)
Definition join (a b : jsstring) : jsstring :=
  match a, b with
  | [], [] => dot
  | [], _ => normalize b
  | _, [] => normalize a
  | _, _ => normalize (a ++ [47] ++ b)
  end.

(** [path.resolve(p)] in the working directory [cwd]. *)
Definition resolve (cwd p : jsstring) : jsstring :=
  let p1 := match p with [] => [] | _ :: _ => p ++ [47] end in
  if isAbsolute p then [47] ++ normalizeString p1 false
  else
    let p2 := match cwd with [] => p1 | _ :: _ => cwd ++ [47] ++ p1 end in
    if isAbsolute cwd then [47] ++ normalizeString p2 false
    else match normalizeString p2 true with
         | [] => dot
         | c :: q => c :: q
         end.

(** The last component of a path, trailing slashes ignored. *)
Definition baseName (p : jsstring) : jsstring :=
  match List.filter (fun s => negb (streq s [])) (rev (splitSlash p)) with
  | [] => []
  | b :: _ => b
  end.

(** The part of [b] from its last dot on, and whether anything comes
    before that dot. *)
Fixpoint lastDot (b : jsstring) : option (bool * jsstring) :=
  match b with
  | [] => None
  | c :: b' =>
      match lastDot b' with
      | Some (_, ext) => Some (true, ext)
      | None => if c =? 46 then Some (false, c :: b') else None
      end
  end.

(** [path.extname]. *)
Definition extname (p : jsstring) : jsstring :=
  let b := baseName p in
  match lastDot b with
  | Some (true, ext) => if streq b dotdot then [] else ext
  | _ => []
  end.

(** [p] lies in the directory [root] or is [root] itself, both read in
    the working directory [cwd]. *)
Definition segments (p : jsstring) : list jsstring :=
  List.filter (fun s => negb (streq s [])) (splitSlash p).

Definition inside (cwd root p : jsstring) : Prop :=
  segments (resolve cwd root) `prefix_of` segments (resolve cwd p).

End Path.

(** ** server.js: request paths *)

Module Uri.

Definition hexValue (c : N) : option N :=
  if Utils.isDigit c then Some (c - 48)
  else if (97 <=? c) && (c <=? 102) then Some (c - 87)
  else if (65 <=? c) && (c <=? 70) then Some (c - 55)
  else None.

(** A unit of the encoded text: itself, or the octet of an escape. *)
Inductive token :=
| Raw (c : N)
| Octet (b : N).

(** Reading the escapes; [None] when a percent sign is not followed by
    two hexadecimal digits. *)
Fixpoint tokens (s : jsstring) : option (list token) :=
  match s with
  | [] => Some []
  | 37 :: rest =>
      match rest with
      | a :: b :: rest' =>
          match hexValue a, hexValue b, tokens rest' with
          | Some x, Some y, Some ts => Some (Octet (16 * x + y) :: ts)
          | _, _, _ => None
          end
      | _ => None
      end
  | c :: rest =>
      match tokens rest with
      | Some ts => Some (Raw c :: ts)
      | None => None
      end
  end.

(** The UTF-16 code units of a code point. *)
Definition utf16 (cp : N) : jsstring :=
  if cp <? 65536 then [cp]
  else [55296 + (cp - 65536) / 1024; 56320 + (cp - 65536) mod 1024].

(** The least code point a sequence of [n] octets may encode. *)
Definition leastOf (n : N) : N :=
  if n =? 2 then 128 else if n =? 3 then 2048 else 65536.

Definition validCodePoint (n cp : N) : bool :=
  (leastOf n <=? cp) && (cp <=? 1114111) &&
  negb ((55296 <=? cp) && (cp <=? 57343)).

(** Decoding the octets as UTF-8.  [pending] counts the continuation
    octets still due for the sequence of [n] octets whose bits so far
    are [acc]. *)
Fixpoint decodeTokens (ts : list token) (pending n acc : N) : option jsstring :=
  match ts with
  | [] => if pending =? 0 then Some [] else None
  | Raw c :: ts' =>
      if pending =? 0 then
        match decodeTokens ts' 0 0 0 with
        | Some r => Some (c :: r)
        | None => None
        end
      else None
  | Octet b :: ts' =>
      if pending =? 0 then
        if b <? 128 then
          match decodeTokens ts' 0 0 0 with
          | Some r => Some (b :: r)
          | None => None
          end
        else if (192 <=? b) && (b <? 224) then decodeTokens ts' 1 2 (b - 192)
        else if (224 <=? b) && (b <? 240) then decodeTokens ts' 2 3 (b - 224)
        else if (240 <=? b) && (b <? 248) then decodeTokens ts' 3 4 (b - 240)
        else None
      else if (128 <=? b) && (b <? 192) then
        let acc' := 64 * acc + (b - 128) in
        if pending =? 1 then
          if validCodePoint n acc' then
            match decodeTokens ts' 0 0 0 with
            | Some r => Some (utf16 acc' ++ r)
            | None => None
            end
          else None
        else decodeTokens ts' (pending - 1) n acc'
      else None
  end.

(** [decodeURIComponent]; [None] when it throws a URIError. *)
Definition decodeURIComponent (s : jsstring) : option jsstring :=
  match tokens s with
  | Some ts => decodeTokens ts 0 0 0
  | None => None
  end.

End Uri.

Module Server.

(** [sanitizePath]; [None] is the [null] it returns. *)
Definition sanitizePath (cwd urlPath outputDir : jsstring) : option jsstring :=
  match Uri.decodeURIComponent urlPath with
  | None => None
  | Some decoded =>
      if includes decoded (js "..") || includes decoded (js "//") ||
         includes decoded [92]
      then None
      else
        let filePath := Path.join outputDir decoded in
        let realPath := Path.resolve cwd filePath in
        if negb (startsWith realPath (Path.resolve cwd outputDir)) then None
        else Some realPath
  end.

(** [s.split('?')[0]]. *)
Definition beforeQuery (s : jsstring) : jsstring := Feeds.upTo 63 s.

(** What the disk holds under a path. *)
Inductive node :=
| File (data : jsstring) (mtimeMs : Z)
| Dir (mtimeMs : Z).

(** An entry of the in-memory file cache. *)
Record CacheItem := {
  item_content : jsstring;
  item_mtime : Z;
  item_etag : jsstring
}.

(** The [Map] of the file cache, oldest key first. *)
Definition FileCache := list (jsstring * CacheItem).

Fixpoint cacheLookup (c : FileCache) (key : jsstring) : option CacheItem :=
  match c with
  | [] => None
  | (k, v) :: c' => if streq k key then Some v else cacheLookup c' key
  end.

Definition cacheDelete (c : FileCache) (key : jsstring) : FileCache :=
  List.filter (fun e => negb (streq (fst e) key)) c.

(** [Map.prototype.set]: a key already present keeps its place. *)
Fixpoint cacheStore (c : FileCache) (key : jsstring) (v : CacheItem) : FileCache :=
  match c with
  | [] => [(key, v)]
  | (k, w) :: c' =>
      if streq k key then (k, v) :: c' else (k, w) :: cacheStore c' key v
  end.

(** [FileCache.get]: the item, the cache afterwards and the paths it
    asked the disk about. *)
Definition cacheGet (disk : gmap jsstring node) (c : FileCache) (key : jsstring)
    : option CacheItem * FileCache * list jsstring :=
  match cacheLookup c key with
  | None => (None, c, [])
  | Some item =>
      match disk !! key with
      | Some (File _ mtimeMs) =>
          if (item_mtime item <? mtimeMs)%Z
          then (None, cacheDelete c key, [key])
          else (Some item, c, [key])
      | Some (Dir mtimeMs) =>
          if (item_mtime item <? mtimeMs)%Z
          then (None, cacheDelete c key, [key])
          else (Some item, c, [key])
      | None => (None, cacheDelete c key, [key])
      end
  end.

Section WithBuiltins.
Context `{Builtins}.

(** [FileCache.set] with capacity [maxSize]. *)
Definition cacheSet (maxSize : nat) (c : FileCache) (key data : jsstring)
    (mtime : Z) : FileCache :=
  let c1 :=
    if (maxSize <=? length c)%nat then
      match c with
      | [] => []
      | (firstKey, _) :: _ => cacheDelete c firstKey
      end
    else c in
  cacheStore c1 key
    {| item_content := data; item_mtime := mtime; item_etag := md5hex data |}.

Inductive Response :=
| EventStream
| Reply (status : N) (contentType : option jsstring) (body : jsstring).

(** What handling a request did: the response ([None] when the handler
    threw), the file cache afterwards and the paths handed to [fs]. *)
Record Handled := {
  response : option Response;
  cacheAfter : FileCache;
  accessed : list jsstring
}.

Definition liveReloadScript : jsstring :=
  js "<script>!function(){var e=new EventSource(" ++ dq ++ js "/__live-reload" ++
  dq ++ js ");e.onmessage=function(e){" ++ dq ++ js "reload" ++ dq ++
  js "===e.data&&location.reload()},e.onerror=function(){e.close(),setTimeout(function(){location.reload()},2e3)}}();</script>".

(** [s.replace('</body>', r)]: the first occurrence only ([r] holds no
    dollar sign). *)
Fixpoint replaceFirst (pat r s : jsstring) : jsstring :=
  match s with
  | [] => match pat with [] => r | _ => [] end
  | c :: s' =>
      if startsWith s pat then r ++ skipn (length pat) s
      else c :: replaceFirst pat r s'
  end.

(** The path the listener sanitizes: the site root is [/index.html],
    and a path without an extension gets [.html] appended. *)
Definition requestPath (url : jsstring) : jsstring :=
  let urlPath := if streq url (js "/") then js "/index.html" else url in
  match Path.extname urlPath with
  | [] => urlPath ++ js ".html"
  | _ :: _ => urlPath
  end.

Definition forbidden : Response :=
  Reply 403 (Some (js "text/plain")) (js "Forbidden").

(** The end of the listener, once the cache holds the file: the 304
    check and the response. *)
Definition serve (filePath : jsstring) (ifNoneMatch : option jsstring)
    (item : CacheItem) (cache2 : FileCache) (acc : list jsstring) : Handled :=
  let contentType :=
    match mimeLookup filePath with
    | Some t => t
    | None => js "application/octet-stream"
    end in
  if match ifNoneMatch with
     | Some (c :: e) => streq (c :: e) (item_etag item)
     | _ => false
     end
  then {| response := Some (Reply 304 None []);
          cacheAfter := cache2; accessed := acc |}
  else
    let data :=
      if streq contentType (js "text/html")
      then replaceFirst (js "</body>") (liveReloadScript ++ js "</body>")
             (item_content item)
      else item_content item in
    {| response := Some (Reply 200 (Some contentType) data);
       cacheAfter := cache2; accessed := acc |}.

(** The branch taken when the cache does not hold the file.  The disk
    is keyed by absolute paths: [filePath] is one, and the path of the
    404 page, which the listener hands to [fs] as it is, names the file
    it resolves to in the working directory. *)
Definition serveFromDisk (cwd outputDir filePath : jsstring)
    (ifNoneMatch : option jsstring) (disk : gmap jsstring node)
    (cache1 : FileCache) (acc1 : list jsstring) : Handled :=
  match disk !! filePath with
  | None =>
      let notFoundPath := Path.join outputDir (js "404.html") in
      match disk !! Path.resolve cwd notFoundPath with
      | Some (File data _) =>
          {| response := Some (Reply 404 (Some (js "text/html")) data);
             cacheAfter := cache1;
             accessed := acc1 ++ [filePath; notFoundPath; notFoundPath] |}
      | Some (Dir _) =>
          {| response := None; cacheAfter := cache1;
             accessed := acc1 ++ [filePath; notFoundPath; notFoundPath] |}
      | None =>
          {| response := Some (Reply 404 (Some (js "text/plain"))
                                 (js "404 Not Found"));
             cacheAfter := cache1;
             accessed := acc1 ++ [filePath; notFoundPath] |}
      end
  | Some (Dir _) =>
      {| response := None; cacheAfter := cache1;
         accessed := acc1 ++ [filePath; filePath; filePath] |}
  | Some (File data mtimeMs) =>
      let cache2 := cacheSet 50 cache1 filePath data mtimeMs in
      let '(again, cache3, acc2) := cacheGet disk cache2 filePath in
      match again with
      | Some item =>
          serve filePath ifNoneMatch item cache3
            (acc1 ++ [filePath; filePath; filePath] ++ acc2)
      | None =>
          {| response := None; cacheAfter := cache3;
             accessed := acc1 ++ [filePath; filePath; filePath] ++ acc2 |}
      end
  end.

(** The request listener of [startDevServer]; [ifNoneMatch] is the
    request's header of that name. *)
Definition handle (cwd projectDir : jsstring) (disk : gmap jsstring node)
    (fileCache : FileCache) (reqUrl : jsstring) (ifNoneMatch : option jsstring)
    : Handled :=
  let outputDir := Path.join projectDir (js "public") in
  let url := beforeQuery reqUrl in
  if streq url (js "/__live-reload") then
    {| response := Some EventStream; cacheAfter := fileCache; accessed := [] |}
  else
    match sanitizePath cwd (requestPath url) outputDir with
    | None =>
        {| response := Some forbidden; cacheAfter := fileCache; accessed := [] |}
    | Some filePath =>
        let '(cached, cache1, acc1) := cacheGet disk fileCache filePath in
        match cached with
        | Some item => serve filePath ifNoneMatch item cache1 acc1
        | None => serveFromDisk cwd outputDir filePath ifNoneMatch disk cache1 acc1
        end
    end.

End WithBuiltins.

End Server.

(** ** server.js: the watch-and-reload loop *)

Module DevLoop.
Local Open Scope Z_scope.

(** The delay passed to [setTimeout]. *)
Definition debounceMs : Z := 150.

(** The state the callbacks of the loop share: the time of the last
    callback, the deadline of the armed timer ([buildTimeout], [None]
    once it has fired or before it was ever set), the rebuilds whose
    callback is suspended at its [await], and counts of the rebuilds
    started, the reload broadcasts made and the build errors logged. *)
Record Loop := {
  now : Z;
  buildTimeout : option Z;
  inFlight : nat;
  started : nat;
  broadcasts : nat;
  failures : nat
}.

Definition idle : Loop :=
  {| now := 0; buildTimeout := None; inFlight := 0; started := 0;
     broadcasts := 0; failures := 0 |}.

(** What the event loop runs next: a watcher event (add, change or
    unlink), the timer's callback, or the continuation of a suspended
    rebuild once its build has resolved ([true]) or rejected. *)
Inductive event :=
| Watch (t : Z)
| Timeout (t : Z)
| Settled (t : Z) (ok : bool).

Definition timeOf (e : event) : Z :=
  match e with
  | Watch t | Timeout t | Settled t _ => t
  end.

(** One callback.  [None] when the event loop cannot run it: time does
    not go back, a timer fires only when armed and due, and only a
    rebuild in flight can settle. *)
Definition step (s : Loop) (e : event) : option Loop :=
  if timeOf e <? now s then None
  else
    match e with
    | Watch t =>
        (* debouncedBuild: clearTimeout, then setTimeout(..., 150) *)
        Some {| now := t; buildTimeout := Some (t + debounceMs);
                inFlight := inFlight s; started := started s;
                broadcasts := broadcasts s; failures := failures s |}
    | Timeout t =>
        match buildTimeout s with
        | Some deadline =>
            if deadline <=? t then
              (* the callback runs up to [await buildFn(...)] *)
              Some {| now := t; buildTimeout := None;
                      inFlight := S (inFlight s); started := S (started s);
                      broadcasts := broadcasts s; failures := failures s |}
            else None
        | None => None
        end
    | Settled t ok =>
        match inFlight s with
        | S k =>
            (* fileCache.clear(); notifyReload(clients) -- or the catch *)
            Some {| now := t; buildTimeout := buildTimeout s; inFlight := k;
                    started := started s;
                    broadcasts := if ok then S (broadcasts s) else broadcasts s;
                    failures := if ok then failures s else S (failures s) |}
        | O => None
        end
    end.

Fixpoint run (s : Loop) (evs : list event) : option Loop :=
  match evs with
  | [] => Some s
  | e :: evs' =>
      match step s e with
      | Some s' => run s' evs'
      | None => None
      end
  end.

(** The times of the watcher events of a trace. *)
Fixpoint watchTimes (evs : list event) : list Z :=
  match evs with
  | [] => []
  | Watch t :: evs' => t :: watchTimes evs'
  | _ :: evs' => watchTimes evs'
  end.

(** Each time follows the previous one by less than the debounce
    delay. *)
Fixpoint burst (ts : list Z) : Prop :=
  match ts with
  | [] => True
  | t :: ts' =>
      match ts' with
      | [] => True
      | t' :: _ => t' - t < debounceMs /\ burst ts'
      end
  end.

(** Nothing is left to happen: no timer armed, no rebuild in flight. *)
Definition quiescent (s : Loop) : Prop :=
  buildTimeout s = None /\ inFlight s = 0%nat.

Definition allOk (evs : list event) : bool :=
  forallb (fun e => match e with Settled _ ok => ok | _ => true end) evs.

End DevLoop.

(** ** index.js: the project scaffold *)

Module Scaffold.

(** The constant texts of [index.js]: the five default templates, the
    two style sheets, the default configuration as
    [JSON.stringify(defaultConfig, null, 2)] renders it, the sample post
    and the about page. *)
Class Texts := {
  defaultHtml : jsstring;
  postHtml : jsstring;
  listHtml : jsstring;
  tagHtml : jsstring;
  notFoundHtml : jsstring;
  defaultCSS : jsstring;
  hljsCSS : jsstring;
  defaultConfigJson : jsstring;
  samplePost : jsstring;
  aboutPage : jsstring
}.

(** [if (!fs.existsSync(p)) fs.writeFileSync(p, content)], on the files
    of the target directory keyed by their path below it. *)
Definition createIfMissing (rel content : jsstring)
    (fs : gmap jsstring jsstring) : gmap jsstring jsstring :=
  match fs !! rel with
  | Some _ => fs
  | None => <[rel := content]> fs
  end.

Section WithTexts.
Context `{Texts}.

(** [Object.entries(defaultTemplates)], in the order of the literal. *)
Definition defaultTemplates : list (jsstring * jsstring) :=
  [ (js "default.html", defaultHtml);
    (js "post.html", postHtml);
    (js "list.html", listHtml);
    (js "tag.html", tagHtml);
    (js "404.html", notFoundHtml) ].

Definition indexPage : jsstring :=
  js "---" ++ Feeds.nl ++ js "title: Home" ++ Feeds.nl ++
  js "template: list" ++ Feeds.nl ++ js "---" ++ Feeds.nl.

Definition tagsIndexPage : jsstring :=
  js "---" ++ Feeds.nl ++ js "title: Tags" ++ Feeds.nl ++
  js "template: tag" ++ Feeds.nl ++ js "---" ++ Feeds.nl.

(** [init(targetDir)]. *)
Definition init (fs : gmap jsstring jsstring) : gmap jsstring jsstring :=
  let fs1 :=
    fold_left
      (fun fs e => createIfMissing (js "templates/" ++ fst e) (snd e) fs)
      defaultTemplates fs in
  let fs2 := createIfMissing (js "static/css/style.css") defaultCSS fs1 in
  let fs3 := createIfMissing (js "static/css/hljs.css") hljsCSS fs2 in
  let fs4 := createIfMissing (js "config.json") defaultConfigJson fs3 in
  let fs5 := createIfMissing (js "pages/hello-world.md") samplePost fs4 in
  let fs6 := createIfMissing (js "pages/about.md") aboutPage fs5 in
  let fs7 := createIfMissing (js "pages/index.md") indexPage fs6 in
  createIfMissing (js "pages/tags/index.md") tagsIndexPage fs7.

End WithTexts.

End Scaffold.

(** ** images.js: which files are converted and which are copied *)

Module Images.
Section WithBuiltins.
Context `{Builtins}.

Definition isOptimizableImage (filePath : jsstring) : bool :=
  let ext := toLowerCase (Path.extname filePath) in
  Related.arrayIncludes [js ".jpg"; js ".jpeg"; js ".png"] ext.

Definition isAnyImage (filePath : jsstring) : bool :=
  let ext := toLowerCase (Path.extname filePath) in
  Related.arrayIncludes
    [js ".jpg"; js ".jpeg"; js ".png"; js ".gif"; js ".webp"; js ".svg"] ext.

(** The four lists [processImages] splits the files of the images
    directory into. *)
Definition optimizableImages (files : list jsstring) : list jsstring :=
  List.filter isOptimizableImage files.

Definition otherFiles (files : list jsstring) : list jsstring :=
  List.filter (fun f => negb (isOptimizableImage f)) files.

Definition copyOnlyImages (files : list jsstring) : list jsstring :=
  List.filter isAnyImage (otherFiles files).

Definition nonImageFiles (files : list jsstring) : list jsstring :=
  List.filter (fun f => negb (isAnyImage f)) (otherFiles files).

End WithBuiltins.
End Images.

(** ** A platform to evaluate on *)

(** Stand-ins for the builtins, on which the definitions above compute:
    case conversion and normalisation as they act on ASCII text, the
    content itself as its digest, ISO dates, and a front
    matter of five fields separated by vertical bars (title, date, tags,
    draft flag, body).  Every date of the sites below parses, so the
    order in which an engine leaves posts with invalid dates plays no
    part. *)
Module Sample.

Definition asciiLower (c : N) : N :=
  if (65 <=? c) && (c <=? 90) then c + 32 else c.

Fixpoint splitBar (s : jsstring) : list jsstring :=
  match s with
  | [] => [[]]
  | c :: s' =>
      if c =? 124 then [] :: splitBar s'
      else match splitBar s' with
           | [] => [[c]]
           | w :: ws => (c :: w) :: ws
           end
  end.

Definition noFrontMatter : FrontMatter :=
  {| fm_title := None; fm_date := None; fm_description := None;
     fm_tags := None; fm_template := None; fm_draft := JUndefined;
     fm_image := None |}.

Definition sampleMatter (fileContent : jsstring) : FrontMatter * jsstring :=
  match splitBar fileContent with
  | [t; d; tg; dr; body] =>
      ({| fm_title := Some t; fm_date := Some d; fm_description := None;
          fm_tags := Some (inl tg); fm_template := None;
          fm_draft := JBool (streq dr (js "draft")); fm_image := None |},
       body)
  | _ => (noFrontMatter, fileContent)
  end.

(** The day number of a calendar date, the inverse of [Dates.civil]. *)
Definition daysFromCivil (y m d : Z) : Z :=
  let y' := if (m <=? 2)%Z then (y - 1)%Z else y in
  let era := (y' / 400)%Z in
  let yoe := (y' - era * 400)%Z in
  let mp := if (m <=? 2)%Z then (m + 9)%Z else (m - 3)%Z in
  let doy := ((153 * mp + 2) / 5 + d - 1)%Z in
  let doe := (yoe * 365 + yoe / 4 - yoe / 100 + doy)%Z in
  (era * 146097 + doe - 719468)%Z.

Definition numeral (s : jsstring) : option Z :=
  match s with
  | [] => None
  | _ :: _ =>
      if forallb Utils.isDigit s
      then Some (Z.of_N (Assembler.digitsValue s))
      else None
  end.

Definition inRange (lo hi : Z) (x : option Z) : option Z :=
  match x with
  | Some z => if ((lo <=? z) && (z <=? hi))%Z then Some z else None
  | None => None
  end.

(** [YYYY-MM-DD], read as midnight UTC; as on Node, a day of the month
    up to 31 is accepted and counted on from the first of the month. *)
Definition isoDay (s : jsstring) : option Z :=
  match numeral (firstn 4 s), inRange 1 12 (numeral (firstn 2 (skipn 5 s))),
        inRange 1 31 (numeral (firstn 2 (skipn 8 s))) with
  | Some y, Some m, Some d =>
      if (length s =? 10)%nat && streq (firstn 1 (skipn 4 s)) (js "-") &&
         streq (firstn 1 (skipn 7 s)) (js "-")
      then Some ((daysFromCivil y m 1 + d - 1) * Dates.msPerDay)%Z
      else None
  | _, _, _ => None
  end.

(** [THH:mm:ss.sssZ], the time of day [toISOString] writes. *)
Definition isoTime (s : jsstring) : option Z :=
  match inRange 0 23 (numeral (firstn 2 (skipn 1 s))),
        inRange 0 59 (numeral (firstn 2 (skipn 4 s))),
        inRange 0 59 (numeral (firstn 2 (skipn 7 s))),
        numeral (firstn 3 (skipn 10 s)) with
  | Some h, Some m, Some sec, Some ms =>
      if (length s =? 14)%nat && streq (firstn 1 s) (js "T") &&
         streq (firstn 1 (skipn 3 s)) (js ":") &&
         streq (firstn 1 (skipn 6 s)) (js ":") &&
         streq (firstn 1 (skipn 9 s)) (js ".") &&
         streq (skipn 13 s) (js "Z")
      then Some (((h * 60 + m) * 60 + sec) * 1000 + ms)%Z
      else None
  | _, _, _, _ => None
  end.

(** The dates of the sites below: the date-only ISO form and the form
    [toISOString] writes.  Every other text is an invalid date here. *)
Definition sampleDate (s : jsstring) : option Z :=
  match isoDay (firstn 10 s), skipn 10 s with
  | Some day, [] => Some day
  | Some day, rest =>
      match isoTime rest with
      | Some t => Some (day + t)%Z
      | None => None
      end
  | None, _ => None
  end.

Definition builtins : Builtins :=
  {| toLowerCase := List.map asciiLower;
     normalizeNFD := fun s => s;
     md5hex := fun s => s;
     dateParse := sampleDate;
     toLocaleDateString := fun d _ => d;
     matter := sampleMatter;
     marked := fun s => s;
     mimeLookup := fun p =>
       if streq (Path.extname p) (js ".html") then Some (js "text/html")
       else None;
     sortUnordered := fun _ posts => posts;
     sortUnordered_perm := fun _ posts => Permutation_refl posts |}.

Definition fragments : Fragments :=
  {| generateTOC := fun _ => [];
     generateMetaTags := fun _ _ => [];
     getProgressBarCode := [];
     generatePostsListHtml := fun _ _ => [];
     generateTagsListHtml := fun _ => [] |}.

Definition config : Config :=
  {| cfg_title := js "My Blog";
     cfg_description := js "A blog built with lite-blog";
     cfg_siteUrl := js "http://localhost:3000";
     cfg_author := js "Anonymous";
     cfg_postsPerPage := 10;
     cfg_language := js "vi" |}.

(** A small blog without an [index] page: two posts, and the templates
    for posts, listings and tag pages. *)
Definition templates : gmap jsstring jsstring :=
  {[ js "post" := js "<html><h1>{{title}}</h1>{{content}}{{tags}}</html>";
     js "list" := js "<html>{{posts}}{{pagination}}</html>";
     js "tag" := js "<html>{{tag}}:{{posts}}</html>" ]}.

Definition blog : Assembler.Source :=
  {| Assembler.src_config := config;
     Assembler.src_templates := templates;
     Assembler.src_pagesDir := js "pages";
     Assembler.src_pages :=
       [(js "hello.md", js "Hello|2023-11-14|x,y|no|<h2>Hi there</h2> body");
        (js "second.md", js "Second|2023-11-15|x|no|text")];
     Assembler.src_static := None;
     Assembler.src_404 := None |}.

(** The same blog after a third post was added. *)
Definition blogLater : Assembler.Source :=
  {| Assembler.src_config := config;
     Assembler.src_templates := templates;
     Assembler.src_pagesDir := js "pages";
     Assembler.src_pages :=
       [(js "hello.md", js "Hello|2023-11-14|x,y|no|<h2>Hi there</h2> body");
        (js "second.md", js "Second|2023-11-15|x|no|text");
        (js "third.md", js "Third|2023-11-16|y|no|more")];
     Assembler.src_static := None;
     Assembler.src_404 := None |}.

(** A clock that reads the instant [t] throughout a pass. *)
Definition clockAt (t : Z) : Assembler.Clock :=
  {| Assembler.parseInstant := fun _ => t; Assembler.rssInstant := t |}.

(** The first, full pass of the blog, and what it leaves behind. *)
Definition firstPass : outcome Assembler.Pass :=
  Assembler.build (H := builtins) (H0 := fragments) blog false ∅ ∅
    (clockAt 1793674140000).

Definition filesAfter (r : outcome Assembler.Pass) : gmap jsstring jsstring :=
  match r with
  | Returns p => Assembler.files (Assembler.out p)
  | _ => ∅
  end.

Definition cacheAfter (r : outcome Assembler.Pass) : gmap jsstring jsval :=
  match r with
  | Returns p => Assembler.savedCache p
  | _ => ∅
  end.

(** The incremental pass that follows once the third post exists. *)
Definition secondPass : outcome Assembler.Pass :=
  Assembler.build (H := builtins) (H0 := fragments) blogLater true
    (cacheAfter firstPass) (filesAfter firstPass) (clockAt 1793674200000).

Definition passOf (r : outcome Assembler.Pass) : Assembler.Pass :=
  match r with
  | Returns p => p
  | _ =>
      {| Assembler.out := {| Assembler.files := ∅; Assembler.written := [] |};
         Assembler.savedCache := ∅; Assembler.posts := [];
         Assembler.hasNewPosts := false |}
  end.

(** A second full pass, run one second after the first on its output. *)
Definition repeatedPass : outcome Assembler.Pass :=
  Assembler.build (H := builtins) (H0 := fragments) blog false
    (cacheAfter firstPass) (filesAfter firstPass) (clockAt 1793674141000).

End Sample.

(** ** More sites to evaluate on *)

Module Scenarios.

(** A site whose only page is a draft, with a page size of zero. *)
Definition draftBlog : Assembler.Source :=
  {| Assembler.src_config :=
       {| cfg_title := js "Drafts"; cfg_description := []; cfg_siteUrl := js "http://x";
          cfg_author := js "me"; cfg_postsPerPage := 0; cfg_language := js "en" |};
     Assembler.src_templates := Sample.templates;
     Assembler.src_pagesDir := js "pages";
     Assembler.src_pages := [(js "wip.md", js "WIP|2023-11-14|x|draft|text")];
     Assembler.src_static := None;
     Assembler.src_404 := None |}.

Definition draftPass : outcome Assembler.Pass :=
  Assembler.build (H := Sample.builtins) (H0 := Sample.fragments) draftBlog false ∅ ∅
    (Sample.clockAt 1793674140000).

(** The sample blog with a static directory that holds a style sheet
    and a file named like the page of the first post, and with a custom
    404 page. *)
Definition staticBlog : Assembler.Source :=
  {| Assembler.src_config := Sample.config;
     Assembler.src_templates := Sample.templates;
     Assembler.src_pagesDir := js "pages";
     Assembler.src_pages := Assembler.src_pages Sample.blog;
     Assembler.src_static :=
       Some [(js "css/style.css", js "body{}"); (js "hello.html", js "by hand")];
     Assembler.src_404 := Some (js "gone") |}.

Definition staticPass : outcome Assembler.Pass :=
  Assembler.build (H := Sample.builtins) (H0 := Sample.fragments) staticBlog false ∅ ∅
    (Sample.clockAt 1793674140000).

(** The incremental pass over the sample blog right after its first
    pass, nothing having changed. *)
Definition idlePass : outcome Assembler.Pass :=
  Assembler.build (H := Sample.builtins) (H0 := Sample.fragments) Sample.blog true
    (Sample.cacheAfter Sample.firstPass) (Sample.filesAfter Sample.firstPass)
    (Sample.clockAt 1793674200000).

(** A post that carries the tag [constructor]. *)
Definition reservedPost : Post :=
  {| slug := js "r"; filePath := js "pages/r.md"; title := js "R";
     date := js "2023-11-14"; description := []; tags := [js "constructor"];
     template := js "post"; draft := JBool false; image := [];
     readingTime := 1; toc := []; content := []; raw := [] |}.

(** A post whose date is no date. *)
Definition vaguePost : Post :=
  {| slug := js "v"; filePath := js "pages/v.md"; title := js "V";
     date := js "tomorrow"; description := []; tags := [];
     template := js "post"; draft := JBool false; image := [];
     readingTime := 1; toc := []; content := []; raw := [] |}.

(** An output directory with one page, read at time 5. *)
Definition disk : gmap jsstring Server.node :=
  {[ js "/srv/blog/public/about.html" :=
       Server.File (js "<html><body>About</body></html>") 5 ]}.

(** Short stand-ins for the constant texts of the scaffold. *)
Definition texts : Scaffold.Texts :=
  {| Scaffold.defaultHtml := js "<html>{{content}}</html>";
     Scaffold.postHtml := js "<article>{{content}}</article>";
     Scaffold.listHtml := js "<main>{{posts}}</main>";
     Scaffold.tagHtml := js "<main>{{tag}}</main>";
     Scaffold.notFoundHtml := js "<h1>404</h1>";
     Scaffold.defaultCSS := js "body{}";
     Scaffold.hljsCSS := js ".hljs{}";
     Scaffold.defaultConfigJson := js "{}";
     Scaffold.samplePost := js "# Hello";
     Scaffold.aboutPage := js "# About" |}.

End Scenarios.

(** * Vocabulary of the properties *)

Module SlugSpec.
Import Utils.

(** The characters a slug is made of. *)
Definition isSlugChar (c : N) : bool := isLower c || isDigit c || isHyphen c.

(** No hyphen follows a hyphen; [prev] tells that a hyphen precedes. *)
Fixpoint collapsed (prev : bool) (s : jsstring) : Prop :=
  match s with
  | [] => True
  | c :: s' =>
      if isHyphen c then prev = false /\ collapsed true s'
      else collapsed false s'
  end.

(** The steps the two identifier pipelines share: drop what is neither
    a lower-case letter, a digit, whitespace nor a hyphen; turn runs of
    whitespace, then runs of hyphens, into one hyphen; trim. *)
Definition tidy (s : jsstring) : jsstring :=
  trim
    (replaceRuns isHyphen (js "-") false
       (replaceRuns isSpace (js "-") false
          (removeClass (fun c => negb (isSlugKeep c)) s))).

(** Case conversion and canonical decomposition leave text made of
    lower-case ASCII letters, digits and hyphens as it is. *)
Definition fixesSlugs (f : jsstring -> jsstring) : Prop :=
  forall s, forallb isSlugChar s = true -> f s = s.

End SlugSpec.

Module SortSpec.
Import Lists.

(** The comparator [(a, b) => key(b) - key(a)]. *)
Definition keyDesc {A : Type} (key : A -> nat) (a b : A) : option Z :=
  Some (Z.of_nat (key b) - Z.of_nat (key a))%Z.

Definition notBelow {A : Type} (key : A -> nat) (a b : A) : Prop :=
  (key b <= key a)%nat.

End SortSpec.

Module RelatedSpec.
Import Lists Related.

(** The posts related to the current one: the others that are
    published, not special, and share a tag with it. *)
Definition related (currentPost : Post) (allPosts : list Post) : list Post :=
  List.filter
    (fun p => eligible currentPost p && (0 <? sharedTags currentPost p)%nat)
    allPosts.

(** The number of entries of a post's tag list that are tags of the
    current post: a tag the post lists twice counts twice. *)
Definition taggedEntries (currentPost post : Post) : nat :=
  length (List.filter (fun t => bool_decide (t ∈ tags currentPost)) (tags post)).

(** The number of tags the two posts share: the distinct tags of the
    current post that the post carries. *)
Definition sharedTagCount (currentPost post : Post) : nat :=
  length
    (List.filter (fun t => bool_decide (t ∈ tags post))
       (List.nodup (fun a b : jsstring => decide (a = b)) (tags currentPost))).

Definition postA : Post :=
  {| slug := js "a"; filePath := js "pages/a.md"; title := js "A";
     date := js "2024-01-03"; description := []; tags := [js "x"; js "y"];
     template := js "post"; draft := JBool false; image := [];
     readingTime := 1; toc := []; content := []; raw := [] |}.

Definition postB : Post :=
  {| slug := js "b"; filePath := js "pages/b.md"; title := js "B";
     date := js "2024-01-02"; description := []; tags := [js "x"];
     template := js "post"; draft := JBool false; image := [];
     readingTime := 1; toc := []; content := []; raw := [] |}.

Definition postC : Post :=
  {| slug := js "c"; filePath := js "pages/c.md"; title := js "C";
     date := js "2024-01-01"; description := []; tags := [js "z"];
     template := js "post"; draft := JBool false; image := [];
     readingTime := 1; toc := []; content := []; raw := [] |}.

(** A post that lists the tag x twice, and one tagged x and y. *)
Definition postD : Post :=
  {| slug := js "d"; filePath := js "pages/d.md"; title := js "D";
     date := js "2024-01-04"; description := []; tags := [js "x"; js "x"];
     template := js "post"; draft := JBool false; image := [];
     readingTime := 1; toc := []; content := []; raw := [] |}.

Definition postE : Post :=
  {| slug := js "e"; filePath := js "pages/e.md"; title := js "E";
     date := js "2024-01-05"; description := []; tags := [js "x"; js "y"];
     template := js "post"; draft := JBool false; image := [];
     readingTime := 1; toc := []; content := []; raw := [] |}.

End RelatedSpec.

Module HeadingSpec.
Import Utils.

Definition constructorKey : jsstring := js "constructor".

(** The identifier of the [k]-th heading (counting from 1) whose derived
    identifier is [b].  The name [constructor] is special: the empty
    counter object already has a member of that name. *)
Definition nthId (b : jsstring) (k : nat) : jsstring :=
  if streq b constructorKey then
    match k with
    | 1%nat => b ++ js "-NaN"
    | 2%nat => b
    | _ => b ++ js "-" ++ showN (N.of_nat (k - 1))
    end
  else
    match k with
    | 1%nat => b
    | _ => b ++ js "-" ++ showN (N.of_nat k)
    end.

(** The counter's own property [b] after [k] headings used it. *)
Definition counterAfter (b : jsstring) (k : nat) : option jsval :=
  match k with
  | O => None
  | S k' =>
      if streq b constructorKey then
        match k' with
        | O => Some JNaN
        | S _ => Some (JNum (Z.of_nat k'))
        end
      else Some (JNum (Z.of_nat k))
  end.

Definition bump (cnt : jsstring -> nat) (b : jsstring) : jsstring -> nat :=
  fun x => if streq x b then S (cnt x) else cnt x.

(** How often [b] occurs in a list of identifiers. *)
Definition occurrences (b : jsstring) (l : list jsstring) : nat :=
  length (List.filter (streq b) l).

(** The identifier the specification's words describe: lower-case the
    text and collapse what is not alphanumeric to hyphens. *)
Definition collapseToHyphens (lowered : jsstring) : jsstring :=
  replaceRuns (fun c => negb (isLower c || isDigit c)) (js "-") false lowered.

Definition readN (s : jsstring) : option N :=
  option_map N.of_uint
    (NilZero.uint_of_string (string_of_list_ascii (List.map ascii_of_N s))).

Definition tracks (counter : gmap jsstring jsval) (cnt : jsstring -> nat) : Prop :=
  forall b, counter !! b = counterAfter b (cnt b).

Section WithBuiltins.
Context `{Builtins}.

(** The document with the given identifiers put on its headings. *)
Fixpoint renderWith (segs : list segment) (ids : list jsstring) : jsstring :=
  match segs with
  | [] => []
  | Lit c :: segs' => c :: renderWith segs' ids
  | Heading level text :: segs' =>
      match ids with
      | id :: ids' => headingTag level id text ++ renderWith segs' ids'
      | [] => []
      end
  end.

Definition baseOf (h : jsstring * jsstring) : jsstring := headingBaseId (fst h).

(** The identifiers in terms of occurrence counts. *)
Fixpoint specIds (segs : list segment) (cnt : jsstring -> nat)
    : list (jsstring * jsstring) :=
  match segs with
  | [] => []
  | Lit _ :: segs' => specIds segs' cnt
  | Heading _ text :: segs' =>
      let b := headingBaseId text in
      (text, nthId b (S (cnt b))) :: specIds segs' (bump cnt b)
  end.

End WithBuiltins.

End HeadingSpec.

Module PathSpec.
Import Path.

(** A segment that [normalizeString] keeps as a name. *)
Definition isName (seg : jsstring) : bool :=
  negb (streq seg []) && negb (streq seg dot) && negb (streq seg dotdot).

(** A segment that is not skipped: a name or [..]. *)
Definition isKept (seg : jsstring) : bool :=
  negb (streq seg []) && negb (streq seg dot).

Definition slashFree (seg : jsstring) : bool := forallb (fun c => negb (c =? 47)) seg.

(** The segments a path denotes in the working directory. *)
Definition absSegments (cwd p : jsstring) : list jsstring :=
  if isAbsolute p then segments p else segments cwd ++ segments p.

End PathSpec.

Module DevLoopSpec.
Import DevLoop.
Local Open Scope Z_scope.

(** What the loop looks like after a burst has begun: either the timer
    is armed for the last event and nothing has started, or it has fired
    once, not before its deadline, and that one rebuild is in flight or
    has settled. *)
Definition afterBurst (w : Z) (s : Loop) : Prop :=
  w <= now s /\
  ((buildTimeout s = Some (w + debounceMs) /\ started s = 0%nat /\
    inFlight s = 0%nat /\ broadcasts s = 0%nat /\ failures s = 0%nat) \/
   (buildTimeout s = None /\ started s = 1%nat /\ w + debounceMs <= now s /\
    (inFlight s + broadcasts s + failures s = 1)%nat)).

Definition beforeBurst (s : Loop) : Prop :=
  buildTimeout s = None /\ started s = 0%nat /\ inFlight s = 0%nat /\
  broadcasts s = 0%nat /\ failures s = 0%nat.

(** Times that do not go back, from [t0] on. *)
Fixpoint ascending (t0 : Z) (ts : list Z) : Prop :=
  match ts with
  | [] => True
  | t :: ts' => t0 <= t /\ ascending t ts'
  end.

Definition burstInvariant (evs : list event) (s : Loop) : Prop :=
  match last (watchTimes evs) with
  | Some w => afterBurst w s
  | None => beforeBurst s
  end.

End DevLoopSpec.

Module AssemblerSpec.
Import Template Builder Assembler.

(** The keys of an object, or the paths of a list of writes. *)
Definition keysOf {V : Type} (o : list (jsstring * V)) : list jsstring :=
  List.map fst o.

(** The writes of [d] are still there in [d']. *)
Definition extends (d d' : Disk) : Prop :=
  exists l, written d' = l ++ written d.

Definition indexHtml : jsstring := js "index.html".

(** The file [k] still has the content [old], and no write went to it. *)
Definition keeps (k old : jsstring) (d : Disk) : Prop :=
  files d !! k = Some old /\ ~ In k (List.map fst (written d)).

(** Equal lookups everywhere but at [k]. *)
Definition agreeExcept (k : jsstring) (m1 m2 : gmap jsstring jsstring) : Prop :=
  forall path, path <> k -> m1 !! path = m2 !! path.

Section WithBuiltins.
Context `{Builtins}.

(** The document declares a date in its front matter. *)
Definition dated (fileContent : jsstring) : Prop :=
  exists c d, fm_date (fst (matter fileContent)) = Some (c :: d).

End WithBuiltins.

End AssemblerSpec.

Module FeedsSpec.
Import Feeds.

(** What one character becomes in XML text and in HTML text. *)
Definition xmlEntity (c : N) : jsstring :=
  if c =? 38 then js "&amp;"
  else if c =? 60 then js "&lt;"
  else if c =? 62 then js "&gt;"
  else if c =? 34 then js "&quot;"
  else if c =? 39 then js "&apos;"
  else [c].

Definition htmlEntity (c : N) : jsstring :=
  if c =? 38 then js "&amp;"
  else if c =? 60 then js "&lt;"
  else if c =? 62 then js "&gt;"
  else if c =? 34 then js "&quot;"
  else if c =? 39 then js "&#039;"
  else [c].

(** The characters that delimit tags and attribute values. *)
Definition isMarkup (c : N) : bool :=
  (c =? 60) || (c =? 62) || (c =? 34) || (c =? 39).

(** A word: at least one character, none of them whitespace. *)
Definition isWord (w : jsstring) : Prop :=
  w <> [] /\ forallb (fun c => negb (Utils.isSpace c)) w = true.

(** The posts that are not drafts. *)
Definition published (p : Post) : bool := negb (truthy (draft p)).

(** The posts the sitemap lists. *)
Definition inSitemap (p : Post) : bool :=
  negb (truthy (draft p)) && negb (streq (slug p) (js "index")) &&
  negb (startsWith (slug p) (js "tags/")).

Section WithBuiltins.
Context `{Builtins}.

(** The post's date parses to a time value in the range of [Date]. *)
Definition validDate (p : Post) : Prop :=
  exists t, dateParse (date p) = Some t /\ Dates.validTime t = true.

End WithBuiltins.

End FeedsSpec.

Module PassSpec.
Import Assembler AssemblerSpec FeedsSpec.

(** The posts pushed for [tag]: each post once for every time its tag
    list names the tag, in the order of the posts. *)
Definition groupOf (tag : jsstring) (ps : list Post) : list Post :=
  flat_map (fun p => List.map (fun _ => p) (List.filter (streq tag) (tags p))) ps.

(** The array a grouping holds for [tag], empty when it has none. *)
Definition groupAt (g : list (jsstring * list Post)) (tag : jsstring) : list Post :=
  match List.find (fun e => streq (fst e) tag) g with
  | Some e => snd e
  | None => []
  end.

(** No tag of these posts names a member of [Object.prototype]. *)
Definition plainTags (ps : list Post) : Prop :=
  forall p tag, In p ps -> In tag (tags p) -> isInheritedKey tag = false.

(** The keys of a grouping are not names of inherited members. *)
Definition plainKeys (o : list (jsstring * list Post)) : Prop :=
  Forall (fun k => isInheritedKey k = false) (keysOf o).

(** The directory that results from a sequence of writes, latest first. *)
Definition replay (ws : list (jsstring * jsstring))
    (before : gmap jsstring jsstring) : gmap jsstring jsstring :=
  foldr (fun e m => <[fst e := snd e]> m) before ws.

Definition tracked (before : gmap jsstring jsstring) (d : Disk) : Prop :=
  files d = replay (written d) before.

End PassSpec.

Module ServerSpec.
Import Server.

(** The modification time of what the disk holds under a path. *)
Definition mtimeOf (disk : gmap jsstring node) (key : jsstring) : option Z :=
  match disk !! key with
  | Some (File _ mtimeMs) => Some mtimeMs
  | Some (Dir mtimeMs) => Some mtimeMs
  | None => None
  end.

Section WithBuiltins.
Context `{Builtins}.

(** Every entry of the cache is the file the disk holds under its key,
    read no earlier than the file was last modified, with the digest of
    its content as its tag. *)
Definition coherent (disk : gmap jsstring node) (c : FileCache) : Prop :=
  forall key item,
    cacheLookup c key = Some item ->
    exists mtimeMs,
      disk !! key = Some (File (item_content item) mtimeMs) /\
      (mtimeMs <= item_mtime item)%Z /\
      item_etag item = md5hex (item_content item).

(** The body sent for a file: HTML gets the live-reload script before
    its first closing body tag. *)
Definition bodyOf (filePath data : jsstring) : jsstring :=
  match mimeLookup filePath with
  | Some t =>
      if streq t (js "text/html")
      then replaceFirst (js "</body>") (liveReloadScript ++ js "</body>") data
      else data
  | None => data
  end.

Definition contentTypeOf (filePath : jsstring) : jsstring :=
  match mimeLookup filePath with
  | Some t => t
  | None => js "application/octet-stream"
  end.

End WithBuiltins.

End ServerSpec.

Module DebounceSpec.
Import DevLoop.
Local Open Scope Z_scope.

(** Every watcher event so far lies in the past, and an armed timer is
    due no sooner than the debounce delay after each of them. *)
Definition settled (evs : list event) (s : Loop) : Prop :=
  forall w, In w (watchTimes evs) ->
    w <= now s /\ forall d, buildTimeout s = Some d -> w + debounceMs <= d.

(** One if the timer is armed. *)
Definition armed (s : Loop) : nat :=
  match buildTimeout s with
  | Some _ => 1
  | None => 0
  end.

End DebounceSpec.

Module ScaffoldSpec.
Import Scaffold.

Section WithTexts.
Context `{Texts}.

(** The files [init] creates, in the order it looks at them. *)
Definition scaffold : list (jsstring * jsstring) :=
  List.map (fun e => (js "templates/" ++ fst e, snd e)) defaultTemplates ++
  [ (js "static/css/style.css", defaultCSS);
    (js "static/css/hljs.css", hljsCSS);
    (js "config.json", defaultConfigJson);
    (js "pages/hello-world.md", samplePost);
    (js "pages/about.md", aboutPage);
    (js "pages/index.md", indexPage);
    (js "pages/tags/index.md", tagsIndexPage) ].

End WithTexts.

End ScaffoldSpec.

(** ** Well-formed templates *)

Module TemplateSpec.
Import Template.

(** A template cut into pieces: text, and placeholders with the
    whitespace before and after the key. *)
Inductive piece :=
| Text (t : jsstring)
| Hole (before key after : jsstring).

Definition pieceText (p : piece) : jsstring :=
  match p with
  | Text t => t
  | Hole before key after => js "{{" ++ before ++ key ++ after ++ js "}}"
  end.

Definition templateOf (ps : list piece) : jsstring :=
  concat (List.map pieceText ps).

(** Text in which every opening brace is followed by a character that
    is not an opening brace: no placeholder can begin in it. *)
Fixpoint calm (t : jsstring) : bool :=
  match t with
  | [] => true
  | c :: t' =>
      (if c =? 123
       then match t' with
            | [] => false
            | d :: _ => negb (d =? 123)
            end
       else true) && calm t'
  end.

Definition dollarFree (t : jsstring) : bool :=
  forallb (fun c => negb (c =? 36)) t.

(** A key made of letters, digits and underscores, and not empty. *)
Definition goodKey (key : jsstring) : bool :=
  plainKey key && negb (streq key []).

Definition goodPiece (p : piece) : bool :=
  match p with
  | Text t => calm t
  | Hole before key after =>
      forallb Utils.isSpace before && forallb Utils.isSpace after && goodKey key
  end.

Definition goodEntry (e : jsstring * tvalue) : bool :=
  goodKey (fst e) && dollarFree (replacementOf (snd e)) &&
  calm (replacementOf (snd e)).

(** The text the data holds for a key: that of the first entry with
    the key. *)
Fixpoint valueOf (data : list (jsstring * tvalue)) (key : jsstring)
    : option jsstring :=
  match data with
  | [] => None
  | e :: rest =>
      if streq (fst e) key then Some (replacementOf (snd e)) else valueOf rest key
  end.

(** A piece with its placeholder filled in, if the data has the key. *)
Definition fillPiece (data : list (jsstring * tvalue)) (p : piece) : jsstring :=
  match p with
  | Text t => t
  | Hole before key after =>
      match valueOf data key with
      | Some v => v
      | None => pieceText p
      end
  end.

(** One substitution step on the pieces. *)
Definition fillKey (key v : jsstring) (p : piece) : piece :=
  match p with
  | Text t => Text t
  | Hole before k after => if streq k key then Text v else p
  end.

End TemplateSpec.

(** * Properties *)

(** ** The cache gate *)

Module CacheProps.
Import Cache.

Section WithBuiltins.
Context `{Builtins}.

Lemma getFileHash_cases fs p :
  getFileHash fs p = JNull \/ exists h, getFileHash fs p = JStr h.
Proof.
  unfold getFileHash. destruct (fs !! p); [right; eauto | left; reflexivity].
Qed.

Lemma streq_true (a b : jsstring) : streq a b = true <-> a = b.
Proof. unfold streq. apply bool_decide_eq_true. Qed.

Lemma streq_refl (a : jsstring) : streq a a = true.
Proof. apply streq_true. reflexivity. Qed.

(** On the values a hash can take, strict equality is equality. *)
Lemma strictEq_hash fs p v :
  strictEq (getFileHash fs p) v = true <-> v = getFileHash fs p.
Proof.
  destruct (getFileHash_cases fs p) as [-> | [h ->]]; destruct v; simpl;
    try (split; [discriminate | intros ?; discriminate]);
    try (split; reflexivity).
  rewrite streq_true. split; [intros -> | intros [= ->]]; reflexivity.
Qed.

Lemma needsRebuild_false fs p cache :
  needsRebuild fs p cache = false <-> objGet cache p = getFileHash fs p.
Proof.
  unfold needsRebuild. rewrite negb_false_iff. apply strictEq_hash.
Qed.



(** A file that does not exist hashes to [null]. *)
Lemma getFileHash_missing fs p : fs !! p = None -> getFileHash fs p = JNull.
Proof. intros E. unfold getFileHash. rewrite E. reflexivity. Qed.

(** C10 as amended: for a path that does not exist [getFileHash] returns
    [null], and [needsRebuild] returns [true] for every snapshot that
    does not record [null] for the path, whether the path is absent from
    it or holds a hash. *)
Theorem missing_file_needs_rebuild fs p cache :
  fs !! p = None ->
  cache !! p <> Some JNull ->
  getFileHash fs p = JNull /\ needsRebuild fs p cache = true.
Proof.
  intros Hfs Hc. split; [apply getFileHash_missing; exact Hfs |].
  destruct (needsRebuild fs p cache) eqn:N; [reflexivity | exfalso].
  apply needsRebuild_false in N.
  rewrite (getFileHash_missing fs p Hfs) in N.
  unfold objGet in N. destruct (cache !! p) as [v |] eqn:E.
  - subst v. apply Hc. reflexivity.
  - destruct (isInheritedKey p); discriminate.
Qed.

End WithBuiltins.

(** C10 refuted as stated: the file is missing, the snapshot records
    [null] for it (what [getFileHash] stores for a file that vanished
    before it was hashed), and [needsRebuild] returns [false]. *)
Lemma missing_file_recorded_null :
  let fs : gmap jsstring jsstring := ∅ in
  let cache : gmap jsstring jsval := {[ js "pages/gone.md" := JNull ]} in
  fs !! js "pages/gone.md" = None /\
  @getFileHash Sample.builtins fs (js "pages/gone.md") = JNull /\
  @needsRebuild Sample.builtins fs (js "pages/gone.md") cache = false.
Proof. vm_compute. repeat split. Qed.

Lemma missing_file_needs_rebuild_witness :
  let fs : gmap jsstring jsstring := ∅ in
  let cache : gmap jsstring jsval := {[ js "pages/gone.md" := JStr (js "0cc175b9") ]} in
  @getFileHash Sample.builtins fs (js "pages/gone.md") = JNull /\
  @needsRebuild Sample.builtins fs (js "pages/gone.md") cache = true.
Proof.
  apply (@missing_file_needs_rebuild Sample.builtins).
  - reflexivity.
  - vm_compute. discriminate.
Defined.

End CacheProps.

(** ** slugify *)

Module SlugProps.
Import Utils SlugSpec.

Ltac classes :=
  unfold isSlugChar, isSlugKeep, isLower, isDigit, isHyphen, isSpace,
    isCombining in *;
  repeat match goal with
         | |- _ = false => apply not_true_iff_false; intro
         end;
  repeat match goal with
         | H : _ |- _ =>
             first [ rewrite orb_true_iff in H | rewrite andb_true_iff in H
                   | rewrite N.leb_le in H | rewrite N.eqb_eq in H ]
         end;
  repeat first [ rewrite orb_true_iff | rewrite andb_true_iff
               | rewrite N.leb_le | rewrite N.eqb_eq ];
  try lia.

Lemma slugChar_not_space c : isSlugChar c = true -> isSpace c = false.
Proof. intros Hc. classes. Qed.

Lemma slugChar_not_combining c : isSlugChar c = true -> isCombining c = false.
Proof. intros Hc. classes. Qed.

Lemma slugChar_keep c : isSlugChar c = true -> isSlugKeep c = true.
Proof.
  unfold isSlugKeep, isSlugChar.
  destruct (isLower c), (isDigit c), (isSpace c), (isHyphen c); simpl; auto.
Qed.

Lemma keep_cases c :
  isSlugKeep c = true -> isSpace c = true \/ isSlugChar c = true.
Proof.
  unfold isSlugKeep, isSlugChar.
  destruct (isLower c), (isDigit c), (isSpace c), (isHyphen c); simpl; auto.
Qed.

Lemma hyphen_eq c : isHyphen c = true -> c = 45.
Proof. unfold isHyphen. intros Hc. apply N.eqb_eq. exact Hc. Qed.

Lemma replaceRuns_collapsed inRun s :
  collapsed inRun (replaceRuns isHyphen (js "-") inRun s).
Proof.
  revert inRun. induction s as [| c s IH]; intros inRun; simpl; [exact I |].
  destruct (isHyphen c) eqn:Hc.
  - destruct inRun; simpl.
    + apply IH.
    + split; [reflexivity | apply IH].
  - simpl. rewrite Hc. apply IH.
Qed.

Lemma replaceRuns_fixed prev s :
  collapsed prev s -> replaceRuns isHyphen (js "-") prev s = s.
Proof.
  revert prev. induction s as [| c s IH]; intros prev; simpl; [reflexivity |].
  destruct (isHyphen c) eqn:Hc.
  - intros [-> Hs]. rewrite (IH true Hs). simpl.
    rewrite (hyphen_eq c Hc). reflexivity.
  - intros Hs. rewrite (IH false Hs). reflexivity.
Qed.

Lemma replaceRuns_hyphen_chars inRun s :
  forallb isSlugChar s = true ->
  forallb isSlugChar (replaceRuns isHyphen (js "-") inRun s) = true.
Proof.
  revert inRun. induction s as [| c s IH]; intros inRun; simpl; [reflexivity |].
  intros Hs. apply andb_true_iff in Hs as [Hc Hs].
  destruct (isHyphen c).
  - destruct inRun; simpl; auto.
  - simpl. rewrite Hc. simpl. auto.
Qed.

Lemma replaceRuns_space_chars inRun s :
  forallb isSlugKeep s = true ->
  forallb isSlugChar (replaceRuns isSpace (js "-") inRun s) = true.
Proof.
  revert inRun. induction s as [| c s IH]; intros inRun; simpl; [reflexivity |].
  intros Hs. apply andb_true_iff in Hs as [Hc Hs].
  destruct (isSpace c) eqn:Sp.
  - destruct inRun; simpl; auto.
  - simpl. destruct (keep_cases c Hc) as [K | K]; [congruence |].
    rewrite K. simpl. auto.
Qed.

Lemma replaceRuns_space_fixed inRun s :
  forallb isSlugChar s = true -> replaceRuns isSpace (js "-") inRun s = s.
Proof.
  revert inRun. induction s as [| c s IH]; intros inRun; simpl; [reflexivity |].
  intros Hs. apply andb_true_iff in Hs as [Hc Hs].
  rewrite (slugChar_not_space c Hc), (IH false Hs). reflexivity.
Qed.

Lemma removeClass_kept cls s :
  forallb (fun c => negb (cls c)) (removeClass cls s) = true.
Proof.
  unfold removeClass. induction s as [| c s IH]; simpl; [reflexivity |].
  destruct (cls c) eqn:E; simpl; [exact IH | rewrite E; exact IH].
Qed.

Lemma removeClass_fixed cls s :
  forallb (fun c => negb (cls c)) s = true -> removeClass cls s = s.
Proof.
  unfold removeClass. induction s as [| c s IH]; simpl; [reflexivity |].
  intros Hs. apply andb_true_iff in Hs as [Hc Hs].
  rewrite Hc, (IH Hs). reflexivity.
Qed.

Lemma forallb_impl (f g : N -> bool) s :
  (forall c, f c = true -> g c = true) ->
  forallb f s = true -> forallb g s = true.
Proof.
  intros Hfg. induction s as [| c s IH]; simpl; [reflexivity |].
  intros Hs. apply andb_true_iff in Hs as [Hc Hs].
  rewrite (Hfg c Hc), (IH Hs). reflexivity.
Qed.

Lemma dropSpace_fixed s :
  forallb isSlugChar s = true -> dropSpace s = s.
Proof.
  destruct s as [| c s]; simpl; [reflexivity |].
  intros Hs. apply andb_true_iff in Hs as [Hc _].
  rewrite (slugChar_not_space c Hc). reflexivity.
Qed.

Lemma forallb_rev (f : N -> bool) s :
  forallb f s = true -> forallb f (rev s) = true.
Proof.
  intros Hs. apply forallb_forall. intros x Hx.
  apply (proj1 (forallb_forall f s) Hs). apply in_rev. exact Hx.
Qed.

Lemma trim_fixed s : forallb isSlugChar s = true -> trim s = s.
Proof.
  intros Hs. unfold trim. rewrite (dropSpace_fixed s Hs).
  rewrite (dropSpace_fixed (rev s) (forallb_rev _ _ Hs)).
  apply rev_involutive.
Qed.

Lemma tidy_shape s :
  forallb isSlugChar (tidy s) = true /\ collapsed false (tidy s).
Proof.
  unfold tidy.
  set (k := removeClass (fun c => negb (isSlugKeep c)) s).
  assert (Hk : forallb isSlugKeep k = true).
  { subst k. eapply forallb_impl; [| apply removeClass_kept].
    intros c. simpl. rewrite negb_involutive. auto. }
  pose proof (replaceRuns_space_chars false k Hk) as Hy.
  pose proof (replaceRuns_hyphen_chars false _ Hy) as Hx.
  rewrite (trim_fixed _ Hx). split; [exact Hx | apply replaceRuns_collapsed].
Qed.

Lemma tidy_fixed s :
  forallb isSlugChar s = true -> collapsed false s -> tidy s = s.
Proof.
  intros Hs Hc. unfold tidy.
  rewrite (removeClass_fixed _ s).
  2:{ eapply forallb_impl; [| exact Hs].
      intros c Hc'. rewrite (slugChar_keep c Hc'). reflexivity. }
  rewrite (replaceRuns_space_fixed false s Hs).
  rewrite (replaceRuns_fixed false s Hc).
  apply trim_fixed. exact Hs.
Qed.

Lemma removeCombining_fixed s :
  forallb isSlugChar s = true -> removeClass isCombining s = s.
Proof.
  intros Hs. apply removeClass_fixed. eapply forallb_impl; [| exact Hs].
  intros c Hc'. rewrite (slugChar_not_combining c Hc'). reflexivity.
Qed.

Section WithBuiltins.
Context `{Builtins}.

Lemma slugify_tidy s :
  slugify s = tidy (removeClass isCombining (normalizeNFD (toLowerCase s))).
Proof. reflexivity. Qed.

Lemma headingBaseId_tidy text : headingBaseId text = tidy (toLowerCase text).
Proof. reflexivity. Qed.

(** C9: [slugify] is idempotent, [slugify(slugify(s))] is [slugify(s)]
    for every string [s], on every platform whose case conversion and
    NFD normalisation leave lower-case ASCII letters, digits and hyphens
    unchanged. *)
Theorem slugify_idempotent :
  fixesSlugs toLowerCase -> fixesSlugs normalizeNFD ->
  forall s, slugify (slugify s) = slugify s.
Proof.
  intros Hlow Hnfd s. rewrite (slugify_tidy s).
  destruct (tidy_shape (removeClass isCombining (normalizeNFD (toLowerCase s))))
    as [Hchars Hcol].
  rewrite slugify_tidy, (Hlow _ Hchars), (Hnfd _ Hchars).
  rewrite (removeCombining_fixed _ Hchars).
  apply tidy_fixed; assumption.
Qed.

End WithBuiltins.

Lemma sample_lower_fixes : fixesSlugs (List.map Sample.asciiLower).
Proof.
  intros s. induction s as [| c s IH]; simpl; [reflexivity |].
  intros Hs. apply andb_true_iff in Hs as [Hc Hs]. rewrite (IH Hs).
  f_equal. unfold Sample.asciiLower.
  destruct ((65 <=? c) && (c <=? 90)) eqn:Up; [| reflexivity].
  exfalso. classes.
Qed.

Lemma slugify_idempotent_witness :
  @slugify Sample.builtins (@slugify Sample.builtins (js "Hello,  World -- 2024!"))
  = @slugify Sample.builtins (js "Hello,  World -- 2024!").
Proof.
  apply (@slugify_idempotent Sample.builtins).
  - exact sample_lower_fixes.
  - intros s _. reflexivity.
Defined.

End SlugProps.

(** ** Sorting by a key, largest first *)

Module SortProps.
Import Lists SortSpec.

Section Generic.
Context {A : Type} (cmp : A -> A -> option Z).

Lemma insertSorted_perm a l : Permutation (insertSorted cmp a l) (a :: l).
Proof.
  induction l as [| b l IH]; simpl; [apply Permutation_refl |].
  destruct (before cmp a b); [apply Permutation_refl |].
  apply Permutation_trans with (b :: a :: l);
    [apply perm_skip; exact IH | apply perm_swap].
Qed.

Lemma sort_perm l : Permutation (sort cmp l) l.
Proof.
  induction l as [| a l IH]; simpl; [apply perm_nil |].
  apply Permutation_trans with (a :: sort cmp l);
    [apply insertSorted_perm | apply perm_skip; exact IH].
Qed.

End Generic.

(** Sorting commutes with a map that respects the comparators. *)
Lemma sort_map {A B : Type} (g : A -> B) (cmpA : A -> A -> option Z)
    (cmpB : B -> B -> option Z) :
  (forall a b, cmpB (g a) (g b) = cmpA a b) ->
  forall l, sort cmpB (List.map g l) = List.map g (sort cmpA l).
Proof.
  intros Hg. assert (Hins : forall a l,
    insertSorted cmpB (g a) (List.map g l) = List.map g (insertSorted cmpA a l)).
  { intros a l. induction l as [| b l IH]; simpl; [reflexivity |].
    unfold before. rewrite Hg.
    destruct (match cmpA a b with Some z => (z <=? 0)%Z | None => true end);
      simpl; [reflexivity | rewrite IH; reflexivity]. }
  induction l as [| a l IH]; simpl; [reflexivity |].
  rewrite IH. apply Hins.
Qed.

Section ByKey.
Context {A : Type} (key : A -> nat).

Lemma before_keyDesc a b : before (keyDesc key) a b = (key b <=? key a)%nat.
Proof.
  unfold before, keyDesc.
  destruct (Nat.leb_spec (key b) (key a)); [apply Z.leb_le | apply Z.leb_gt]; lia.
Qed.

Lemma insertSorted_sorted a l :
  StronglySorted (notBelow key) l ->
  StronglySorted (notBelow key) (insertSorted (keyDesc key) a l).
Proof.
  induction l as [| b l IH]; simpl; intros Hs.
  - constructor; [constructor | constructor].
  - rewrite before_keyDesc. destruct (Nat.leb_spec (key b) (key a)) as [Hle | Hgt].
    + constructor; [exact Hs |]. constructor; [exact Hle |].
      apply StronglySorted_inv in Hs as [_ Hall].
      eapply List.Forall_impl; [| exact Hall]. unfold notBelow. intros c Hc. lia.
    + apply StronglySorted_inv in Hs as [Hl Hall].
      constructor; [apply IH; exact Hl |].
      apply List.Forall_forall. intros c Hc.
      apply (Permutation_in _ (insertSorted_perm (keyDesc key) a l)) in Hc.
      destruct Hc as [<- | Hc]; [unfold notBelow; lia |].
      apply (proj1 (List.Forall_forall _ _) Hall). exact Hc.
Qed.

Lemma sort_sorted l : StronglySorted (notBelow key) (sort (keyDesc key) l).
Proof.
  induction l as [| a l IH]; simpl; [constructor |].
  apply insertSorted_sorted. exact IH.
Qed.

(** Stability: elements with equal keys keep their order. *)
Lemma insertSorted_stable k a l :
  List.filter (fun x => (key x =? k)%nat) (insertSorted (keyDesc key) a l) =
  List.filter (fun x => (key x =? k)%nat) (a :: l).
Proof.
  induction l as [| b l IH]; simpl; [reflexivity |].
  rewrite before_keyDesc. destruct (Nat.leb_spec (key b) (key a)) as [Hle | Hgt];
    [reflexivity |].
  simpl. rewrite IH. simpl.
  destruct (Nat.eqb_spec (key a) k) as [Ha | Ha];
    destruct (Nat.eqb_spec (key b) k) as [Hb | Hb]; try reflexivity.
  lia.
Qed.

Lemma sort_stable k l :
  List.filter (fun x => (key x =? k)%nat) (sort (keyDesc key) l) =
  List.filter (fun x => (key x =? k)%nat) l.
Proof.
  induction l as [| a l IH]; simpl; [reflexivity |].
  rewrite insertSorted_stable. simpl. rewrite IH. reflexivity.
Qed.

End ByKey.

(** The posts sorted by date are the posts, whatever their dates. *)
Lemma sortByDate_perm `{Builtins} (posts : list Post) :
  Permutation (Feeds.sortByDate posts) posts.
Proof.
  unfold Feeds.sortByDate.
  destruct (forallb _ posts); [apply sort_perm | apply sortUnordered_perm].
Qed.

End SortProps.

(** ** Related posts *)

Module RelatedProps.
Import Lists Related SortSpec RelatedSpec SortProps CacheProps.

Lemma arrayIncludes_In l x : arrayIncludes l x = true <-> In x l.
Proof.
  unfold arrayIncludes. rewrite existsb_exists. split.
  - intros [y [Hy E]]. apply streq_true in E. subst y. exact Hy.
  - intros Hx. exists x. split; [exact Hx | apply streq_refl].
Qed.

Lemma sharedTags_pos cur p :
  (0 <? sharedTags cur p)%nat = true <->
  exists tag, In tag (tags p) /\ In tag (tags cur).
Proof.
  unfold sharedTags. rewrite Nat.ltb_lt. split.
  - destruct (List.filter (arrayIncludes (tags cur)) (tags p)) as [| t r] eqn:E;
      simpl; [lia |]. intros _.
    assert (Ht : In t (List.filter (arrayIncludes (tags cur)) (tags p)))
      by (rewrite E; left; reflexivity).
    apply filter_In in Ht as [Ht1 Ht2]. exists t. split; [exact Ht1 |].
    apply arrayIncludes_In. exact Ht2.
  - intros [t [Ht1 Ht2]].
    assert (Ht : In t (List.filter (arrayIncludes (tags cur)) (tags p))).
    { apply filter_In. split; [exact Ht1 | apply arrayIncludes_In; exact Ht2]. }
    destruct (List.filter (arrayIncludes (tags cur)) (tags p));
      [destruct Ht | simpl; lia].
Qed.

Lemma streq_false (a b : jsstring) : streq a b = false <-> a <> b.
Proof. unfold streq. apply bool_decide_eq_false. Qed.

Lemma eligible_spec cur p :
  eligible cur p = true <->
  slug p <> slug cur /\ truthy (draft p) = false /\ slug p <> js "index" /\
  slug p <> js "about" /\ startsWith (slug p) (js "tags/") = false.
Proof.
  unfold eligible. rewrite !andb_true_iff, !negb_true_iff, !streq_false. tauto.
Qed.

Lemma sharedTags_no_tags cur p : tags cur = [] -> sharedTags cur p = 0%nat.
Proof.
  intros E. unfold sharedTags. rewrite E.
  induction (tags p) as [| t l IH]; simpl; [reflexivity | exact IH].
Qed.

Lemma related_no_tags cur all : tags cur = [] -> related cur all = [].
Proof.
  intros E. unfold related. induction all as [| p l IH]; simpl; [reflexivity |].
  rewrite (sharedTags_no_tags cur p E). simpl. rewrite andb_false_r. exact IH.
Qed.

Lemma filter_map_score (f : Post -> nat) (l : list Post) :
  List.filter (fun item : Post * nat => (0 <? snd item)%nat)
    (List.map (fun post => (post, f post)) l) =
  List.map (fun post => (post, f post)) (List.filter (fun p => (0 <? f p)%nat) l).
Proof.
  induction l as [| p l IH]; simpl; [reflexivity |].
  destruct (0 <? f p)%nat; simpl; rewrite IH; reflexivity.
Qed.

Lemma filter_filter_and (f g : Post -> bool) l :
  List.filter g (List.filter f l) = List.filter (fun p => f p && g p) l.
Proof.
  induction l as [| p l IH]; simpl; [reflexivity |].
  destruct (f p); simpl; [destruct (g p) |]; rewrite IH; reflexivity.
Qed.

(** The function as a ranking of the related posts. *)
Lemma findRelatedPosts_ranked cur all limit :
  findRelatedPosts cur all limit =
  firstn limit (sort (keyDesc (sharedTags cur)) (related cur all)).
Proof.
  unfold findRelatedPosts. destruct (tags cur) as [| t ts] eqn:E.
  - rewrite (related_no_tags cur all E). destruct limit; reflexivity.
  - unfold slice. rewrite Nat.sub_0_r. simpl skipn.
    rewrite filter_map_score, filter_filter_and.
    rewrite (sort_map (fun post => (post, sharedTags cur post))
               (keyDesc (sharedTags cur)) byScoreDesc) by reflexivity.
    rewrite List.skipn_O, List.firstn_map, List.map_map. simpl. apply List.map_id.
Qed.

(** The score the code computes is the number of tagged entries. *)
Lemma sharedTags_entries cur p : sharedTags cur p = taggedEntries cur p.
Proof.
  unfold sharedTags, taggedEntries. f_equal. apply List.filter_ext. intros t.
  destruct (arrayIncludes (tags cur) t) eqn:E; symmetry.
  - apply bool_decide_eq_true_2. apply list_elem_of_In. apply arrayIncludes_In.
    exact E.
  - apply bool_decide_eq_false_2. intros Hin. apply list_elem_of_In in Hin.
    apply arrayIncludes_In in Hin. congruence.
Qed.

(** On a tag list without repetition the tagged entries are the shared
    tags. *)
Lemma taggedEntries_shared cur p :
  List.NoDup (tags p) -> taggedEntries cur p = sharedTagCount cur p.
Proof.
  intros Hnd. unfold taggedEntries, sharedTagCount.
  apply Permutation_length. apply Permutation.NoDup_Permutation.
  - apply List.NoDup_filter. exact Hnd.
  - apply List.NoDup_filter. apply List.NoDup_nodup.
  - intros t. rewrite !filter_In, !bool_decide_eq_true, List.nodup_In,
      !list_elem_of_In. tauto.
Qed.

(** C6 as amended: [findRelatedPosts] returns the posts of the list
    other than the current one that are not drafts, whose slug is
    neither [index] nor [about] nor below [tags/], and that share a tag
    with it; ranked by
    the number of entries of their tag list that are tags of the current
    post, largest first, posts with equal numbers in their input order;
    cut to the limit.  For a post that lists no tag twice that number is
    the number of tags it shares with the current post.  For A tagged x
    and y, B tagged x and C tagged z the result for A is B alone. *)
Theorem findRelatedPosts_spec (cur : Post) (all : list Post) (limit : nat) :
  (forall p, In p (related cur all) <->
     In p all /\ slug p <> slug cur /\ truthy (draft p) = false /\
     slug p <> js "index" /\ slug p <> js "about" /\
     startsWith (slug p) (js "tags/") = false /\
     exists tag, In tag (tags p) /\ In tag (tags cur)) /\
  (exists ranked,
     findRelatedPosts cur all limit = firstn limit ranked /\
     Permutation ranked (related cur all) /\
     StronglySorted (fun a b => (taggedEntries cur b <= taggedEntries cur a)%nat)
       ranked /\
     forall k,
       List.filter (fun p => (taggedEntries cur p =? k)%nat) ranked =
       List.filter (fun p => (taggedEntries cur p =? k)%nat) (related cur all)) /\
  (forall p, List.NoDup (tags p) -> taggedEntries cur p = sharedTagCount cur p) /\
  findRelatedPosts postA [postA; postB; postC] defaultLimit = [postB].
Proof.
  split; [| split; [| split]].
  - intros p. unfold related. rewrite filter_In, andb_true_iff, eligible_spec,
      sharedTags_pos. tauto.
  - exists (sort (keyDesc (taggedEntries cur)) (related cur all)).
    split; [| split; [apply sort_perm |
                      split; [apply sort_sorted | intros k; apply sort_stable]]].
    rewrite findRelatedPosts_ranked. f_equal.
    rewrite <- (List.map_id (sort (keyDesc (taggedEntries cur)) (related cur all))).
    rewrite <- (List.map_id (related cur all)) at 1.
    apply sort_map. intros a b. unfold keyDesc.
    rewrite !sharedTags_entries. reflexivity.
  - intros p. apply taggedEntries_shared.
  - vm_compute. reflexivity.
Qed.

Lemma findRelatedPosts_spec_witness :
  taggedEntries postA postB = sharedTagCount postA postB /\
  findRelatedPosts postA [postA; postB; postC] defaultLimit = [postB].
Proof.
  split.
  - apply (proj1 (proj2 (proj2 (findRelatedPosts_spec postA [postA; postB; postC]
                                    defaultLimit)))).
    constructor; [intros [] | constructor].
  - apply (proj2 (proj2 (proj2 (findRelatedPosts_spec postA [postA; postB; postC]
                                    defaultLimit)))).
Defined.

(** C6 refuted as stated: the order is not by the number of shared
    tags.  A post that lists the one tag it shares twice scores as high
    as a post that shares two tags, and precedes it when it comes
    first. *)
Theorem repeated_tag_counts_twice :
  findRelatedPosts postA [postA; postD; postE] defaultLimit = [postD; postE] /\
  sharedTagCount postA postD = 1%nat /\ sharedTagCount postA postE = 2%nat /\
  findRelatedPosts postA [postA; postD; postE] 1 = [postD].
Proof. repeat split; vm_compute; reflexivity. Qed.

End RelatedProps.

(** ** Heading identifiers *)

Module HeadingProps.
Import Utils SlugSpec HeadingSpec SlugProps CacheProps RelatedProps.

(** *** Decimal numerals are injective *)

Lemma unjs_js (s : string) :
  string_of_list_ascii (List.map ascii_of_N (js s)) = s.
Proof.
  unfold js. rewrite List.map_map.
  rewrite (List.map_ext _ (fun a => a) ascii_N_embedding), List.map_id.
  apply string_of_list_ascii_of_string.
Qed.

Lemma N_to_uint_nonnil n : N.to_uint n <> Decimal.Nil.
Proof.
  destruct n as [| p]; simpl; [discriminate |].
  apply DecimalPos.Unsigned.to_uint_nonnil.
Qed.

Lemma readN_showN n : readN (showN n) = Some n.
Proof.
  unfold readN, showN. rewrite unjs_js.
  rewrite (NilZero.usu _ (N_to_uint_nonnil n)). simpl.
  rewrite DecimalN.Unsigned.of_to. reflexivity.
Qed.

Lemma showN_inj n m : showN n = showN m -> n = m.
Proof.
  intros E. pose proof (readN_showN n) as Hn. rewrite E, readN_showN in Hn.
  congruence.
Qed.

Lemma showN_not_NaN n : showN n <> js "NaN".
Proof.
  intros E. pose proof (readN_showN n) as Hn. rewrite E in Hn.
  vm_compute in Hn. discriminate.
Qed.

Lemma app_not_self (b s : jsstring) : s <> [] -> b ++ s <> b.
Proof.
  intros Hs E. apply Hs. apply (f_equal (@length N)) in E.
  rewrite length_app in E. destruct s; [reflexivity | simpl in E; lia].
Qed.

(** Different occurrences get different identifiers. *)
Lemma nthId_inj b k1 k2 :
  (1 <= k1)%nat -> (k1 < k2)%nat -> nthId b k1 <> nthId b k2.
Proof.
  intros H1 H2. unfold nthId.
  destruct (streq b constructorKey).
  - destruct k1 as [| [| [| k1]]]; [lia | | |];
      destruct k2 as [| [| [| k2]]]; try lia; simpl.
    + apply app_not_self. discriminate.
    + intros E. apply app_inv_head in E. injection E as E.
      apply (showN_not_NaN (N.of_nat (S (S k2)))). symmetry. exact E.
    + intros E. symmetry in E. revert E. apply app_not_self. discriminate.
    + intros E. apply app_inv_head in E. injection E as E.
      apply showN_inj in E. lia.
  - destruct k1 as [| [| k1]]; [lia | |];
      destruct k2 as [| [| k2]]; try lia.
    + intros E. symmetry in E. revert E. apply app_not_self. discriminate.
    + intros E. apply app_inv_head in E. injection E as E.
      apply showN_inj in E. lia.
Qed.

(** *** The counter object *)

(** Among the names every object inherits, only [constructor] is made
    of lower-case letters, digits and hyphens. *)
Lemma inherited_slug b :
  forallb isSlugChar b = true -> isInheritedKey b = streq b constructorKey.
Proof.
  intros Hb. unfold isInheritedKey, objectPrototypeKeys. simpl.
  repeat match goal with
         | |- context [streq b (js ?k)] =>
             lazymatch k with
             | "constructor"%string => fail
             | _ =>
                 let E := fresh "E" in
                 destruct (streq b (js k)) eqn:E;
                 [apply streq_true in E; subst b; vm_compute in Hb; discriminate |]
             end
         end.
  simpl. rewrite orb_false_r. reflexivity.
Qed.

Lemma tracks_empty : tracks ∅ (fun _ => 0%nat).
Proof. intros b. apply lookup_empty. Qed.

Lemma tracks_insert counter cnt b v :
  tracks counter cnt ->
  counterAfter b (S (cnt b)) = Some v ->
  tracks (<[b := v]> counter) (bump cnt b).
Proof.
  intros Ht Hv x. unfold bump. destruct (streq x b) eqn:E.
  - apply streq_true in E. subst x. rewrite lookup_insert_eq. symmetry. exact Hv.
  - apply streq_false in E. rewrite lookup_insert_ne by congruence. apply Ht.
Qed.

Lemma assignId_spec counter cnt b :
  forallb isSlugChar b = true ->
  tracks counter cnt ->
  exists counter',
    assignId counter b = (nthId b (S (cnt b)), counter') /\
    tracks counter' (bump cnt b).
Proof.
  intros Hb Ht. unfold assignId, objGet. rewrite (Ht b), (inherited_slug b Hb).
  unfold nthId, counterAfter.
  destruct (cnt b) as [| k] eqn:Ek; destruct (streq b constructorKey) eqn:Ec; simpl.
  - eexists. split; [reflexivity |]. apply tracks_insert; [exact Ht |].
    rewrite Ek. simpl. rewrite Ec. reflexivity.
  - eexists. split; [reflexivity |]. apply tracks_insert; [exact Ht |].
    rewrite Ek. simpl. rewrite Ec. reflexivity.
  - destruct k as [| k]; simpl.
    + eexists. split; [reflexivity |]. apply tracks_insert; [exact Ht |].
      rewrite Ek. simpl. rewrite Ec. reflexivity.
    + eexists. split.
      * replace (N.pos (Pos.of_succ_nat k + 1)) with (N.of_nat (S (S k))) by lia.
        reflexivity.
      * apply tracks_insert; [exact Ht |]. rewrite Ek. simpl. rewrite Ec.
        f_equal. f_equal. lia.
  - eexists. split.
    + replace (N.pos (Pos.of_succ_nat k + 1)) with (N.of_nat (S (S k))) by lia.
      reflexivity.
    + apply tracks_insert; [exact Ht |]. rewrite Ek. simpl. rewrite Ec.
      f_equal. f_equal. lia.
Qed.

Lemma occurrences_cons b x l :
  occurrences b (x :: l) = ((if streq b x then 1 else 0) + occurrences b l)%nat.
Proof. unfold occurrences. simpl. destruct (streq b x); reflexivity. Qed.

Lemma occurrences_app b l1 l2 :
  occurrences b (l1 ++ l2) = (occurrences b l1 + occurrences b l2)%nat.
Proof. unfold occurrences. rewrite List.filter_app, length_app. reflexivity. Qed.

Lemma occurrences_take_le b (l : list jsstring) n m :
  (n <= m)%nat -> (occurrences b (take n l) <= occurrences b (take m l))%nat.
Proof.
  intros Hnm. rewrite <- (take_drop n (take m l)).
  rewrite take_take, Nat.min_l by exact Hnm.
  rewrite occurrences_app. lia.
Qed.

Lemma occurrences_take_S b (l : list jsstring) i :
  l !! i = Some b ->
  occurrences b (take (S i) l) = S (occurrences b (take i l)).
Proof.
  intros Hi. rewrite (take_S_r l i b Hi), occurrences_app, occurrences_cons.
  rewrite streq_refl. change (occurrences b []) with 0%nat. lia.
Qed.

Section WithBuiltins.
Context `{Builtins}.

Lemma headingBaseId_chars text : forallb isSlugChar (headingBaseId text) = true.
Proof. rewrite headingBaseId_tidy. apply tidy_shape. Qed.

Lemma headingIds_specIds segs counter cnt :
  tracks counter cnt -> headingIds segs counter = specIds segs cnt.
Proof.
  revert counter cnt. induction segs as [| [c | level text] segs IH];
    intros counter cnt Ht; simpl; [reflexivity | apply IH; exact Ht |].
  destruct (assignId_spec counter cnt (headingBaseId text)
              (headingBaseId_chars text) Ht) as [counter' [E Ht']].
  rewrite E. f_equal. apply IH. exact Ht'.
Qed.

Lemma renderSegments_renderWith segs counter :
  renderSegments segs counter =
  renderWith segs (List.map snd (headingIds segs counter)).
Proof.
  revert counter. induction segs as [| [c | level text] segs IH];
    intros counter; simpl; [reflexivity | rewrite IH; reflexivity |].
  destruct (assignId counter (headingBaseId text)) as [id counter'].
  simpl. rewrite IH. reflexivity.
Qed.

Lemma specIds_lookup segs cnt i text id :
  specIds segs cnt !! i = Some (text, id) ->
  id = nthId (headingBaseId text)
         (cnt (headingBaseId text) +
          occurrences (headingBaseId text)
            (take (S i) (List.map baseOf (specIds segs cnt)))).
Proof.
  revert cnt i. induction segs as [| [c | level t] segs IH]; intros cnt i;
    simpl; [rewrite lookup_nil; discriminate | apply IH |].
  destruct i as [| i]; simpl.
  - intros [= -> <-]. rewrite take_0, occurrences_cons, streq_refl.
    unfold occurrences. simpl. f_equal. lia.
  - intros Hi. rewrite (IH _ _ Hi). f_equal.
    rewrite occurrences_cons. unfold baseOf at 2. simpl. unfold bump.
    destruct (streq (headingBaseId text) (headingBaseId t)); lia.
Qed.

Lemma lookup_base (hs : list (jsstring * jsstring)) i text id :
  hs !! i = Some (text, id) ->
  List.map baseOf hs !! i = Some (headingBaseId text).
Proof.
  intros Hi. change (List.map baseOf hs) with (baseOf <$> hs).
  rewrite list_lookup_fmap, Hi. reflexivity.
Qed.

End WithBuiltins.

(** C5 as amended: [addHeadingIds] is a function of its input; the
    identifier of a heading derives from its lower-cased text by
    deleting every character other than a lower-case letter, a digit,
    whitespace or a hyphen and turning each run of whitespace, then each
    run of hyphens, into one hyphen; the first heading with a given
    derived identifier keeps it and the k-th gets [-k] appended (for
    every derived identifier other than [constructor]); two headings
    with the same derived identifier, in particular with identical
    text, never receive the same identifier.  Two headings [foo] get
    [foo] and [foo-2]. *)
Theorem heading_ids_spec :
  (forall (B : Builtins) (html : jsstring),
     let hs := headingIds (scanHeadings html 0%nat) ∅ in
     addHeadingIds html = renderWith (scanHeadings html 0%nat) (List.map snd hs) /\
     (forall html', html' = html -> addHeadingIds html' = addHeadingIds html) /\
     (forall text, headingBaseId text = tidy (toLowerCase text)) /\
     (forall i text id,
        hs !! i = Some (text, id) ->
        headingBaseId text <> js "constructor" ->
        let k := occurrences (headingBaseId text)
                   (take (S i) (List.map baseOf hs)) in
        id = if (k =? 1)%nat then headingBaseId text
             else headingBaseId text ++ js "-" ++ showN (N.of_nat k)) /\
     (forall i j ti tj idi idj,
        (i < j)%nat ->
        hs !! i = Some (ti, idi) -> hs !! j = Some (tj, idj) ->
        headingBaseId ti = headingBaseId tj -> idi <> idj)) /\
  @addHeadingIds Sample.builtins (js "<h2>foo</h2><h3>foo</h3>") =
  js "<h2 id=" ++ dq ++ js "foo" ++ dq ++ js ">foo</h2><h3 id=" ++ dq ++
  js "foo-2" ++ dq ++ js ">foo</h3>".
Proof.
  split; [| vm_compute; reflexivity].
  intros B html hs.
  assert (Hspec : hs = specIds (scanHeadings html 0%nat) (fun _ => 0%nat))
    by (apply headingIds_specIds, tracks_empty).
  split; [apply renderSegments_renderWith |].
  split; [intros html' ->; reflexivity |].
  split; [intros text; reflexivity |].
  split.
  - intros i text id Hi Hc k. rewrite Hspec in Hi.
    pose proof (specIds_lookup _ _ _ _ _ Hi) as Hid. rewrite <- Hspec in Hid, Hi.
    simpl in Hid. fold k in Hid. rewrite Hid. unfold nthId.
    assert (Hk : (1 <= k)%nat).
    { subst k. rewrite (occurrences_take_S _ _ _ (lookup_base hs i text id Hi)). lia. }
    destruct (streq (headingBaseId text) constructorKey) eqn:Ec;
      [apply streq_true in Ec; contradiction |].
    destruct k as [| [| k]]; [lia | reflexivity | reflexivity].
  - intros i j ti tj idi idj Hij Hi Hj Hb.
    pose proof Hi as Hi'. pose proof Hj as Hj'. rewrite Hspec in Hi', Hj'.
    apply specIds_lookup in Hi', Hj'. rewrite <- Hspec in Hi', Hj'.
    simpl in Hi', Hj'. rewrite Hi', Hj', <- Hb. apply nthId_inj.
    + rewrite (occurrences_take_S _ _ _ (lookup_base hs i ti idi Hi)). lia.
    + rewrite (occurrences_take_S _ _ _ (lookup_base hs i ti idi Hi)).
      pose proof (lookup_base hs j tj idj Hj) as Hbj. rewrite <- Hb in Hbj.
      rewrite (occurrences_take_S _ _ _ Hbj).
      pose proof (occurrences_take_le (headingBaseId ti) (List.map baseOf hs)
                    (S i) j ltac:(lia)) as Hle.
      rewrite (occurrences_take_S _ _ _ (lookup_base hs i ti idi Hi)) in Hle. lia.
Qed.

(** C5 refuted as stated: a character that is not alphanumeric is not
    collapsed to a hyphen but deleted.  The heading [a.b] gets the
    identifier [ab], where collapsing to hyphens gives [a-b]. *)
Lemma heading_punctuation_deleted :
  @headingIds Sample.builtins (scanHeadings (js "<h2>a.b</h2>") 0%nat) ∅ =
    [(js "a.b", js "ab")] /\
  collapseToHyphens (@toLowerCase Sample.builtins (js "a.b")) = js "a-b" /\
  js "ab" <> js "a-b".
Proof. vm_compute. repeat split. discriminate. Qed.

End HeadingProps.

(** ** The template renderer *)

Module TemplateProps.
Import Template.

(** C7, the code at the failing input: the title [Save $$5 today] is a
    key of the mapping, and its placeholder is not replaced with the
    value but with [Save $5 today], because the value is used as a
    replacement pattern in which two dollar signs stand for one.  The
    same happens when a value holds a later key's placeholder: it is
    substituted again. *)
Theorem renderTemplate_dollar :
  renderTemplate (js "<h1>{{title}}</h1>")
    [(js "title", TStr (js "Save $$5 today"))]
  = js "<h1>Save $5 today</h1>" /\
  js "<h1>Save $5 today</h1>" <> js "<h1>Save $$5 today</h1>" /\
  renderTemplate (js "<p>{{content}}</p>")
    [(js "content", TStr (js "write {{toc}} here")); (js "toc", TStr (js "<nav/>"))]
  = js "<p>write <nav/> here</p>".
Proof. vm_compute. repeat split. discriminate. Qed.

End TemplateProps.

(** ** Paths stay below the directory they are joined to *)

Module PathProps.
Import Path PathSpec CacheProps RelatedProps.

Lemma splitSlash_nonnil s : splitSlash s <> [].
Proof.
  destruct s as [| c s]; simpl; [discriminate |].
  destruct (c =? 47); [discriminate |]. destruct (splitSlash s); discriminate.
Qed.

Lemma splitSlash_app a b :
  splitSlash (a ++ 47 :: b) = splitSlash a ++ splitSlash b.
Proof.
  induction a as [| c a IH]; simpl; [reflexivity |].
  destruct (c =? 47); [rewrite IH; reflexivity |].
  rewrite IH. pose proof (splitSlash_nonnil a) as Ha.
  destruct (splitSlash a); [contradiction | reflexivity].
Qed.

Lemma splitSlash_slashFree s : forallb slashFree (splitSlash s) = true.
Proof.
  induction s as [| c s IH]; simpl; [reflexivity |].
  destruct (c =? 47) eqn:E; simpl; [exact IH |].
  pose proof (splitSlash_nonnil s) as Hs.
  destruct (splitSlash s) as [| w ws]; [contradiction |].
  simpl in *. rewrite E. simpl. exact IH.
Qed.

Lemma splitSlash_of_slashFree s : slashFree s = true -> splitSlash s = [s].
Proof.
  induction s as [| c s IH]; simpl; [reflexivity |].
  intros Hs. apply andb_true_iff in Hs as [Hc Hs].
  apply negb_true_iff in Hc. rewrite Hc, (IH Hs). reflexivity.
Qed.

Lemma segments_app a b : segments (a ++ 47 :: b) = segments a ++ segments b.
Proof. unfold segments. rewrite splitSlash_app, List.filter_app. reflexivity. Qed.

Lemma segments_app' a b : segments (a ++ [47] ++ b) = segments a ++ segments b.
Proof. exact (segments_app a b). Qed.

Lemma segments_nil : segments [] = [].
Proof. reflexivity. Qed.

Lemma segments_slash p : segments (47 :: p) = segments p.
Proof. apply (segments_app [] p). Qed.

Lemma segments_trailing p : segments (p ++ [47]) = segments p.
Proof. rewrite segments_app, segments_nil. apply app_nil_r. Qed.

(** Empty segments do not matter to the normalisation. *)
Lemma normStep_empty allow kept : normStep allow kept [] = kept.
Proof. reflexivity. Qed.

Lemma fold_normStep_segments allow l kept :
  fold_left (normStep allow) l kept =
  fold_left (normStep allow) (List.filter (fun s => negb (streq s [])) l) kept.
Proof.
  revert kept. induction l as [| s l IH]; intros kept; simpl; [reflexivity |].
  destruct (streq s []) eqn:E; simpl.
  - apply streq_true in E. subst s. rewrite normStep_empty. apply IH.
  - apply IH.
Qed.

Lemma normSegments_split allow p :
  normSegments allow (splitSlash p) = normSegments allow (segments p).
Proof. unfold normSegments, segments. rewrite fold_normStep_segments. reflexivity. Qed.

(** Segments without [..] are pushed or skipped, never popped. *)
Lemma fold_normStep_names allow l kept :
  forallb (fun s => negb (streq s dotdot)) l = true ->
  fold_left (normStep allow) l kept = rev (List.filter isKept l) ++ kept.
Proof.
  revert kept. induction l as [| s l IH]; intros kept; simpl; [reflexivity |].
  intros Hl. apply andb_true_iff in Hl as [Hs Hl]. rewrite (IH _ Hl).
  unfold normStep, isKept. apply negb_true_iff in Hs. rewrite Hs.
  destruct (streq s [] || streq s dot) eqn:E.
  - rewrite <- negb_orb, E. reflexivity.
  - rewrite <- negb_orb, E. simpl. rewrite <- app_assoc. reflexivity.
Qed.

Lemma normSegments_app_names allow l1 l2 :
  forallb (fun s => negb (streq s dotdot)) l2 = true ->
  normSegments allow (l1 ++ l2) = normSegments allow l1 ++ List.filter isKept l2.
Proof.
  intros Hl. unfold normSegments. rewrite fold_left_app, (fold_normStep_names _ _ _ Hl).
  rewrite rev_app_distr, rev_involutive. reflexivity.
Qed.

(** What the stack of a normalisation holds. *)
Lemma normStep_kept allow kept seg :
  forallb isKept kept = true -> forallb isKept (normStep allow kept seg) = true.
Proof.
  intros Hk. unfold normStep.
  destruct (streq seg [] || streq seg dot) eqn:E; [exact Hk |].
  destruct (streq seg dotdot) eqn:Ed.
  - apply streq_true in Ed. subst seg.
    destruct kept as [| last kept']; [destruct allow; reflexivity |].
    simpl in Hk. apply andb_true_iff in Hk as [H1 H2].
    destruct (streq last dotdot); [destruct allow |]; simpl;
      rewrite ?H1, ?H2; reflexivity.
  - simpl. unfold isKept at 1. rewrite <- negb_orb, E. exact Hk.
Qed.

Lemma fold_normStep_kept allow l kept :
  forallb isKept kept = true ->
  forallb isKept (fold_left (normStep allow) l kept) = true.
Proof.
  revert kept. induction l as [| s l IH]; intros kept Hk; simpl; [exact Hk |].
  apply IH, normStep_kept, Hk.
Qed.

Lemma normStep_absolute_names kept seg :
  forallb isName kept = true -> forallb isName (normStep false kept seg) = true.
Proof.
  intros Hk. unfold normStep.
  destruct (streq seg [] || streq seg dot) eqn:E; [exact Hk |].
  destruct (streq seg dotdot) eqn:Ed.
  - destruct kept as [| last kept']; [reflexivity |].
    simpl in Hk. apply andb_true_iff in Hk as [H1 H2].
    destruct (streq last dotdot); [simpl; rewrite H1, H2; reflexivity | exact H2].
  - simpl. rewrite Hk. unfold isName. rewrite <- negb_orb, E, Ed. reflexivity.
Qed.

Lemma fold_normStep_absolute_names l kept :
  forallb isName kept = true ->
  forallb isName (fold_left (normStep false) l kept) = true.
Proof.
  revert kept. induction l as [| s l IH]; intros kept Hk; simpl; [exact Hk |].
  apply IH, normStep_absolute_names, Hk.
Qed.

Lemma normStep_slashFree allow kept seg :
  slashFree seg = true -> forallb slashFree kept = true ->
  forallb slashFree (normStep allow kept seg) = true.
Proof.
  intros Hs Hk. unfold normStep.
  destruct (streq seg [] || streq seg dot); [exact Hk |].
  destruct (streq seg dotdot) eqn:Ed.
  - destruct kept as [| last kept']; [destruct allow; reflexivity |].
    simpl in Hk. apply andb_true_iff in Hk as [H1 H2].
    destruct (streq last dotdot); [destruct allow |]; simpl;
      rewrite ?H1, ?H2; reflexivity.
  - simpl. rewrite Hs, Hk. reflexivity.
Qed.

Lemma fold_normStep_slashFree allow l kept :
  forallb slashFree l = true -> forallb slashFree kept = true ->
  forallb slashFree (fold_left (normStep allow) l kept) = true.
Proof.
  revert kept. induction l as [| s l IH]; intros kept Hl Hk; simpl; [exact Hk |].
  simpl in Hl. apply andb_true_iff in Hl as [Hs Hl].
  apply IH; [exact Hl | apply normStep_slashFree; assumption].
Qed.

Lemma forallb_impl_gen {A : Type} (f g : A -> bool) l :
  (forall x, f x = true -> g x = true) ->
  forallb f l = true -> forallb g l = true.
Proof.
  intros Hfg. induction l as [| x l IH]; simpl; [reflexivity |].
  intros Hl. apply andb_true_iff in Hl as [Hx Hl].
  rewrite (Hfg x Hx), (IH Hl). reflexivity.
Qed.

Lemma forallb_names l : forallb isName (normSegments false l) = true.
Proof.
  unfold normSegments. apply forallb_forall. intros x Hx. apply in_rev in Hx.
  apply (proj1 (forallb_forall _ _) (fold_normStep_absolute_names l [] eq_refl)).
  exact Hx.
Qed.

Lemma isKept_nonempty seg : isKept seg = true -> streq seg [] = false.
Proof.
  unfold isKept. intros Hk. apply andb_true_iff in Hk as [Hk _].
  apply negb_true_iff. exact Hk.
Qed.

(** Joining segments and splitting again gives the segments back. *)
Lemma segments_joinSlash l :
  forallb isKept l = true -> forallb slashFree l = true ->
  segments (joinSlash l) = l.
Proof.
  induction l as [| x l IH]; [reflexivity |].
  intros Hk Hs. simpl in Hk, Hs.
  apply andb_true_iff in Hk as [Hx Hk]. apply andb_true_iff in Hs as [Sx Hs].
  assert (Ex : segments x = [x]).
  { unfold segments. rewrite (splitSlash_of_slashFree x Sx). simpl.
    rewrite (isKept_nonempty x Hx). reflexivity. }
  destruct l as [| y l]; [exact Ex |].
  change (joinSlash (x :: y :: l)) with (x ++ 47 :: joinSlash (y :: l)).
  rewrite segments_app, Ex, (IH Hk Hs). reflexivity.
Qed.

Lemma segments_normalizeString p allow :
  segments (normalizeString p allow) = normSegments allow (segments p).
Proof.
  unfold normalizeString. rewrite normSegments_split.
  apply segments_joinSlash; unfold normSegments.
  - apply forallb_forall. intros x Hx. apply in_rev in Hx.
    apply (proj1 (forallb_forall _ _)
             (fold_normStep_kept allow (segments p) [] eq_refl)). exact Hx.
  - apply forallb_forall. intros x Hx. apply in_rev in Hx.
    assert (Hp : forallb slashFree (segments p) = true).
    { apply forallb_forall. intros y Hy. unfold segments in Hy.
      apply filter_In in Hy as [Hy _].
      apply (proj1 (forallb_forall _ _) (splitSlash_slashFree p)). exact Hy. }
    apply (proj1 (forallb_forall _ _)
             (fold_normStep_slashFree allow (segments p) [] Hp eq_refl)). exact Hx.
Qed.

Lemma isAbsolute_nonempty p : isAbsolute p = true -> p <> [].
Proof. destruct p; [discriminate | discriminate]. Qed.

Lemma segments_resolve cwd p :
  isAbsolute cwd = true ->
  segments (resolve cwd p) = normSegments false (absSegments cwd p).
Proof.
  intros Hcwd. unfold resolve, absSegments.
  destruct (isAbsolute p) eqn:Hp.
  - destruct p as [| c p]; [discriminate |].
    change ([47] ++ ?x) with (47 :: x).
    rewrite segments_slash, segments_normalizeString, segments_trailing.
    reflexivity.
  - rewrite Hcwd. destruct cwd as [| c cwd]; [discriminate |].
    change ([47] ++ ?x) with (47 :: x).
    rewrite segments_slash, segments_normalizeString.
    rewrite (segments_app' (c :: cwd)). destruct p as [| d p]; [reflexivity |].
    rewrite segments_trailing. reflexivity.
Qed.

(** Normalising a relative path first changes nothing for the
    directory it is then resolved in. *)
Lemma normStep_push kept seg allow :
  isKept seg = true -> streq seg dotdot = false ->
  normStep allow kept seg = seg :: kept.
Proof.
  intros Hk Hd. unfold normStep. unfold isKept in Hk.
  rewrite <- negb_orb in Hk. apply negb_true_iff in Hk. rewrite Hk, Hd.
  reflexivity.
Qed.

Lemma relative_then_absolute_step rel seg st :
  forallb isKept rel = true ->
  fold_left (normStep false) (rev (normStep true rel seg)) st =
  normStep false (fold_left (normStep false) (rev rel) st) seg.
Proof.
  intros Hrel. unfold normStep at 2.
  destruct (streq seg [] || streq seg dot) eqn:E.
  - unfold normStep at 2. rewrite E. reflexivity.
  - destruct (streq seg dotdot) eqn:Ed.
    + apply streq_true in Ed. subst seg.
      destruct rel as [| last rel'].
      * reflexivity.
      * destruct (streq last dotdot) eqn:El.
        -- simpl rev. rewrite !fold_left_app. reflexivity.
        -- simpl in Hrel. apply andb_true_iff in Hrel as [Hl _].
           simpl rev. rewrite fold_left_app. simpl.
           rewrite (normStep_push _ last false Hl El).
           unfold normStep. simpl. rewrite El. reflexivity.
    + simpl rev. rewrite fold_left_app. reflexivity.
Qed.

Lemma relative_then_absolute l rel st :
  forallb isKept rel = true ->
  fold_left (normStep false) (rev (fold_left (normStep true) l rel)) st =
  fold_left (normStep false) l (fold_left (normStep false) (rev rel) st).
Proof.
  revert rel. induction l as [| seg l IH]; intros rel Hrel; simpl; [reflexivity |].
  rewrite (IH _ (normStep_kept true rel seg Hrel)).
  rewrite relative_then_absolute_step by exact Hrel. reflexivity.
Qed.

Lemma normSegments_relative_absorbed base l :
  normSegments false (base ++ normSegments true l) = normSegments false (base ++ l).
Proof.
  unfold normSegments. rewrite !fold_left_app. f_equal.
  rewrite (relative_then_absolute l [] _ eq_refl). reflexivity.
Qed.

(** An absolute normal form is its own normal form. *)
Lemma normSegments_absolute_idem l :
  normSegments false (normSegments false l) = normSegments false l.
Proof.
  unfold normSegments at 1.
  rewrite fold_normStep_names.
  - rewrite app_nil_r, rev_involutive.
    apply forallb_filter_id. eapply forallb_impl_gen; [| apply forallb_names].
    intros x. unfold isName, isKept. destruct (streq x []), (streq x dot); auto.
  - eapply forallb_impl_gen; [| apply forallb_names].
    intros x. unfold isName. intros Hx. apply andb_true_iff in Hx as [_ Hx]. exact Hx.
Qed.

Lemma joinSlash_head l c q :
  forallb isKept l = true -> forallb slashFree l = true ->
  joinSlash l = c :: q -> (c =? 47) = false.
Proof.
  destruct l as [| x l]; [discriminate |]. simpl forallb.
  intros Hk Hs. apply andb_true_iff in Hk as [Hx _].
  apply andb_true_iff in Hs as [Sx _].
  destruct x as [| d x]; [discriminate |].
  simpl in Sx. apply andb_true_iff in Sx as [Sd _]. apply negb_true_iff in Sd.
  destruct l; simpl; intros [= <- _]; exact Sd.
Qed.

Lemma normalizeString_head p allow c q :
  normalizeString p allow = c :: q -> (c =? 47) = false.
Proof.
  unfold normalizeString. rewrite normSegments_split. apply joinSlash_head;
    unfold normSegments; apply forallb_forall; intros x Hx; apply in_rev in Hx.
  - apply (proj1 (forallb_forall _ _)
             (fold_normStep_kept allow (segments p) [] eq_refl)). exact Hx.
  - assert (Hp : forallb slashFree (segments p) = true).
    { apply forallb_forall. intros y Hy. unfold segments in Hy.
      apply filter_In in Hy as [Hy _].
      apply (proj1 (forallb_forall _ _) (splitSlash_slashFree p)). exact Hy. }
    apply (proj1 (forallb_forall _ _)
             (fold_normStep_slashFree allow (segments p) [] Hp eq_refl)). exact Hx.
Qed.

Lemma normalize_nonempty p : normalize p <> [].
Proof.
  unfold normalize. destruct p as [| c p]; [discriminate |].
  destruct (normalizeString (c :: p) (negb (isAbsolute (c :: p)))).
  - destruct (isAbsolute (c :: p)); [discriminate |].
    destruct (endsWithSlash (c :: p)); discriminate.
  - destruct (isAbsolute (c :: p)); discriminate.
Qed.

Lemma join_nonempty a b : join a b <> [].
Proof.
  unfold join. destruct a, b; try discriminate; apply normalize_nonempty.
Qed.

Lemma isAbsolute_normalize p : p <> [] -> isAbsolute (normalize p) = isAbsolute p.
Proof.
  intros Hp. unfold normalize. destruct p as [| c p]; [contradiction |].
  destruct (normalizeString (c :: p) (negb (isAbsolute (c :: p)))) as [| d q] eqn:E.
  - destruct (isAbsolute (c :: p)); [reflexivity |].
    destruct (endsWithSlash (c :: p)); reflexivity.
  - destruct (isAbsolute (c :: p)); [reflexivity |].
    pose proof (normalizeString_head _ _ _ _ E) as Hd. apply N.eqb_neq in Hd.
    simpl. destruct d as [| d]; [reflexivity |].
    repeat (destruct d as [d | d |]; try reflexivity). contradiction.
Qed.

Lemma normSegments_skip_dot base :
  normSegments false (base ++ [dot]) = normSegments false base.
Proof.
  rewrite normSegments_app_names by reflexivity. apply app_nil_r.
Qed.

(** Resolving a normalised path is resolving the path. *)
Lemma resolve_normalize cwd p :
  isAbsolute cwd = true -> p <> [] ->
  segments (resolve cwd (normalize p)) = segments (resolve cwd p).
Proof.
  intros Hcwd Hp. rewrite !segments_resolve by exact Hcwd.
  unfold absSegments. rewrite (isAbsolute_normalize p Hp).
  unfold normalize. destruct p as [| c p]; [contradiction |].
  pose proof (segments_normalizeString (c :: p) (negb (isAbsolute (c :: p)))) as Hn.
  destruct (normalizeString (c :: p) (negb (isAbsolute (c :: p)))) as [| d q] eqn:E.
  - destruct (isAbsolute (c :: p)) eqn:Ha; simpl negb in Hn.
    + change (segments [47]) with (@nil jsstring).
      rewrite <- Hn. reflexivity.
    + rewrite <- (normSegments_relative_absorbed _ (segments (c :: p))), <- Hn.
      change (segments []) with (@nil jsstring). rewrite app_nil_r.
      destruct (endsWithSlash (c :: p)); apply normSegments_skip_dot.
  - destruct (isAbsolute (c :: p)) eqn:Ha; simpl negb in Hn.
    + assert (Hs : segments ([47] ++ (d :: q) ++
                    (if endsWithSlash (c :: p) then [47] else [])) = segments (d :: q)).
      { change ([47] ++ ?x) with (47 :: x). rewrite segments_slash.
        destruct (endsWithSlash (c :: p)); [apply segments_trailing |].
        rewrite app_nil_r. reflexivity. }
      rewrite Hs, Hn. apply normSegments_absolute_idem.
    + assert (Hs : segments ([] ++ (d :: q) ++
                    (if endsWithSlash (c :: p) then [47] else [])) = segments (d :: q)).
      { simpl app. destruct (endsWithSlash (c :: p)).
        - apply (segments_trailing (d :: q)).
        - rewrite app_nil_r. reflexivity. }
      rewrite Hs, Hn. apply normSegments_relative_absorbed.
Qed.

Lemma isAbsolute_app a b : a <> [] -> isAbsolute (a ++ b) = isAbsolute a.
Proof. destruct a; [contradiction | reflexivity]. Qed.

Lemma resolve_join cwd a b :
  isAbsolute cwd = true -> a <> [] ->
  segments (resolve cwd (join a b)) =
  normSegments false (absSegments cwd a ++ segments b).
Proof.
  intros Hcwd Ha. unfold join. destruct a as [| c a]; [contradiction |].
  destruct b as [| d b].
  - rewrite (resolve_normalize cwd (c :: a) Hcwd Ha), segments_resolve by exact Hcwd.
    rewrite segments_nil, app_nil_r. reflexivity.
  - rewrite resolve_normalize by (exact Hcwd || discriminate).
    rewrite segments_resolve by exact Hcwd. unfold absSegments.
    rewrite (isAbsolute_app (c :: a)) by discriminate.
    rewrite (segments_app' (c :: a)).
    destruct (isAbsolute (c :: a)); [reflexivity | rewrite app_assoc; reflexivity].
Qed.

(** Every segment of a path occurs in it. *)
Lemma splitSlash_head_prefix s :
  match splitSlash s with
  | w :: _ => startsWith s w = true
  | [] => False
  end.
Proof.
  induction s as [| c s IH]; simpl; [reflexivity |].
  destruct (c =? 47); [reflexivity |].
  destruct (splitSlash s) as [| w ws]; [contradiction |].
  simpl. rewrite N.eqb_refl. exact IH.
Qed.

Lemma startsWith_nil s : startsWith s [] = true.
Proof. destruct s; reflexivity. Qed.

Lemma includes_tail c s needle : includes s needle = true -> includes (c :: s) needle = true.
Proof. intros Hi. simpl. rewrite Hi. apply orb_true_r. Qed.

Lemma includes_startsWith s needle : startsWith s needle = true -> includes s needle = true.
Proof. intros Hs. destruct s; simpl in *; rewrite Hs; reflexivity. Qed.

Lemma segment_included s seg : In seg (splitSlash s) -> includes s seg = true.
Proof.
  induction s as [| c s IH]; simpl.
  - intros [<- | []]. reflexivity.
  - destruct (c =? 47) eqn:E.
    + intros [<- | Hin]; [reflexivity |]. rewrite (IH Hin). apply orb_true_r.
    + pose proof (splitSlash_head_prefix s) as Hh.
      destruct (splitSlash s) as [| w ws]; [contradiction |].
      intros [<- | Hin].
      * simpl. rewrite N.eqb_refl, Hh. reflexivity.
      * rewrite (IH (or_intror Hin)). apply orb_true_r.
Qed.

Lemma no_dotdot_segments s :
  includes s dotdot = false ->
  forallb (fun seg => negb (streq seg dotdot)) (segments s) = true.
Proof.
  intros Hs. apply forallb_forall. intros seg Hseg.
  unfold segments in Hseg. apply filter_In in Hseg as [Hseg _].
  apply negb_true_iff. destruct (streq seg dotdot) eqn:E; [| reflexivity].
  apply streq_true in E. subst seg.
  rewrite (segment_included s dotdot Hseg) in Hs. discriminate.
Qed.

(** A path joined to a directory, free of [..], resolves below it. *)
Lemma join_inside cwd root rel :
  isAbsolute cwd = true -> root <> [] ->
  includes rel dotdot = false ->
  inside cwd root (join root rel).
Proof.
  intros Hcwd Hroot Hrel. unfold inside.
  rewrite (resolve_join cwd root rel Hcwd Hroot).
  rewrite normSegments_app_names by (apply no_dotdot_segments; exact Hrel).
  rewrite segments_resolve by exact Hcwd.
  eexists. reflexivity.
Qed.

Lemma isAbsolute_resolve cwd p : isAbsolute cwd = true -> isAbsolute (resolve cwd p) = true.
Proof.
  intros Hcwd. unfold resolve. rewrite Hcwd.
  destruct (isAbsolute p); reflexivity.
Qed.

Lemma resolve_idem cwd p :
  isAbsolute cwd = true ->
  segments (resolve cwd (resolve cwd p)) = segments (resolve cwd p).
Proof.
  intros Hcwd. rewrite (segments_resolve cwd (resolve cwd p) Hcwd).
  unfold absSegments. rewrite (isAbsolute_resolve cwd p Hcwd).
  rewrite (segments_resolve cwd p Hcwd). apply normSegments_absolute_idem.
Qed.

Lemma resolved_inside cwd root p :
  isAbsolute cwd = true -> inside cwd root p -> inside cwd root (resolve cwd p).
Proof.
  intros Hcwd Hin. unfold inside in *. rewrite resolve_idem by exact Hcwd. exact Hin.
Qed.

End PathProps.

(** ** The dev server serves from the output root only *)

Module ServerProps.
Import Path Server PathSpec PathProps.

Lemma sanitizePath_inside cwd urlPath outputDir p :
  isAbsolute cwd = true -> outputDir <> [] ->
  sanitizePath cwd urlPath outputDir = Some p ->
  inside cwd outputDir p.
Proof.
  intros Hcwd Hout. unfold sanitizePath.
  destruct (Uri.decodeURIComponent urlPath) as [decoded |]; [| discriminate].
  destruct (includes decoded (js "..") || includes decoded (js "//") ||
            includes decoded [92]) eqn:Hbad; [discriminate |].
  apply orb_false_iff in Hbad as [Hbad _].
  apply orb_false_iff in Hbad as [Hdd _].
  destruct (negb (startsWith (resolve cwd (join outputDir decoded))
                    (resolve cwd outputDir))); [discriminate |].
  intros [= <-].
  apply resolved_inside; [exact Hcwd |].
  apply join_inside; assumption.
Qed.

Lemma sanitizePath_rejects cwd urlPath outputDir :
  match Uri.decodeURIComponent urlPath with
  | None => True
  | Some decoded =>
      includes decoded (js "..") || includes decoded (js "//") ||
      includes decoded [92] = true
  end ->
  sanitizePath cwd urlPath outputDir = None.
Proof.
  unfold sanitizePath.
  destruct (Uri.decodeURIComponent urlPath) as [decoded |]; [| reflexivity].
  intros ->. reflexivity.
Qed.

Lemma cacheGet_accessed disk c key :
  snd (cacheGet disk c key) = [] \/ snd (cacheGet disk c key) = [key].
Proof.
  unfold cacheGet. destruct (cacheLookup c key); [| left; reflexivity].
  destruct (disk !! key) as [[data m | m] |];
    try destruct (_ <? _)%Z; right; reflexivity.
Qed.

Section WithBuiltins.
Context `{Builtins}.

Lemma serve_accessed filePath ifNoneMatch item cache2 acc :
  accessed (serve filePath ifNoneMatch item cache2 acc) = acc.
Proof.
  unfold serve. destruct ifNoneMatch as [[| c e] |]; try reflexivity.
  destruct (streq (c :: e) (item_etag item)); reflexivity.
Qed.

Lemma serveFromDisk_accessed (P : jsstring -> Prop) cwd outputDir filePath
    ifNoneMatch disk cache1 acc1 :
  P filePath -> P (join outputDir (js "404.html")) -> Forall P acc1 ->
  Forall P (accessed (serveFromDisk cwd outputDir filePath ifNoneMatch disk cache1 acc1)).
Proof.
  intros Hf Hn Ha. unfold serveFromDisk.
  destruct (disk !! filePath) as [[data m | m] |].
  - pose proof (cacheGet_accessed disk (cacheSet 50 cache1 filePath data m) filePath) as Hg.
    destruct (cacheGet disk (cacheSet 50 cache1 filePath data m) filePath)
      as [[again cache3] acc2].
    simpl in Hg.
    assert (H2 : Forall P acc2) by (destruct Hg as [-> | ->]; repeat constructor; exact Hf).
    destruct again; rewrite ?serve_accessed; simpl;
      apply Forall_app; (split; [exact Ha |]); repeat (constructor; [exact Hf |]);
      exact H2.
  - simpl. apply Forall_app. split; [exact Ha |]. repeat constructor; exact Hf.
  - destruct (disk !! resolve cwd (join outputDir (js "404.html"))) as [[data m | m] |]; simpl;
      apply Forall_app; (split; [exact Ha |]); repeat constructor; assumption.
Qed.

(** C8: whatever the request, every path the listener hands to the file
    system lies in the output root; a request whose path does not
    decode, or decodes to text containing [..], [//] or a backslash, is
    answered 403 without touching the disk; and [sanitizePath] returns
    only paths in the output root.  The listener answers 403, or opens
    the event stream, or works on a sanitized path. *)
Theorem dev_server_confined (cwd projectDir : jsstring)
    (disk : gmap jsstring node) (fileCache : FileCache) (reqUrl : jsstring)
    (ifNoneMatch : option jsstring) :
  isAbsolute cwd = true ->
  let outputDir := join projectDir (js "public") in
  let url := beforeQuery reqUrl in
  let h := handle cwd projectDir disk fileCache reqUrl ifNoneMatch in
  Forall (inside cwd outputDir) (accessed h) /\
  (streq url (js "/__live-reload") = false ->
   match Uri.decodeURIComponent (requestPath url) with
   | None => True
   | Some decoded =>
       includes decoded (js "..") || includes decoded (js "//") ||
       includes decoded [92] = true
   end ->
   response h = Some forbidden /\ accessed h = []) /\
  (forall urlPath p,
     sanitizePath cwd urlPath outputDir = Some p -> inside cwd outputDir p) /\
  ((response h = Some forbidden /\ accessed h = []) \/
   (response h = Some EventStream /\ accessed h = []) \/
   exists filePath,
     sanitizePath cwd (requestPath url) outputDir = Some filePath /\
     inside cwd outputDir filePath).
Proof.
  intros Hcwd outputDir url h.
  assert (Hout : outputDir <> []) by apply join_nonempty.
  assert (Hnf : inside cwd outputDir (join outputDir (js "404.html")))
    by (apply join_inside; [exact Hcwd | exact Hout | reflexivity]).
  subst h. unfold handle. fold outputDir. fold url.
  destruct (streq url (js "/__live-reload")) eqn:Elive.
  - split; [| split; [| split]].
    + apply Forall_nil_2.
    + discriminate.
    + intros urlPath p. apply sanitizePath_inside; assumption.
    + right. left. split; reflexivity.
  - destruct (sanitizePath cwd (requestPath url) outputDir) as [filePath |] eqn:Es.
    + pose proof (sanitizePath_inside _ _ _ _ Hcwd Hout Es) as Hin.
      split; [| split; [| split]].
      * pose proof (cacheGet_accessed disk fileCache filePath) as Hg.
        destruct (cacheGet disk fileCache filePath) as [[cached cache1] acc1].
        simpl in Hg.
        assert (H1 : Forall (inside cwd outputDir) acc1)
          by (destruct Hg as [-> | ->]; repeat constructor; exact Hin).
        destruct cached; [rewrite serve_accessed; exact H1 |].
        apply serveFromDisk_accessed; assumption.
      * intros _ Hbad. rewrite (sanitizePath_rejects _ _ _ Hbad) in Es. discriminate.
      * intros urlPath p. apply sanitizePath_inside; assumption.
      * right. right. exists filePath. split; [reflexivity | exact Hin].
    + split; [| split; [| split]].
      * apply Forall_nil_2.
      * intros _ _. split; reflexivity.
      * intros urlPath p. apply sanitizePath_inside; assumption.
      * left. split; reflexivity.
Qed.

End WithBuiltins.

(** The two requests the specification names: both are answered 403
    and nothing is read. *)
Lemma dev_server_confined_witness :
  let cwd := js "/home/me/blog" in
  let h1 := @handle Sample.builtins cwd (js ".") ∅ [] (js "/../../etc/passwd") None in
  let h2 := @handle Sample.builtins cwd (js ".") ∅ []
              (js "/%2e%2e/%2E%2e/etc/passwd") None in
  (response h1 = Some forbidden /\ accessed h1 = []) /\
  (response h2 = Some forbidden /\ accessed h2 = []).
Proof.
  split.
  - apply (@dev_server_confined Sample.builtins (js "/home/me/blog") (js ".") ∅ []
             (js "/../../etc/passwd") None eq_refl); reflexivity.
  - apply (@dev_server_confined Sample.builtins (js "/home/me/blog") (js ".") ∅ []
             (js "/%2e%2e/%2E%2e/etc/passwd") None eq_refl); reflexivity.
Defined.

End ServerProps.

(** ** The debounced rebuild *)

Module DevLoopProps.
Import DevLoop DevLoopSpec.
Local Open Scope Z_scope.

Lemma run_app s evs1 evs2 :
  run s (evs1 ++ evs2) =
  match run s evs1 with
  | Some s' => run s' evs2
  | None => None
  end.
Proof.
  revert s. induction evs1 as [| e evs1 IH]; intros s; simpl; [reflexivity |].
  destruct (step s e); [apply IH | reflexivity].
Qed.

Lemma watchTimes_app evs1 evs2 :
  watchTimes (evs1 ++ evs2) = watchTimes evs1 ++ watchTimes evs2.
Proof.
  induction evs1 as [| e evs1 IH]; simpl; [reflexivity |].
  destruct e; simpl; rewrite IH; reflexivity.
Qed.

Lemma burst_snoc ts t :
  burst (ts ++ [t]) ->
  burst ts /\ forall w, last ts = Some w -> t - w < debounceMs.
Proof.
  induction ts as [| a ts IH]; simpl.
  - intros _. split; [exact I | discriminate].
  - destruct ts as [| b ts]; simpl in *.
    + intros [Hlt _]. split; [exact I |]. intros w [= <-]. exact Hlt.
    + intros [Hab Hrest]. destruct (IH Hrest) as [Hb Hl].
      split; [split; assumption | exact Hl].
Qed.

Lemma step_time s e s' : step s e = Some s' -> now s <= now s' /\ now s' = timeOf e.
Proof.
  unfold step. destruct (Z.ltb_spec (timeOf e) (now s)); [discriminate |].
  destruct e as [t | t | t ok]; simpl in *.
  - intros [= <-]. simpl. lia.
  - destruct (buildTimeout s) as [d |]; [| discriminate].
    destruct (d <=? t); [| discriminate]. intros [= <-]. simpl. lia.
  - destruct (inFlight s); [discriminate |]. intros [= <-]. simpl. lia.
Qed.

Lemma burst_invariant evs s :
  run idle evs = Some s -> burst (watchTimes evs) -> burstInvariant evs s.
Proof.
  revert s. induction evs as [| e evs IH] using rev_ind; intros s.
  - intros [= <-] _. repeat split.
  - rewrite run_app, watchTimes_app.
    destruct (run idle evs) as [s0 |] eqn:Hrun; [| discriminate].
    simpl run. destruct (step s0 e) as [s1 |] eqn:Hstep; [| discriminate].
    intros [= <-] Hb. pose proof (step_time _ _ _ Hstep) as [Hmono Hnow].
    unfold burstInvariant in *. rewrite watchTimes_app.
    destruct e as [t | t | t ok]; simpl watchTimes in *.
    + (* a watcher event re-arms the timer *)
      apply burst_snoc in Hb as [Hb Hgap]. specialize (IH s0 eq_refl Hb).
      rewrite last_snoc. unfold step in Hstep. simpl in Hstep, Hnow.
      destruct (t <? now s0); [discriminate |]. injection Hstep as <-.
      split; [simpl; lia |]. left. simpl.
      destruct (last (watchTimes evs)) as [w |].
      * destruct IH as [Hw [(_ & ? & ? & ? & ?) | (_ & _ & Hfired & _)]];
          [repeat split; assumption |].
        specialize (Hgap w eq_refl). lia.
      * destruct IH as (_ & ? & ? & ? & ?). repeat split; assumption.
    + rewrite app_nil_r in *. specialize (IH s0 eq_refl Hb).
      unfold step in Hstep. simpl in Hstep, Hnow.
      destruct (t <? now s0); [discriminate |].
      destruct (buildTimeout s0) as [d |] eqn:Hd; [| discriminate].
      destruct (Z.leb_spec d t); [| discriminate]. injection Hstep as <-.
      destruct (last (watchTimes evs)) as [w |].
      * destruct IH as [Hw [(Hbt & Hst & Hin & Hbr & Hfa) | (Hbt & _)]];
          [| congruence].
        split; [simpl; lia |]. right. simpl.
        assert (d = w + debounceMs) by congruence.
        rewrite Hst, Hin, Hbr, Hfa. repeat split; lia.
      * destruct IH as (Hbt & _). congruence.
    + rewrite app_nil_r in *. specialize (IH s0 eq_refl Hb).
      unfold step in Hstep. simpl in Hstep, Hnow.
      destruct (t <? now s0); [discriminate |].
      destruct (inFlight s0) as [| k] eqn:Hk; [discriminate |].
      injection Hstep as <-.
      destruct (last (watchTimes evs)) as [w |].
      * destruct IH as [Hw [(_ & _ & Hin & _) | (Hbt & Hst & Hfired & Hsum)]];
          [lia |].
        split; [simpl; lia |]. right. simpl.
        destruct ok; repeat split; try assumption; lia.
      * destruct IH as (_ & _ & Hin & _). lia.
Qed.

Lemma allOk_failures s0 evs s :
  run s0 evs = Some s -> allOk evs = true -> failures s = failures s0.
Proof.
  revert s0. induction evs as [| e evs IH]; intros s0; simpl.
  - intros [= <-] _. reflexivity.
  - destruct (step s0 e) as [s1 |] eqn:Hstep; [| discriminate].
    intros Hrun Hok. apply andb_true_iff in Hok as [He Hok].
    rewrite (IH s1 Hrun Hok). unfold step in Hstep.
    destruct (timeOf e <? now s0); [discriminate |].
    destruct e as [t | t | t ok].
    + injection Hstep as <-. reflexivity.
    + destruct (buildTimeout s0) as [d |]; [| discriminate].
      destruct (d <=? t); [| discriminate]. injection Hstep as <-. reflexivity.
    + destruct (inFlight s0); [discriminate |]. injection Hstep as <-.
      simpl in He. subst ok. reflexivity.
Qed.

(** After a burst the timer is armed for 150 ms after its last event,
    and the loop accepts its callback then and the build's outcome: the
    rebuild does happen. *)
Lemma last_cons_default (ts : list Z) a d : List.last (a :: ts) d = List.last ts a.
Proof.
  revert a d. induction ts as [| b ts IH]; intros a d; [reflexivity |].
  change (List.last (a :: b :: ts) d) with (List.last (b :: ts) d).
  rewrite (IH b d), (IH b a). reflexivity.
Qed.

Lemma watches_arm s ts t :
  now s <= t -> ascending t ts ->
  exists s',
    run s (List.map Watch (t :: ts)) = Some s' /\
    buildTimeout s' = Some (List.last ts t + debounceMs) /\
    now s' = List.last ts t /\
    inFlight s' = inFlight s /\ started s' = started s /\
    broadcasts s' = broadcasts s /\ failures s' = failures s.
Proof.
  revert s t. induction ts as [| t' ts IH]; intros s t Hnow Hasc.
  - simpl. unfold step. simpl. destruct (Z.ltb_spec t (now s)); [lia |].
    eexists. split; [reflexivity |]. repeat split.
  - destruct Hasc as [Htt Hasc].
    change (List.map Watch (t :: t' :: ts)) with (Watch t :: List.map Watch (t' :: ts)).
    cbn [run]. unfold step at 1. cbn [timeOf].
    destruct (Z.ltb_spec t (now s)); [lia |].
    destruct (IH {| now := t; buildTimeout := Some (t + debounceMs);
                    inFlight := inFlight s; started := started s;
                    broadcasts := broadcasts s; failures := failures s |} t'
                Htt Hasc) as [s' [Hrun Hs']].
    exists s'. split; [exact Hrun |]. rewrite last_cons_default. exact Hs'.
Qed.

Lemma burst_then_rebuild ts t ok :
  0 <= t -> ascending t ts ->
  exists s,
    run idle (List.map Watch (t :: ts) ++
              [Timeout (List.last ts t + debounceMs);
               Settled (List.last ts t + debounceMs) ok]) = Some s /\
    quiescent s /\ started s = 1%nat.
Proof.
  intros Ht Hasc.
  destruct (watches_arm idle ts t Ht Hasc)
    as [s1 (Hrun & Hbt & Hnow & Hin & Hst & Hbr & Hfa)].
  rewrite run_app, Hrun. cbn [run]. unfold step at 1. cbn [timeOf].
  rewrite Hnow, Hbt. unfold debounceMs.
  destruct (Z.ltb_spec (List.last ts t + 150) (List.last ts t)); [lia |].
  destruct (Z.leb_spec (List.last ts t + 150) (List.last ts t + 150)); [| lia].
  unfold step. cbn [timeOf now inFlight].
  destruct (Z.ltb_spec (List.last ts t + 150) (List.last ts t + 150)); [lia |].
  eexists. split; [reflexivity |]. simpl in *. rewrite Hin, Hst.
  split; [split; reflexivity | reflexivity].
Qed.

(** C4 as amended: every watcher event re-arms the one debounce timer,
    so when each event of a burst follows the previous one by less than
    150 ms, the loop, once nothing is armed or in flight any more, has
    started exactly one rebuild, not earlier than 150 ms after the last
    event, and has broadcast exactly one reload if that build succeeded
    and none if it failed. *)
Theorem burst_one_rebuild (evs : list event) (s : Loop) :
  run idle evs = Some s ->
  watchTimes evs <> [] ->
  burst (watchTimes evs) ->
  quiescent s ->
  started s = 1%nat /\
  (broadcasts s + failures s = 1)%nat /\
  (allOk evs = true -> broadcasts s = 1%nat) /\
  exists w, last (watchTimes evs) = Some w /\ w + debounceMs <= now s.
Proof.
  intros Hrun Hne Hb [Hq1 Hq2].
  pose proof (burst_invariant evs s Hrun Hb) as Hinv. unfold burstInvariant in Hinv.
  destruct (last (watchTimes evs)) as [w |] eqn:Hl.
  - destruct Hinv as [_ [(Hbt & _) | (_ & Hst & Hfired & Hsum)]]; [congruence |].
    split; [exact Hst |]. split; [lia |]. split.
    + intros Hok. pose proof (allOk_failures idle evs s Hrun Hok) as Hf.
      simpl in Hf. lia.
    + exists w. split; [reflexivity | exact Hfired].
  - apply last_None in Hl. contradiction.
Qed.

(** Three events within the window, the timer, the build's success. *)
Lemma burst_one_rebuild_witness :
  exists s,
    run idle [Watch 0; Watch 40; Watch 90; Timeout 240; Settled 900 true] = Some s /\
    started s = 1%nat /\ broadcasts s = 1%nat.
Proof.
  eexists. split; [reflexivity |].
  destruct (burst_one_rebuild
              [Watch 0; Watch 40; Watch 90; Timeout 240; Settled 900 true] _ eq_refl)
    as (Hst & _ & Hbr & _).
  - discriminate.
  - simpl. unfold debounceMs. lia.
  - split; reflexivity.
  - split; [exact Hst | apply Hbr; reflexivity].
Defined.

(** C4 refuted as stated: a watcher event that arrives while a rebuild
    is suspended at its [await] arms the timer again, and when that
    timer fires a second rebuild starts while the first is still in
    flight. *)
Lemma rebuilds_overlap :
  exists s,
    run idle [Watch 0; Timeout 150; Watch 200; Timeout 350] = Some s /\
    inFlight s = 2%nat /\ started s = 2%nat.
Proof. eexists. split; [reflexivity | split; reflexivity]. Qed.

End DevLoopProps.

(** ** The build pass *)

Module AssemblerProps.
Import Template Builder Assembler AssemblerSpec CacheProps RelatedProps.

Lemma extends_refl d : extends d d.
Proof. exists []. reflexivity. Qed.

Lemma extends_trans d1 d2 d3 : extends d1 d2 -> extends d2 d3 -> extends d1 d3.
Proof.
  intros [l1 E1] [l2 E2]. exists (l2 ++ l1). rewrite E2, E1. apply app_assoc.
Qed.

Lemma extends_In d d' e : extends d d' -> In e (written d) -> In e (written d').
Proof. intros [l E] Hin. rewrite E. apply in_or_app. right. exact Hin. Qed.

Lemma writeFile_extends rel data d : extends d (writeFile rel data d).
Proof. exists [(rel, data)]. reflexivity. Qed.


Lemma fold_writeFile_extends {A : Type} (f g : A -> jsstring) l d :
  extends d (fold_left (fun d e => writeFile (f e) (g e) d) l d).
Proof.
  revert d. induction l as [| e l IH]; intros d; simpl; [apply extends_refl |].
  eapply extends_trans; [apply writeFile_extends | apply IH].
Qed.

Section WithBuiltins.
Context `{Builtins} `{Fragments}.


Lemma buildTagPages_extends posts templates config d d' :
  buildTagPages posts templates config d = Returns d' -> extends d d'.
Proof.
  unfold buildTagPages. destruct (groupByTag posts) as [tagPosts | |];
    simpl; try discriminate.
  destruct (orElse _ _) as [| | | | | [| c t] |]; intros [= <-];
    try apply extends_refl.
  apply (fold_writeFile_extends (fun e => tagPagePath (fst e))
           (fun e => tagPage (c :: t) config (fst e) (snd e))).
Qed.

Lemma writePage_extends listTemplate config d page :
  extends d (writePage listTemplate config d page).
Proof.
  unfold writePage. eapply extends_trans; [| apply writeFile_extends].
  destruct (_ && _); [apply writeFile_extends | apply extends_refl].
Qed.

Lemma fold_writePage_extends listTemplate config pages d :
  extends d (fold_left (writePage listTemplate config) pages d).
Proof.
  revert d. induction pages as [| page pages IH]; intros d; simpl;
    [apply extends_refl |].
  eapply extends_trans; [apply writePage_extends | apply IH].
Qed.

Lemma buildPaginationPages_extends posts templates config d d' :
  buildPaginationPages posts templates config d = Returns d' -> extends d d'.
Proof.
  unfold buildPaginationPages. destruct (Paginate.paginate _ _) as [pages |];
    [| discriminate].
  destruct (orElse _ _) as [| | | | | [| c t] |]; intros [= <-];
    try apply extends_refl.
  apply fold_writePage_extends.
Qed.

Lemma copyStatic_extends src d : extends d (copyStatic src d).
Proof.
  unfold copyStatic. destruct (src_static src) as [l |]; [| apply extends_refl].
  apply (fold_writeFile_extends fst snd).
Qed.

Lemma copy404_extends src d : extends d (copy404 src d).
Proof.
  unfold copy404. destruct (src_404 src); [apply writeFile_extends | apply extends_refl].
Qed.


(** What a completed pass went through. *)
Lemma build_stages src incremental persisted files0 clock pass :
  build src incremental persisted files0 clock = Returns pass ->
  let cache := if incremental then persisted else ∅ in
  let d0 := {| files := if incremental then files0 else ∅; written := [] |} in
  let all := parseFrom clock (src_pagesDir src) 0 (src_pages src) in
  exists st d1 d2 d3 sitemap,
    foldM (buildOne incremental (pagesFs src) cache (src_templates src) all
             (src_config src)) all (false, d0) = Returns st /\
    (if fst st || negb incremental
     then rebuildIndex (src_templates src) all (src_config src) (snd st)
     else Returns (snd st)) = Returns d1 /\
    buildTagPages all (src_templates src) (src_config src) d1 = Returns d2 /\
    buildPaginationPages all (src_templates src) (src_config src) d2 = Returns d3 /\
    Feeds.generateSitemap all (src_config src) = Returns sitemap /\
    out pass =
      copy404 src
        (copyStatic src
           (writeFile (js "sitemap.xml") sitemap
              (writeFile (js "rss.xml")
                 (Feeds.generateRSS (rssInstant clock) all (src_config src)) d3))) /\
    posts pass = all /\ hasNewPosts pass = fst st /\
    savedCache pass = hashAll (pagesFs src) all.
Proof.
  intros Hb cache d0 all. unfold build in Hb. cbv zeta in Hb.
  fold cache d0 all in Hb.
  destruct (foldM _ all (false, d0)) as [st | |] eqn:E0; cbn [bind] in Hb;
    try discriminate.
  destruct (if fst st || negb incremental then _ else _) as [d1 | |] eqn:E1;
    cbn [bind] in Hb; try discriminate.
  destruct (buildTagPages all _ _ d1) as [d2 | |] eqn:E2; cbn [bind] in Hb;
    try discriminate.
  destruct (buildPaginationPages all _ _ d2) as [d3 | |] eqn:E3; cbn [bind] in Hb;
    try discriminate.
  destruct (Feeds.generateSitemap all _) as [sitemap | |] eqn:E4; cbn [bind] in Hb;
    try discriminate.
  injection Hb as <-. exists st, d1, d2, d3, sitemap. repeat split; assumption.
Qed.




End WithBuiltins.


(** *** Tag pages and pagination pages are regenerated in every pass *)

Lemma pushTag_keys tagPosts tag post :
  In tag (keysOf (pushTag tagPosts tag post)) /\
  forall k, In k (keysOf tagPosts) -> In k (keysOf (pushTag tagPosts tag post)).
Proof.
  induction tagPosts as [| [t l] rest IH]; simpl.
  - split; [left; reflexivity | intros k []].
  - destruct (streq t tag) eqn:E; simpl.
    + apply streq_true in E. subst t. split; [left; reflexivity | auto].
    + destruct IH as [IH1 IH2]. split; [right; exact IH1 |].
      intros k [<- | Hk]; [left; reflexivity | right; apply IH2; exact Hk].
Qed.

Lemma addTag_returns post acc tag o' :
  addTag post acc tag = Returns o' ->
  exists o, acc = Returns o /\ In tag (keysOf o') /\
            forall k, In k (keysOf o) -> In k (keysOf o').
Proof.
  unfold addTag. destruct acc as [o | |]; simpl; try discriminate.
  destruct (negb (hasOwn o tag) && isInheritedKey tag); [discriminate |].
  intros [= <-]. exists o. split; [reflexivity | apply pushTag_keys].
Qed.

Lemma fold_addTag_returns post tags acc o' :
  fold_left (addTag post) tags acc = Returns o' ->
  exists o, acc = Returns o /\
    (forall k, In k (keysOf o) -> In k (keysOf o')) /\
    (forall tag, In tag tags -> In tag (keysOf o')).
Proof.
  revert acc. induction tags as [| tag tags IH]; intros acc; simpl.
  - intros ->. exists o'. split; [reflexivity |]. split; [auto | intros tag []].
  - intros Hf. destruct (IH _ Hf) as [o1 [E1 [Hmono Hall]]].
    destruct (addTag_returns _ _ _ _ E1) as [o [E [Htag Hm]]].
    exists o. split; [exact E |]. split; [auto |].
    intros t [<- | Ht]; [apply Hmono; exact Htag | apply Hall; exact Ht].
Qed.

Lemma fold_posts_returns ps acc o' :
  fold_left (fun acc post => fold_left (addTag post) (tags post) acc) ps acc
    = Returns o' ->
  exists o, acc = Returns o /\
    (forall k, In k (keysOf o) -> In k (keysOf o')) /\
    (forall post tag, In post ps -> In tag (tags post) -> In tag (keysOf o')).
Proof.
  revert acc. induction ps as [| p ps IH]; intros acc; simpl.
  - intros ->. exists o'. split; [reflexivity |]. split; [auto | intros post tag []].
  - intros Hf. destruct (IH _ Hf) as [o1 [E1 [Hmono Hall]]].
    destruct (fold_addTag_returns _ _ _ _ E1) as [o [E [Hm Ht]]].
    exists o. split; [exact E |]. split; [auto |].
    intros post tag [<- | Hp] Htag; [apply Hmono, Ht; exact Htag |].
    apply (Hall post tag Hp Htag).
Qed.

Lemma groupByTag_keys all o :
  groupByTag all = Returns o ->
  forall post tag,
    In post all -> truthy (draft post) = false -> In tag (tags post) ->
    In tag (keysOf o).
Proof.
  unfold groupByTag. intros Hg post tag Hin Hd Htag.
  destruct (fold_posts_returns _ _ _ Hg) as [o0 [_ [_ Hall]]].
  apply (Hall post tag); [| exact Htag].
  apply filter_In. split; [exact Hin | rewrite Hd; reflexivity].
Qed.

Lemma entries_In {V : Type} (o : list (jsstring * V)) e :
  In e o -> In e (entries o).
Proof.
  intros Hin. unfold entries. apply in_or_app.
  destruct (bool_decide (is_Some (arrayIndex (fst e)))) eqn:E.
  - left. apply (Permutation_in _ (Permutation_sym (SortProps.sort_perm _ _))).
    apply filter_In. split; [exact Hin | exact E].
  - right. apply filter_In. split; [exact Hin | rewrite E; reflexivity].
Qed.

Lemma fold_writeFile_written {A : Type} (f g : A -> jsstring) l d e :
  In e l ->
  In (f e) (keysOf (written (fold_left (fun d e => writeFile (f e) (g e) d) l d))).
Proof.
  revert d. induction l as [| a l IH]; intros d; simpl; [intros [] |].
  intros [<- | Hin]; [| apply IH; exact Hin].
  destruct (fold_writeFile_extends f g l (writeFile (f a) (g a) d)) as [k Hk].
  rewrite Hk. unfold keysOf. rewrite List.map_app. apply in_or_app. right.
  left. reflexivity.
Qed.

Section WithBuiltins.
Context `{Builtins} `{Fragments}.

(** Whatever the cache said about the posts, a pass that gets through
    [buildTagPages] with a tag template has written the page of every
    tag of every published post. *)
Lemma tag_pages_regenerated all templates config d d' c t :
  buildTagPages all templates config d = Returns d' ->
  orElse (templateGet templates (js "tag")) (templateGet templates (js "default"))
    = JStr (c :: t) ->
  forall post tag,
    In post all -> truthy (draft post) = false -> In tag (tags post) ->
    In (tagPagePath tag) (keysOf (written d')).
Proof.
  unfold buildTagPages. intros Hb Ht post tag Hin Hd Htag.
  destruct (groupByTag all) as [tagPosts | |] eqn:Hg; simpl in Hb; try discriminate.
  rewrite Ht in Hb. injection Hb as <-.
  pose proof (groupByTag_keys _ _ Hg post tag Hin Hd Htag) as Hk.
  unfold keysOf in Hk. apply in_map_iff in Hk as [e [He Hine]]. subst tag.
  apply (fold_writeFile_written (fun e => tagPagePath (fst e))
           (fun e => tagPage (c :: t) config (fst e) (snd e))).
  apply entries_In. exact Hine.
Qed.

Lemma fold_writePage_written listTemplate config pages d page :
  In page pages ->
  In (pagePath (Paginate.currentPage page))
    (keysOf (written (fold_left (writePage listTemplate config) pages d))).
Proof.
  revert d. induction pages as [| a pages IH]; intros d; simpl; [intros [] |].
  intros [<- | Hin]; [| apply IH; exact Hin].
  destruct (fold_writePage_extends listTemplate config pages
              (writePage listTemplate config d a)) as [k Hk].
  rewrite Hk. unfold keysOf. rewrite List.map_app. apply in_or_app. right.
  left. reflexivity.
Qed.

(** Likewise every pagination page, given a list template. *)
Lemma pagination_pages_regenerated all templates config d d' c t :
  buildPaginationPages all templates config d = Returns d' ->
  orElse (templateGet templates (js "list")) (templateGet templates (js "default"))
    = JStr (c :: t) ->
  exists pages,
    Paginate.paginate
      (Feeds.sortByDate (List.filter Feeds.listed all))
      (cfg_postsPerPage config) = Some pages /\
    forall page, In page pages ->
                 In (pagePath (Paginate.currentPage page)) (keysOf (written d')).
Proof.
  unfold buildPaginationPages. intros Hb Ht.
  destruct (Paginate.paginate _ _) as [pages |]; [| discriminate].
  rewrite Ht in Hb. injection Hb as <-.
  exists pages. split; [reflexivity |]. intros page Hin.
  apply fold_writePage_written. exact Hin.
Qed.

(** With an index post whose rendering is not empty, a pass in which a
    post was rebuilt writes the root page from it. *)
Lemma root_regenerated_from_index src incremental persisted files0 clock pass
    indexPost c h :
  build src incremental persisted files0 clock = Returns pass ->
  hasNewPosts pass = true ->
  List.find (fun p => streq (slug p) (js "index")) (posts pass) = Some indexPost ->
  buildPost indexPost (src_templates src) (posts pass) (src_config src)
    = Returns (Some (c :: h)) ->
  In (js "index.html", c :: h) (written (out pass)).
Proof.
  intros Hb Hnew Hfind Hbp.
  destruct (build_stages _ _ _ _ _ _ Hb)
    as (st & d1 & d2 & d3 & sitemap & E0 & E1 & E2 & E3 & E4 & Hout & Hp & Hh & _).
  rewrite Hp in Hfind, Hbp. rewrite Hh in Hnew. rewrite Hnew in E1. simpl in E1.
  unfold rebuildIndex in E1. rewrite Hfind, Hbp in E1. simpl in E1.
  injection E1 as <-.
  apply buildTagPages_extends in E2. apply buildPaginationPages_extends in E3.
  rewrite Hout.
  eapply extends_In.
  - eapply extends_trans; [exact E2 |]. eapply extends_trans; [exact E3 |].
    eapply extends_trans; [apply writeFile_extends |].
    eapply extends_trans; [apply writeFile_extends |].
    eapply extends_trans; [apply copyStatic_extends | apply copy404_extends].
  - left. reflexivity.
Qed.

End WithBuiltins.

(** *** The root page of a site without an index post *)

Lemma writeFile_keeps k old rel data d :
  rel <> k -> keeps k old d -> keeps k old (writeFile rel data d).
Proof.
  intros Hne [Hf Hw]. split; simpl.
  - rewrite lookup_insert_ne by exact Hne. exact Hf.
  - intros [E | Hin]; [apply Hne; exact E | apply Hw; exact Hin].
Qed.

Lemma writeIfHtml_keeps k old rel html d :
  rel <> k -> keeps k old d -> keeps k old (writeIfHtml rel html d).
Proof.
  intros Hne Hk. destruct html as [[| c h] |]; simpl; try exact Hk.
  apply writeFile_keeps; assumption.
Qed.

Lemma fold_writeFile_keeps {A : Type} k old (f g : A -> jsstring) l d :
  (forall e, In e l -> f e <> k) -> keeps k old d ->
  keeps k old (fold_left (fun d e => writeFile (f e) (g e) d) l d).
Proof.
  revert d. induction l as [| e l IH]; intros d Hl Hk; simpl; [exact Hk |].
  apply IH; [intros e' He'; apply Hl; right; exact He' |].
  apply writeFile_keeps; [apply Hl; left; reflexivity | exact Hk].
Qed.

Lemma postPath_index post : slug post <> js "index" -> postPath post <> indexHtml.
Proof.
  intros Hs E. apply Hs. unfold postPath, indexHtml in E.
  change (js "index.html") with (js "index" ++ js ".html") in E.
  apply app_inv_tail in E. exact E.
Qed.

Lemma copyStatic_keeps old src d :
  (forall l, src_static src = Some l -> ~ In (js "index.html") (List.map fst l)) ->
  keeps indexHtml old d -> keeps indexHtml old (copyStatic src d).
Proof.
  intros Hstatic Hk. unfold copyStatic.
  destruct (src_static src) as [l |] eqn:Es; [| exact Hk].
  apply (fold_writeFile_keeps indexHtml old fst snd); [| exact Hk].
  intros e He E. apply (Hstatic l eq_refl). unfold indexHtml in E. rewrite <- E.
  apply in_map. exact He.
Qed.

Lemma copy404_keeps old src d :
  keeps indexHtml old d -> keeps indexHtml old (copy404 src d).
Proof.
  intros Hk. unfold copy404. destruct (src_404 src); [| exact Hk].
  apply writeFile_keeps; [discriminate | exact Hk].
Qed.

Lemma head_differs (a b : jsstring) : hd 0 a <> hd 0 b -> a <> b.
Proof. intros Hh E. apply Hh. rewrite E. reflexivity. Qed.

Section WithBuiltins.
Context `{Builtins} `{Fragments}.

Lemma tagPagePath_index tag : tagPagePath tag <> indexHtml.
Proof. apply head_differs. vm_compute. discriminate. Qed.

Lemma pagePath_index n : pagePath n <> indexHtml.
Proof. apply head_differs. vm_compute. discriminate. Qed.

Lemma loop_keeps old incremental fs cache templates all config ps st st' :
  (forall post, In post ps -> slug post <> js "index") ->
  foldM (buildOne incremental fs cache templates all config) ps st = Returns st' ->
  keeps indexHtml old (snd st) -> keeps indexHtml old (snd st').
Proof.
  revert st. induction ps as [| p ps IH]; intros st Hps; simpl.
  - intros [= <-] Hk. exact Hk.
  - destruct (buildOne incremental fs cache templates all config st p)
      as [st1 | |] eqn:E1; simpl; try discriminate.
    intros Hrest Hk. apply (IH st1); [intros q Hq; apply Hps; right; exact Hq
                                      | exact Hrest |].
    unfold buildOne in E1. destruct (truthy (draft p)); [injection E1 as <-; exact Hk |].
    destruct (needsBuild incremental fs cache p); [| injection E1 as <-; exact Hk].
    destruct (buildPost p templates all config) as [html | |]; simpl in E1;
      try discriminate.
    injection E1 as <-. simpl. apply writeIfHtml_keeps; [| exact Hk].
    apply postPath_index, Hps. left. reflexivity.
Qed.

Lemma find_index_none (all : list Post) :
  (forall post, In post all -> slug post <> js "index") ->
  List.find (fun p => streq (slug p) (js "index")) all = None.
Proof.
  intros Hall. induction all as [| p all IH]; simpl; [reflexivity |].
  destruct (streq (slug p) (js "index")) eqn:E.
  - apply streq_true in E. exfalso. apply (Hall p); [left; reflexivity | exact E].
  - apply IH. intros q Hq. apply Hall. right. exact Hq.
Qed.

Lemma buildTagPages_keeps old all templates config d d' :
  buildTagPages all templates config d = Returns d' ->
  keeps indexHtml old d -> keeps indexHtml old d'.
Proof.
  unfold buildTagPages. destruct (groupByTag all) as [tagPosts | |];
    simpl; try discriminate.
  destruct (orElse _ _) as [| | | | | [| c t] |]; intros [= <-] Hk; try exact Hk.
  apply (fold_writeFile_keeps indexHtml old (fun e => tagPagePath (fst e))
           (fun e => tagPage (c :: t) config (fst e) (snd e))); [| exact Hk].
  intros e _. apply tagPagePath_index.
Qed.

Lemma writePage_keeps old listTemplate config d page :
  keeps indexHtml old d -> keeps indexHtml old (writePage listTemplate config d page).
Proof.
  intros Hk. unfold writePage. apply writeFile_keeps; [apply pagePath_index |].
  assert (Hex : exists_ (js "index.html") d = true).
  { unfold exists_. apply bool_decide_eq_true. destruct Hk as [Hf _].
    unfold indexHtml in Hf. rewrite Hf. eexists. reflexivity. }
  rewrite Hex, andb_false_r. exact Hk.
Qed.

Lemma buildPaginationPages_keeps old all templates config d d' :
  buildPaginationPages all templates config d = Returns d' ->
  keeps indexHtml old d -> keeps indexHtml old d'.
Proof.
  unfold buildPaginationPages. destruct (Paginate.paginate _ _) as [pages |];
    [| discriminate].
  destruct (orElse _ _) as [| | | | | [| c t] |]; intros [= <-] Hk; try exact Hk.
  clear - Hk. revert d Hk. induction pages as [| page pages IH]; intros d Hk; simpl;
    [exact Hk |].
  apply IH, writePage_keeps, Hk.
Qed.

(** C2, where the code departs from it: in an incremental pass over a
    site without an index post, the root page [index.html] left by an
    earlier pass is neither regenerated nor touched, although posts were
    rebuilt in the pass.  The mirror of the first pagination page is
    written only when no [index.html] exists yet. *)
Theorem stale_root_listing src persisted files0 clock pass old :
  build src true persisted files0 clock = Returns pass ->
  hasNewPosts pass = true ->
  (forall post, In post (posts pass) -> slug post <> js "index") ->
  files0 !! js "index.html" = Some old ->
  (forall l, src_static src = Some l -> ~ In (js "index.html") (List.map fst l)) ->
  ~ In (js "index.html") (writes pass) /\
  files (out pass) !! js "index.html" = Some old.
Proof.
  intros Hb _ Hposts Hold Hstatic.
  destruct (build_stages _ _ _ _ _ _ Hb)
    as (st & d1 & d2 & d3 & sitemap & E0 & E1 & E2 & E3 & E4 & Hout & Hp & _).
  rewrite Hp in Hposts.
  assert (K0 : keeps indexHtml old {| files := files0; written := [] |})
    by (split; [exact Hold | intros []]).
  pose proof (loop_keeps old _ _ _ _ _ _ _ _ _ Hposts E0 K0) as Kst.
  assert (K1 : keeps indexHtml old d1).
  { destruct (fst st || negb true); [| injection E1 as <-; exact Kst].
    unfold rebuildIndex in E1. rewrite (find_index_none _ Hposts) in E1.
    injection E1 as <-. exact Kst. }
  pose proof (buildTagPages_keeps old _ _ _ _ _ E2 K1) as K2.
  pose proof (buildPaginationPages_keeps old _ _ _ _ _ E3 K2) as K3.
  assert (K : keeps indexHtml old (out pass)).
  { rewrite Hout. apply copy404_keeps, copyStatic_keeps; [exact Hstatic |].
    apply writeFile_keeps; [discriminate |].
    apply writeFile_keeps; [discriminate | exact K3]. }
  destruct K as [Kf Kw]. split; [| exact Kf].
  unfold writes. intros Hin. apply Kw.
  apply in_map_iff in Hin as [e [He Hin]]. apply in_map_iff. exists e.
  split; [exact He | apply in_rev; exact Hin].
Qed.

End WithBuiltins.

(** The sample blog: the incremental pass after a post was added
    rebuilds that post and regenerates the first pagination page, which
    lists it; the root page is left as the first pass wrote it and does
    not list it. *)
Lemma stale_root_listing_witness :
  let pass := Sample.passOf Sample.secondPass in
  Sample.secondPass = Returns pass /\
  hasNewPosts pass = true /\
  In (js "third.html") (writes pass) /\
  In (js "page/1.html") (writes pass) /\
  (~ In (js "index.html") (writes pass) /\
   files (out pass) !! js "index.html" =
   Sample.filesAfter Sample.firstPass !! js "index.html") /\
  exists listing root,
    files (out pass) !! js "page/1.html" = Some listing /\
    files (out pass) !! js "index.html" = Some root /\
    includes listing (js "third.html") = true /\
    includes root (js "third.html") = false.
Proof.
  intros pass.
  assert (E : Sample.secondPass = Returns pass) by (vm_compute; reflexivity).
  split; [exact E |].
  split; [vm_compute; reflexivity |].
  split; [vm_compute; tauto |].
  split; [vm_compute; tauto |].
  split.
  - set (old := default [] (Sample.filesAfter Sample.firstPass !! js "index.html")).
    replace (Sample.filesAfter Sample.firstPass !! js "index.html") with (Some old)
      by (vm_compute; reflexivity).
    apply (@stale_root_listing Sample.builtins Sample.fragments Sample.blogLater
             (Sample.cacheAfter Sample.firstPass) (Sample.filesAfter Sample.firstPass)
             (Sample.clockAt 1793674200000) pass old E).
    + vm_compute. reflexivity.
    + intros post Hin. vm_compute in Hin.
      destruct Hin as [<- | [<- | [<- | []]]]; vm_compute; discriminate.
    + vm_compute. reflexivity.
    + intros l Hl. vm_compute in Hl. discriminate.
  - eexists. eexists.
    split; [vm_compute; reflexivity |].
    split; [vm_compute; reflexivity |].
    split; vm_compute; reflexivity.
Defined.

(** *** Two full builds of the same sources *)

Lemma agreeExcept_refl k m : agreeExcept k m m.
Proof. intros path _. reflexivity. Qed.

Lemma writeFile_agree k rel data d d' :
  agreeExcept k (files d) (files d') ->
  agreeExcept k (files (writeFile rel data d)) (files (writeFile rel data d')).
Proof.
  intros Ha path Hp. simpl. destruct (decide (rel = path)) as [-> | Hne].
  - rewrite !lookup_insert_eq. reflexivity.
  - rewrite !lookup_insert_ne by exact Hne. apply Ha, Hp.
Qed.

Lemma writeFile_differ k x y d :
  agreeExcept k (files (writeFile k x d)) (files (writeFile k y d)).
Proof.
  intros path Hp. simpl. rewrite !lookup_insert_ne by congruence. reflexivity.
Qed.

Lemma fold_writeFile_agree k (l : list (jsstring * jsstring)) d d' :
  agreeExcept k (files d) (files d') ->
  agreeExcept k (files (fold_left (fun d e => writeFile (fst e) (snd e) d) l d))
    (files (fold_left (fun d e => writeFile (fst e) (snd e) d) l d')).
Proof.
  revert d d'. induction l as [| e l IH]; intros d d' Ha; simpl; [exact Ha |].
  apply IH, writeFile_agree, Ha.
Qed.

Lemma finish_agree k src d d' :
  agreeExcept k (files d) (files d') ->
  agreeExcept k (files (copy404 src (copyStatic src d)))
    (files (copy404 src (copyStatic src d'))).
Proof.
  intros Ha. unfold copy404, copyStatic.
  destruct (src_404 src); [apply writeFile_agree |];
    (destruct (src_static src); [apply fold_writeFile_agree |]); exact Ha.
Qed.

Section WithBuiltins.
Context `{Builtins} `{Fragments}.

Lemma parseMarkdownFile_dated now1 now2 pagesDir file fileContent :
  dated fileContent ->
  parseMarkdownFile now1 pagesDir file fileContent =
  parseMarkdownFile now2 pagesDir file fileContent.
Proof.
  intros [c [d Hd]]. unfold parseMarkdownFile.
  destruct (matter fileContent) as [frontmatter markdown]. simpl in Hd.
  rewrite Hd. reflexivity.
Qed.

Lemma parseFrom_dated clock1 clock2 pagesDir i pages :
  (forall file fileContent, In (file, fileContent) pages -> dated fileContent) ->
  parseFrom clock1 pagesDir i pages = parseFrom clock2 pagesDir i pages.
Proof.
  revert i. induction pages as [| [file fileContent] pages IH]; intros i Hd; simpl;
    [reflexivity |].
  rewrite (parseMarkdownFile_dated (parseInstant clock1 i) (parseInstant clock2 i))
    by (apply (Hd file); left; reflexivity).
  rewrite IH by (intros f c Hin; apply (Hd f); right; exact Hin).
  reflexivity.
Qed.

(** C3 as amended: two full builds of the same unchanged sources, every
    document of which declares a date, end alike (both complete, or both
    throw, or neither ends), and when they complete their output trees
    hold the same bytes in every file other than [rss.xml], whose
    [lastBuildDate] is the instant of the build; they hold the same
    bytes throughout when both builds read the same instant there. *)
Theorem full_build_repeatable src persisted1 files1 persisted2 files2
    clock1 clock2 :
  (forall file fileContent,
     In (file, fileContent) (src_pages src) -> dated fileContent) ->
  match build src false persisted1 files1 clock1,
        build src false persisted2 files2 clock2 with
  | Returns a, Returns b =>
      agreeExcept (js "rss.xml") (files (out a)) (files (out b)) /\
      (rssInstant clock1 = rssInstant clock2 -> files (out a) = files (out b)) /\
      posts a = posts b /\ savedCache a = savedCache b
  | Throws, Throws => True
  | Diverges, Diverges => True
  | _, _ => False
  end.
Proof.
  intros Hd. unfold build. cbv zeta.
  rewrite (parseFrom_dated clock1 clock2 _ 0%nat _ Hd).
  set (all := parseFrom clock2 (src_pagesDir src) 0 (src_pages src)).
  destruct (foldM _ all _) as [st | |]; cbn [bind]; try exact I.
  destruct (if fst st || negb false then _ else _) as [d1 | |]; cbn [bind];
    try exact I.
  destruct (buildTagPages all _ _ d1) as [d2 | |]; cbn [bind]; try exact I.
  destruct (buildPaginationPages all _ _ d2) as [d3 | |]; cbn [bind]; try exact I.
  destruct (Feeds.generateSitemap all _) as [sitemap | |]; cbn [bind]; try exact I.
  cbn [out posts savedCache]. split; [| split; [| split; reflexivity]].
  - apply finish_agree, writeFile_agree, writeFile_differ.
  - intros ->. reflexivity.
Qed.

End WithBuiltins.

Lemma sample_dated file fileContent :
  In (file, fileContent) (src_pages Sample.blog) ->
  @dated Sample.builtins fileContent.
Proof.
  intros Hin. vm_compute in Hin.
  destruct Hin as [[= <- <-] | [[= <- <-] | []]]; eexists; eexists;
    vm_compute; reflexivity.
Qed.

(** The sample blog built twice, the second time on the output of the
    first: the trees agree outside [rss.xml]. *)
Lemma full_build_repeatable_witness :
  let a := Sample.passOf Sample.firstPass in
  let b := Sample.passOf Sample.repeatedPass in
  Sample.firstPass = Returns a /\ Sample.repeatedPass = Returns b /\
  agreeExcept (js "rss.xml") (files (out a)) (files (out b)).
Proof.
  intros a b.
  assert (Ea : Sample.firstPass = Returns a) by (vm_compute; reflexivity).
  assert (Eb : Sample.repeatedPass = Returns b) by (vm_compute; reflexivity).
  split; [exact Ea |]. split; [exact Eb |].
  pose proof (@full_build_repeatable Sample.builtins Sample.fragments Sample.blog
                ∅ ∅ (Sample.cacheAfter Sample.firstPass)
                (Sample.filesAfter Sample.firstPass)
                (Sample.clockAt 1793674140000) (Sample.clockAt 1793674141000)
                sample_dated) as Hr.
  fold Sample.firstPass Sample.repeatedPass in Hr. rewrite Ea, Eb in Hr.
  apply Hr.
Defined.

(** C3 refuted as stated: the sample blog built twice in full, one
    second apart, on unchanged sources: the two [rss.xml] differ. *)
Lemma full_builds_differ :
  Sample.filesAfter Sample.firstPass !! js "rss.xml" <>
  Sample.filesAfter Sample.repeatedPass !! js "rss.xml".
Proof.
  apply (bool_decide_eq_false_1
           (Sample.filesAfter Sample.firstPass !! js "rss.xml" =
            Sample.filesAfter Sample.repeatedPass !! js "rss.xml")).
  vm_compute. reflexivity.
Qed.

End AssemblerProps.

(** * Further properties of the code *)

(** ** String equality *)

Module StringProps.

Lemma streq_sym a b : streq a b = streq b a.
Proof.
  unfold streq. destruct (bool_decide (a = b)) eqn:E.
  - apply bool_decide_eq_true_1 in E. subst. symmetry.
    apply bool_decide_eq_true_2. reflexivity.
  - apply bool_decide_eq_false_1 in E. symmetry. apply bool_decide_eq_false_2.
    congruence.
Qed.

Lemma streq_eq a b : streq a b = true -> a = b.
Proof. unfold streq. apply bool_decide_eq_true_1. Qed.

Lemma streq_neq a b : streq a b = false -> a <> b.
Proof. unfold streq. apply bool_decide_eq_false_1. Qed.

Lemma streq_same a : streq a a = true.
Proof. unfold streq. apply bool_decide_eq_true_2. reflexivity. Qed.

End StringProps.

(** ** Pagination *)

Module PaginateProps.
Import Lists Paginate.

Lemma firstn_add {A : Type} (n m : nat) (x : list A) :
  firstn (n + m) x = firstn n x ++ firstn m (skipn n x).
Proof.
  revert x. induction n as [| n IH]; intros x; simpl; [reflexivity |].
  destruct x as [| a x]; simpl; [rewrite List.firstn_nil; reflexivity |].
  rewrite IH. reflexivity.
Qed.

(** Consecutive slices of width [n] put end to end. *)
Lemma chunks_concat {A : Type} (l : list A) (n : nat) k a :
  concat (List.map (fun i => slice l (i * n) (i * n + n)) (seq a k)) =
  firstn (k * n) (skipn (a * n) l).
Proof.
  revert a. induction k as [| k IH]; intros a; [reflexivity |].
  cbn [seq List.map concat]. rewrite IH. unfold slice.
  replace (a * n + n - a * n)%nat with n by lia.
  replace (S k * n)%nat with (n + k * n)%nat by lia.
  rewrite firstn_add. f_equal. f_equal.
  rewrite List.skipn_skipn. reflexivity.
Qed.

Lemma ceilDiv_nat (L : nat) (perPage : N) :
  0 < perPage ->
  N.to_nat (ceilDiv (N.of_nat L) perPage) =
  ((L + N.to_nat perPage - 1) / N.to_nat perPage)%nat.
Proof.
  intros Hp. unfold ceilDiv. rewrite N2Nat.inj_div, N2Nat.inj_sub, N2Nat.inj_add.
  rewrite Nat2N.id. reflexivity.
Qed.

Lemma ceil_bounds (L n : nat) :
  (0 < n)%nat ->
  let T := ((L + n - 1) / n)%nat in
  (L <= T * n)%nat /\ (forall i, (i < T)%nat -> (i * n < L)%nat).
Proof.
  intros Hn T.
  pose proof (Nat.div_mod_eq (L + n - 1) n) as E.
  pose proof (Nat.mod_upper_bound (L + n - 1) n ltac:(lia)) as B.
  fold T in E. split; [nia |]. intros i Hi. nia.
Qed.

Lemma lookup_map {A B : Type} (f : A -> B) (l : list A) (k : nat) :
  List.map f l !! k = option_map f (l !! k).
Proof.
  revert k. induction l as [| a l IH]; intros [| k]; simpl; try reflexivity.
  apply IH.
Qed.

Lemma paginate_pages (pitems : list Post) (perPage : N) :
  0 < perPage ->
  paginate pitems perPage =
  Some (List.map (pageAt pitems perPage (ceilDiv (N.of_nat (length pitems)) perPage))
          (seq 0 (N.to_nat (ceilDiv (N.of_nat (length pitems)) perPage)))).
Proof.
  intros Hp. unfold paginate. destruct (perPage =? 0) eqn:E; [| reflexivity].
  apply N.eqb_eq in E. lia.
Qed.

Lemma pages_lookup (pitems : list Post) (perPage total : N) (T k : nat) page :
  List.map (pageAt pitems perPage total) (seq 0 T) !! k = Some page ->
  (k < T)%nat /\ page = pageAt pitems perPage total k.
Proof.
  rewrite lookup_map. destruct (seq 0 T !! k) as [i |] eqn:E; simpl; [| discriminate].
  apply lookup_seq in E as [-> Hk]. intros [= <-]. split; [exact Hk | reflexivity].
Qed.

(** X1 (paginate): with a positive page size no post is lost, repeated
    or moved: the pages' items put end to end are the list that was
    passed; there are ceil(n / perPage) pages; every page holds at least
    one and at most [perPage] posts, and every page but the last is
    full. *)
Theorem paginate_partition (pitems : list Post) (perPage : N) :
  0 < perPage ->
  exists pages,
    paginate pitems perPage = Some pages /\
    concat (List.map items pages) = pitems /\
    N.of_nat (length pages) = ceilDiv (N.of_nat (length pitems)) perPage /\
    forall k page,
      pages !! k = Some page ->
      (0 < length (items page) <= N.to_nat perPage)%nat /\
      ((S k < length pages)%nat -> length (items page) = N.to_nat perPage).
Proof.
  intros Hp. eexists. split; [apply paginate_pages; exact Hp |].
  set (total := ceilDiv (N.of_nat (length pitems)) perPage).
  set (n := N.to_nat perPage).
  assert (Hn : (0 < n)%nat) by (unfold n; lia).
  assert (HT : N.to_nat total = ((length pitems + n - 1) / n)%nat)
    by (apply ceilDiv_nat; exact Hp).
  destruct (ceil_bounds (length pitems) n Hn) as [Hcover Hlow].
  rewrite <- HT in Hcover, Hlow.
  split; [| split].
  - rewrite List.map_map.
    change (fun x => items (pageAt pitems perPage total x))
      with (fun i => slice pitems (i * n) (i * n + n)).
    rewrite chunks_concat. simpl. apply List.firstn_all2. exact Hcover.
  - rewrite List.length_map, List.length_seq. apply N2Nat.id.
  - intros k page Hk. apply pages_lookup in Hk as [Hk ->].
    rewrite List.length_map, List.length_seq.
    change (items (pageAt pitems perPage total k))
      with (slice pitems (k * n) (k * n + n)).
    unfold slice. rewrite List.length_firstn, List.length_skipn.
    pose proof (Hlow k Hk) as Hlow0. split; [lia |].
    intros Hnext. pose proof (Hlow (S k) Hnext) as Hlow1. lia.
Qed.

Lemma paginate_partition_witness :
  exists pages,
    paginate [RelatedSpec.postA; RelatedSpec.postB; RelatedSpec.postC] 2 = Some pages /\
    List.map (fun page => List.map slug (items page)) pages = [[js "a"; js "b"]; [js "c"]].
Proof.
  destruct (paginate_partition
              [RelatedSpec.postA; RelatedSpec.postB; RelatedSpec.postC] 2 ltac:(lia))
    as [pages [Hp _]].
  exists pages. split; [exact Hp |].
  vm_compute in Hp. injection Hp as <-. reflexivity.
Defined.

Lemma pages_numbered (pitems : list Post) (perPage : N) (pages : list Page) :
  paginate pitems perPage = Some pages ->
  forall page, In page pages -> 0 < currentPage page.
Proof.
  unfold paginate. destruct (perPage =? 0).
  - destruct pitems; [| discriminate]. intros [= <-] page [].
  - intros [= <-] page Hin. apply in_map_iff in Hin as [i [<- _]]. simpl. lia.
Qed.

(** X2 (paginate): the navigation of a page never dangles.  The [k]-th
    page is numbered [k + 1] and knows the number of pages; its
    [nextPage] is the number of the page that follows it in the result
    and [null] on the last page, its [prevPage] the number of the page
    before it and [null] on the first, and [hasNext]/[hasPrev] tell
    whether those pages exist. *)
Theorem paginate_links (pitems : list Post) (perPage : N) (pages : list Page) :
  paginate pitems perPage = Some pages ->
  forall k page,
    pages !! k = Some page ->
    currentPage page = N.of_nat k + 1 /\
    totalPages page = N.of_nat (length pages) /\
    nextPage page = option_map currentPage (pages !! S k) /\
    prevPage page = match k with
                    | O => None
                    | S j => option_map currentPage (pages !! j)
                    end /\
    hasNext page = bool_decide (is_Some (pages !! S k)) /\
    hasPrev page = bool_decide (0 < k)%nat.
Proof.
  unfold paginate. destruct (perPage =? 0) eqn:E.
  - destruct pitems; [| discriminate]. intros [= <-] k page Hk. destruct k; discriminate.
  - intros [= <-] k page Hk.
    set (total := ceilDiv (N.of_nat (length pitems)) perPage) in *.
    pose proof Hk as Hk'. apply pages_lookup in Hk' as [Hlt ->].
    rewrite List.length_map, List.length_seq, N2Nat.id.
    split; [reflexivity |]. split; [reflexivity |].
    assert (Hnext : (N.of_nat k <? total - 1) = bool_decide (S k < N.to_nat total)%nat).
    { destruct (N.ltb_spec (N.of_nat k) (total - 1));
        symmetry; [apply bool_decide_eq_true_2 | apply bool_decide_eq_false_2]; lia. }
    assert (Hsucc : List.map (pageAt pitems perPage total) (seq 0 (N.to_nat total)) !! S k
                    = if bool_decide (S k < N.to_nat total)%nat
                      then Some (pageAt pitems perPage total (S k)) else None).
    { rewrite lookup_map. case_bool_decide as Hd.
      - rewrite (proj2 (lookup_seq 0 (N.to_nat total) (S k) (S k))); [reflexivity |].
        split; [reflexivity | exact Hd].
      - rewrite (lookup_ge_None_2 (seq 0 (N.to_nat total)) (S k)); [reflexivity |].
        rewrite List.length_seq. lia. }
    rewrite Hsucc. cbn [nextPage prevPage hasNext hasPrev pageAt]. rewrite Hnext.
    split; [| split; [| split]].
    + case_bool_decide; simpl; [f_equal; lia | reflexivity].
    + destruct k as [| j]; [reflexivity |].
      replace (0 <? N.of_nat (S j)) with true by (symmetry; apply N.ltb_lt; lia).
      rewrite lookup_map.
      rewrite (proj2 (lookup_seq 0 (N.to_nat total) j j)); [| split; [reflexivity | lia]].
      simpl. f_equal. lia.
    + case_bool_decide; symmetry;
        [apply bool_decide_eq_true_2; eexists; reflexivity
        | apply bool_decide_eq_false_2; intros [x Hx]; discriminate].
    + destruct (N.ltb_spec 0 (N.of_nat k));
        symmetry; [apply bool_decide_eq_true_2 | apply bool_decide_eq_false_2]; lia.
Qed.

Lemma paginate_links_witness :
  let posts := [RelatedSpec.postA; RelatedSpec.postB; RelatedSpec.postC] in
  let pages := List.map (pageAt posts 2 2) [0; 1]%nat in
  let page := pageAt posts 2 2 0 in
  paginate posts 2 = Some pages /\ pages !! 0%nat = Some page /\
  nextPage page = Some 2 /\ prevPage page = None.
Proof.
  intros posts pages page. split; [reflexivity |]. split; [reflexivity |].
  destruct (paginate_links posts 2 pages eq_refl 0 page eq_refl)
    as (_ & _ & Hn & Hp & _).
  split; [exact Hn | exact Hp].
Defined.

End PaginateProps.

(** ** Escaping, reading time, feeds *)

Module FeedsProps.
Import Feeds Builder FeedsSpec.

Lemma replaceChar_flat_map (c : N) (r : jsstring) (f : N -> jsstring) s :
  replaceChar c r (flat_map f s) = flat_map (fun x => replaceChar c r (f x)) s.
Proof.
  unfold replaceChar. induction s as [| x s IH]; simpl; [reflexivity |].
  rewrite List.flat_map_app, IH. reflexivity.
Qed.

Ltac entity_case x n :=
  let E := fresh "E" in
  destruct (x =? n) eqn:E; [apply N.eqb_eq in E; subst x |].

Ltac entity_cases x :=
  entity_case x 38;
    [| entity_case x 60;
         [| entity_case x 62; [| entity_case x 34; [| entity_case x 39]]]].

(** The five replacements of [escapeXml], made one after the other,
    amount to one pass that maps every character to its entity. *)
Lemma escapeXml_one_pass s : escapeXml s = flat_map xmlEntity s.
Proof.
  destruct s as [| c s]; [reflexivity |]. unfold escapeXml.
  change (replaceChar 38 (js "&amp;") (c :: s))
    with (flat_map (fun x => if x =? 38 then js "&amp;" else [x]) (c :: s)).
  rewrite !replaceChar_flat_map. apply List.flat_map_ext. intros x.
  unfold xmlEntity, replaceChar. entity_cases x; simpl; try reflexivity.
  repeat (match goal with E : (x =? _) = false |- _ => rewrite E; clear E end;
          simpl).
  reflexivity.
Qed.

Lemma escapeHtml_one_pass s : escapeHtml s = flat_map htmlEntity s.
Proof.
  destruct s as [| c s]; [reflexivity |]. unfold escapeHtml.
  change (replaceChar 38 (js "&amp;") (c :: s))
    with (flat_map (fun x => if x =? 38 then js "&amp;" else [x]) (c :: s)).
  rewrite !replaceChar_flat_map. apply List.flat_map_ext. intros x.
  unfold htmlEntity, replaceChar. entity_cases x; simpl; try reflexivity.
  repeat (match goal with E : (x =? _) = false |- _ => rewrite E; clear E end;
          simpl).
  reflexivity.
Qed.

Lemma xmlEntity_no_markup x c : In c (xmlEntity x) -> isMarkup c = false.
Proof.
  unfold xmlEntity, isMarkup. entity_cases x; simpl; intros Hin;
    repeat (destruct Hin as [<- | Hin]; [try reflexivity |]); try contradiction.
  repeat match goal with E : (_ =? _) = false |- _ => rewrite E; clear E end.
  reflexivity.
Qed.

Lemma htmlEntity_no_markup x c : In c (htmlEntity x) -> isMarkup c = false.
Proof.
  unfold htmlEntity, isMarkup. entity_cases x; simpl; intros Hin;
    repeat (destruct Hin as [<- | Hin]; [try reflexivity |]); try contradiction.
  repeat match goal with E : (_ =? _) = false |- _ => rewrite E; clear E end.
  reflexivity.
Qed.

(** X3 (escapeXml, escapeHtml): the escaped text holds none of the
    characters that open or close a tag or an attribute value, whatever
    the input; and escaping distributes over concatenation, so text
    escaped piece by piece is the escaped whole. *)
Theorem escape_no_markup :
  (forall s c, In c (escapeXml s) -> isMarkup c = false) /\
  (forall s c, In c (escapeHtml s) -> isMarkup c = false) /\
  (forall a b, escapeXml (a ++ b) = escapeXml a ++ escapeXml b) /\
  (forall a b, escapeHtml (a ++ b) = escapeHtml a ++ escapeHtml b).
Proof.
  split; [| split; [| split]].
  - intros s c. rewrite escapeXml_one_pass. intros Hin.
    apply in_flat_map in Hin as [x [_ Hx]]. apply (xmlEntity_no_markup x c Hx).
  - intros s c. rewrite escapeHtml_one_pass. intros Hin.
    apply in_flat_map in Hin as [x [_ Hx]]. apply (htmlEntity_no_markup x c Hx).
  - intros a b. rewrite !escapeXml_one_pass. apply List.flat_map_app.
  - intros a b. rewrite !escapeHtml_one_pass. apply List.flat_map_app.
Qed.

Lemma flat_xmlEntity_inj a b :
  flat_map xmlEntity a = flat_map xmlEntity b -> a = b.
Proof.
  revert b. induction a as [| x a IH]; intros [| y b]; simpl.
  - reflexivity.
  - unfold xmlEntity. entity_cases y; discriminate.
  - unfold xmlEntity. entity_cases x; discriminate.
  - unfold xmlEntity. entity_cases x; entity_cases y; simpl; intros Heq;
      try discriminate;
      try (injection Heq as Heq; f_equal; apply IH; exact Heq);
      try (injection Heq as -> Heq; f_equal; apply IH; exact Heq);
      try (injection Heq as -> Heq; discriminate);
      try (injection Heq as <- Heq; discriminate).
Qed.

Lemma flat_htmlEntity_inj a b :
  flat_map htmlEntity a = flat_map htmlEntity b -> a = b.
Proof.
  revert b. induction a as [| x a IH]; intros [| y b]; simpl.
  - reflexivity.
  - unfold htmlEntity. entity_cases y; discriminate.
  - unfold htmlEntity. entity_cases x; discriminate.
  - unfold htmlEntity. entity_cases x; entity_cases y; simpl; intros Heq;
      try discriminate;
      try (injection Heq as Heq; f_equal; apply IH; exact Heq);
      try (injection Heq as -> Heq; f_equal; apply IH; exact Heq);
      try (injection Heq as -> Heq; discriminate);
      try (injection Heq as <- Heq; discriminate).
Qed.

(** X4 (escapeXml, escapeHtml): escaping loses nothing: two texts with
    the same escaped form are the same text. *)
Theorem escape_injective :
  (forall a b, escapeXml a = escapeXml b -> a = b) /\
  (forall a b, escapeHtml a = escapeHtml b -> a = b).
Proof.
  split; intros a b.
  - rewrite !escapeXml_one_pass. apply flat_xmlEntity_inj.
  - rewrite !escapeHtml_one_pass. apply flat_htmlEntity_inj.
Qed.

(** *** Reading time *)

Lemma dropSpace_head c s : Utils.isSpace c = false -> Utils.dropSpace (c :: s) = c :: s.
Proof. intros E. simpl. rewrite E. reflexivity. Qed.

Lemma trim_fixed_ends c s d :
  Utils.isSpace c = false -> Utils.isSpace d = false ->
  Utils.trim (c :: s ++ [d]) = c :: s ++ [d].
Proof.
  intros Hc Hd. unfold Utils.trim. rewrite dropSpace_head by exact Hc.
  assert (E : rev (c :: s ++ [d]) = d :: rev (c :: s)).
  { change (c :: s ++ [d]) with ((c :: s) ++ [d]). rewrite List.rev_app_distr.
    reflexivity. }
  rewrite E, dropSpace_head by exact Hd.
  change (rev (d :: rev (c :: s))) with (rev (rev (c :: s)) ++ [d]).
  rewrite List.rev_involutive. reflexivity.
Qed.

Lemma trim_fixed_single c : Utils.isSpace c = false -> Utils.trim [c] = [c].
Proof. intros Hc. unfold Utils.trim. simpl. rewrite Hc. simpl. rewrite Hc. reflexivity. Qed.

Lemma countRuns_word w rest inRun :
  forallb (fun c => negb (Utils.isSpace c)) w = true -> w <> [] ->
  countRuns Utils.isSpace inRun (w ++ rest) = countRuns Utils.isSpace false rest.
Proof.
  revert inRun. induction w as [| c w IH]; intros inRun Hw Hne; [congruence |].
  simpl in Hw. apply andb_true_iff in Hw as [Hc Hw].
  apply negb_true_iff in Hc. simpl. rewrite Hc.
  destruct w as [| c' w']; [reflexivity |]. apply IH; [exact Hw | discriminate].
Qed.

Lemma countRuns_words ws :
  ws <> [] -> Forall isWord ws ->
  countRuns Utils.isSpace false (join (js " ") ws) + 1 = N.of_nat (length ws).
Proof.
  induction ws as [| w ws IH]; intros Hne Hall; [congruence |].
  inversion Hall as [| w0 ws0 [Hw0 Hw] Hrest]; subst.
  destruct ws as [| w' ws'].
  - simpl. rewrite <- (app_nil_r w). rewrite countRuns_word by assumption.
    reflexivity.
  - change (join (js " ") (w :: w' :: ws'))
      with (w ++ js " " ++ join (js " ") (w' :: ws')).
    rewrite countRuns_word by assumption.
    change (js " " ++ join (js " ") (w' :: ws'))
      with (32 :: join (js " ") (w' :: ws')).
    cbn [countRuns]. change (Utils.isSpace 32) with true. cbv iota.
    assert (Hhead : countRuns Utils.isSpace true (join (js " ") (w' :: ws')) =
                    countRuns Utils.isSpace false (join (js " ") (w' :: ws'))).
    { inversion Hrest as [| w1 ws1 [Hw1 Hw1'] _]; subst.
      destruct ws' as [| w'' ws''].
      - simpl. rewrite <- (app_nil_r w').
        rewrite (countRuns_word w' [] true), (countRuns_word w' [] false) by assumption.
        reflexivity.
      - change (join (js " ") (w' :: w'' :: ws''))
          with (w' ++ js " " ++ join (js " ") (w'' :: ws'')).
        rewrite (countRuns_word w' _ true), (countRuns_word w' _ false) by assumption.
        reflexivity. }
    rewrite Hhead. specialize (IH ltac:(discriminate) Hrest).
    cbn [length] in IH |- *. lia.
Qed.

Lemma join_ends ws :
  ws <> [] -> Forall isWord ws ->
  (exists c, join (js " ") ws = [c] /\ Utils.isSpace c = false) \/
  (exists c s d, join (js " ") ws = c :: s ++ [d] /\
                 Utils.isSpace c = false /\ Utils.isSpace d = false).
Proof.
  intros Hne Hall.
  assert (Hshape : forall w, isWord w ->
            (exists c, w = [c] /\ Utils.isSpace c = false) \/
            (exists c s d, w = c :: s ++ [d] /\ Utils.isSpace c = false /\
                           Utils.isSpace d = false)).
  { intros w [Hw0 Hw]. destruct w as [| c w]; [congruence |].
    simpl in Hw. apply andb_true_iff in Hw as [Hc Hw]. apply negb_true_iff in Hc.
    destruct (exists_last (l:=c :: w) ltac:(discriminate)) as [s [d E]].
    destruct s as [| c0 s].
    - left. exists c. simpl in E. injection E as <- ->. split; [reflexivity | exact Hc].
    - right. simpl in E. injection E as <- ->. exists c, s, d.
      split; [reflexivity |]. split; [exact Hc |].
      rewrite forallb_app in Hw. apply andb_true_iff in Hw as [_ Hd].
      simpl in Hd. rewrite andb_true_r in Hd. apply negb_true_iff in Hd. exact Hd. }
  induction ws as [| w ws IH]; [congruence |].
  inversion Hall as [| w0 ws0 Hw Hrest]; subst.
  destruct ws as [| w' ws']; [apply Hshape; exact Hw |].
  right. change (join (js " ") (w :: w' :: ws'))
           with (w ++ js " " ++ join (js " ") (w' :: ws')).
  specialize (IH ltac:(discriminate) Hrest).
  assert (Htail : exists s d, js " " ++ join (js " ") (w' :: ws') = s ++ [d] /\
                              Utils.isSpace d = false).
  { destruct IH as [[c [E Hc]] | [c [s [d [E [Hc Hd]]]]]]; rewrite E.
    - exists (js " "), c. split; [reflexivity | exact Hc].
    - exists (js " " ++ c :: s), d. split; [| exact Hd].
      rewrite <- app_assoc. reflexivity. }
  destruct Htail as [s [d [E Hd]]]. rewrite E.
  destruct Hw as [Hw0 Hw]. destruct w as [| c w]; [congruence |].
  simpl in Hw. apply andb_true_iff in Hw as [Hc _]. apply negb_true_iff in Hc.
  exists c, (w ++ s), d. split; [| split; assumption].
  simpl. rewrite <- app_assoc. reflexivity.
Qed.

(** X5 (calculateReadingTime): the result is never zero, not even for
    the empty text; and for a text of [n] words separated by single
    spaces it is [n] / 200 rounded up. *)
Theorem reading_time_words :
  (forall text, 1 <= calculateReadingTime text) /\
  (forall ws, ws <> [] -> Forall isWord ws ->
     calculateReadingTime (join (js " ") ws) = (N.of_nat (length ws) + 199) / 200).
Proof.
  split.
  - intros text. unfold calculateReadingTime. cbv zeta.
    apply N.div_le_lower_bound; lia.
  - intros ws Hne Hall. unfold calculateReadingTime. cbv zeta.
    assert (Ht : Utils.trim (join (js " ") ws) = join (js " ") ws).
    { destruct (join_ends ws Hne Hall) as [[c [E Hc]] | [c [s [d [E [Hc Hd]]]]]];
        rewrite E; [apply trim_fixed_single | apply trim_fixed_ends]; assumption. }
    rewrite Ht, countRuns_words by assumption. reflexivity.
Qed.

Lemma reading_time_words_witness :
  calculateReadingTime (js "to be or not to be") = 1.
Proof.
  apply (proj2 reading_time_words (List.map js ["to"; "be"; "or"; "not"; "to"; "be"]%string)).
  - discriminate.
  - repeat constructor; discriminate.
Defined.

(** *** Drafts and dates *)

Lemma filter_published_then (f : Post -> bool) posts :
  (forall p, f p = true -> published p = true) ->
  List.filter f (List.filter published posts) = List.filter f posts.
Proof.
  intros Hf. induction posts as [| p posts IH]; simpl; [reflexivity |].
  destruct (published p) eqn:Ep; simpl.
  - rewrite IH. reflexivity.
  - destruct (f p) eqn:Efp; [| exact IH].
    rewrite (Hf p Efp) in Ep. discriminate.
Qed.

Section WithBuiltins.
Context `{Builtins}.

Lemma mapM_returns {A B : Type} (f : A -> outcome B) l :
  (exists bs, mapM f l = Returns bs) <-> Forall (fun a => exists b, f a = Returns b) l.
Proof.
  induction l as [| a l IH]; simpl.
  - split; [constructor | intros _; eexists; reflexivity].
  - split.
    + intros [bs E]. destruct (f a) as [b | |] eqn:Ea; simpl in E; try discriminate.
      destruct (mapM f l) as [bs' | |]; simpl in E; try discriminate.
      constructor; [exists b; exact Ea | apply IH; eexists; reflexivity].
    + intros Hall. inversion Hall as [| a0 l0 [b Eb] Hrest]; subst.
      apply IH in Hrest as [bs Ebs]. rewrite Eb, Ebs. simpl. eexists. reflexivity.
Qed.

Lemma mapM_not_diverges {A B : Type} (f : A -> outcome B) l :
  (forall a, f a <> Diverges) -> mapM f l <> Diverges.
Proof.
  intros Hf. induction l as [| a l IH]; simpl; [discriminate |].
  specialize (Hf a). destruct (f a); simpl; try congruence.
  destruct (mapM f l); simpl; congruence.
Qed.

Lemma sitemapUrl_returns siteUrl post :
  (exists u, sitemapUrl siteUrl post = Returns u) <-> validDate post.
Proof.
  unfold sitemapUrl, validDate, Dates.toISOString.
  destruct (dateParse (date post)) as [t |]; simpl.
  - destruct (Dates.validTime t) eqn:Ev; simpl.
    + split; [intros _; exists t; split; [reflexivity | exact Ev]
             | intros _; eexists; reflexivity].
    + split; [intros [u E]; discriminate |].
      intros [t' [[= <-] Hv]]. congruence.
  - split; [intros [u E]; discriminate | intros [t [E _]]; discriminate].
Qed.

Lemma generateSitemap_returns posts siteConfig :
  (exists sitemap, generateSitemap posts siteConfig = Returns sitemap) <->
  Forall validDate (List.filter inSitemap posts).
Proof.
  unfold generateSitemap. cbv zeta. fold inSitemap.
  change (fun p : Post => negb (truthy (draft p)) && negb (streq (slug p) (js "index"))
                          && negb (startsWith (slug p) (js "tags/")))
    with inSitemap.
  split.
  - intros [sitemap E].
    destruct (mapM _ (List.filter inSitemap posts)) as [urls | |] eqn:Em;
      simpl in E; try discriminate.
    assert (Hall : Forall (fun a => exists b, sitemapUrl (cfg_siteUrl siteConfig) a = Returns b)
                     (List.filter inSitemap posts))
      by (apply mapM_returns; eexists; exact Em).
    eapply List.Forall_impl; [| exact Hall].
    intros p Hp. apply (sitemapUrl_returns (cfg_siteUrl siteConfig)). exact Hp.
  - intros Hall.
    assert (Hm : exists urls, mapM (sitemapUrl (cfg_siteUrl siteConfig))
                                (List.filter inSitemap posts) = Returns urls).
    { apply mapM_returns. eapply List.Forall_impl; [| exact Hall].
      intros p Hp. apply sitemapUrl_returns. exact Hp. }
    destruct Hm as [urls Em]. rewrite Em. simpl. eexists. reflexivity.
Qed.

(** X6 (generateSitemap): the sitemap is produced exactly when every
    post it lists (every post that is neither a draft, nor the index
    page, nor below [tags/]) has a date that parses to a valid time
    value; a single listed post with an unparsable date makes the call
    throw.  It never fails to end. *)
Theorem sitemap_needs_valid_dates posts siteConfig :
  ((exists sitemap, generateSitemap posts siteConfig = Returns sitemap) <->
   Forall validDate (List.filter inSitemap posts)) /\
  (~ Forall validDate (List.filter inSitemap posts) ->
   generateSitemap posts siteConfig = Throws).
Proof.
  split; [apply generateSitemap_returns |].
  intros Hbad.
  destruct (generateSitemap posts siteConfig) as [sitemap | |] eqn:E.
  - exfalso. apply Hbad. apply (proj1 (generateSitemap_returns posts siteConfig)).
    eexists. exact E.
  - reflexivity.
  - exfalso. revert E. unfold generateSitemap. cbv zeta.
    pose proof (mapM_not_diverges (sitemapUrl (cfg_siteUrl siteConfig))
                  (List.filter
                     (fun p => negb (truthy (draft p)) &&
                               negb (streq (slug p) (js "index")) &&
                               negb (startsWith (slug p) (js "tags/"))) posts)) as Hnd.
    destruct (mapM _ _); simpl; try discriminate.
    intros _. apply Hnd; [| reflexivity].
    intros a. unfold sitemapUrl, Dates.toISOString.
    destruct (dateParse (date a)) as [t |]; simpl; [| discriminate].
    destruct (Dates.validTime t); simpl; discriminate.
Qed.

End WithBuiltins.

Lemma escape_no_markup_witness :
  isMarkup 38 = false /\ escapeXml (js "a<b") = js "a" ++ escapeXml (js "<b").
Proof.
  split.
  - apply (proj1 escape_no_markup (js "<a>") 38). vm_compute. tauto.
  - apply (proj1 (proj2 (proj2 escape_no_markup)) (js "a") (js "<b")).
Defined.

Lemma escape_injective_witness :
  escapeHtml (js "a<b") = js "a&lt;b" /\ js "a<b" = js "a<b".
Proof.
  split; [vm_compute; reflexivity |].
  apply (proj2 escape_injective (js "a<b") (js "a<b")). reflexivity.
Defined.

Lemma sitemap_needs_valid_dates_witness :
  (exists sitemap,
     @generateSitemap Sample.builtins [RelatedSpec.postA] Sample.config =
     Returns sitemap) /\
  @generateSitemap Sample.builtins [RelatedSpec.postA; Scenarios.vaguePost]
    Sample.config = Throws.
Proof.
  split.
  - apply (proj2 (proj1 (@sitemap_needs_valid_dates Sample.builtins
                           [RelatedSpec.postA] Sample.config))).
    constructor; [| constructor].
    exists 1704240000000%Z. split; vm_compute; reflexivity.
  - apply (proj2 (@sitemap_needs_valid_dates Sample.builtins
                    [RelatedSpec.postA; Scenarios.vaguePost] Sample.config)).
    intros Hall. inversion Hall as [| p l _ Hrest]. subst.
    inversion Hrest as [| q l' [t [Ht _]] _]. vm_compute in Ht. discriminate.
Defined.

End FeedsProps.

(** ** Grouping the posts by tag *)

Module TagProps.
Import Template Builder Assembler AssemblerSpec AssemblerProps.
Import FeedsSpec PassSpec StringProps.

Lemma groupAt_pushTag o t post tag :
  groupAt (pushTag o t post) tag =
  groupAt o tag ++ (if streq tag t then [post] else []).
Proof.
  unfold groupAt. induction o as [| [k l] rest IH]; simpl.
  - rewrite (streq_sym t tag). destruct (streq tag t); reflexivity.
  - destruct (streq k t) eqn:Ekt; simpl.
    + apply streq_eq in Ekt. subst k. rewrite (streq_sym t tag).
      destruct (streq tag t); [reflexivity | rewrite app_nil_r; reflexivity].
    + destruct (streq k tag) eqn:Ek; [| exact IH].
      apply streq_eq in Ek. subst k. rewrite Ekt.
      rewrite app_nil_r. reflexivity.
Qed.

Lemma hasOwn_In {V : Type} (o : list (jsstring * V)) k :
  hasOwn o k = true <-> In k (keysOf o).
Proof.
  unfold hasOwn, keysOf. rewrite existsb_exists. split.
  - intros [e [He Hk]]. apply streq_eq in Hk. subst k. apply in_map. exact He.
  - intros Hin. apply in_map_iff in Hin as [e [<- He]]. exists e.
    split; [exact He | apply streq_same].
Qed.

Lemma keysOf_pushTag o t post :
  keysOf (pushTag o t post) = if hasOwn o t then keysOf o else keysOf o ++ [t].
Proof.
  unfold hasOwn, keysOf. induction o as [| [k l] rest IH]; simpl; [reflexivity |].
  destruct (streq k t) eqn:Ekt; simpl; [reflexivity |].
  rewrite IH. destruct (existsb _ rest); reflexivity.
Qed.

Lemma addTag_plain post o tag :
  plainKeys o ->
  addTag post (Returns o) tag =
  if isInheritedKey tag then Throws else Returns (pushTag o tag post).
Proof.
  unfold plainKeys. intros Ho. unfold addTag. simpl.
  destruct (isInheritedKey tag) eqn:Ei.
  - destruct (hasOwn o tag) eqn:Eo; [| reflexivity].
    apply hasOwn_In in Eo. rewrite List.Forall_forall in Ho.
    rewrite (Ho tag Eo) in Ei. discriminate.
  - rewrite andb_false_r. reflexivity.
Qed.

Lemma plainKeys_pushTag o t post :
  plainKeys o -> isInheritedKey t = false -> plainKeys (pushTag o t post).
Proof.
  unfold plainKeys. intros Ho Ht. rewrite keysOf_pushTag.
  destruct (hasOwn o t); [exact Ho |].
  apply Forall_app. split; [exact Ho | constructor; [exact Ht | constructor]].
Qed.

Lemma NoDup_pushTag o t post :
  List.NoDup (keysOf o) -> List.NoDup (keysOf (pushTag o t post)).
Proof.
  intros Ho. rewrite keysOf_pushTag. destruct (hasOwn o t) eqn:E; [exact Ho |].
  apply List.NoDup_app; [exact Ho | repeat constructor; intros [] |].
  intros a Ha [<- | []]. apply hasOwn_In in Ha. congruence.
Qed.

Lemma In_keys_pushTag o t post tag :
  In tag (keysOf (pushTag o t post)) <-> In tag (keysOf o) \/ tag = t.
Proof.
  rewrite keysOf_pushTag. destruct (hasOwn o t) eqn:E.
  - apply hasOwn_In in E. split; [auto |]. intros [Hin | ->]; assumption.
  - rewrite in_app_iff. simpl. split; intros [Hin | Ht]; auto.
    + destruct Ht as [<- | []]. right. reflexivity.
Qed.

Lemma fold_addTag_throws post ts :
  fold_left (addTag post) ts Throws = Throws.
Proof. induction ts as [| t ts IH]; simpl; [reflexivity | exact IH]. Qed.

(** The inner loop over the tags of one post. *)
Lemma fold_addTag_plain post ts o :
  plainKeys o -> Forall (fun t => isInheritedKey t = false) ts ->
  exists o',
    fold_left (addTag post) ts (Returns o) = Returns o' /\
    plainKeys o' /\
    (List.NoDup (keysOf o) -> List.NoDup (keysOf o')) /\
    forall tag,
      groupAt o' tag =
        groupAt o tag ++ List.map (fun _ => post) (List.filter (streq tag) ts) /\
      (In tag (keysOf o') <-> In tag (keysOf o) \/ In tag ts).
Proof.
  revert o. induction ts as [| t ts IH]; intros o Ho Hts.
  - exists o. simpl. split; [reflexivity |]. split; [exact Ho |].
    split; [auto |]. intros tag. rewrite app_nil_r. split; [reflexivity | tauto].
  - inversion Hts as [| t0 ts0 Ht Hrest]; subst.
    cbn [fold_left]. rewrite (addTag_plain post o t Ho), Ht.
    destruct (IH (pushTag o t post) (plainKeys_pushTag o t post Ho Ht) Hrest)
      as [o' [E [Hp [Hnd Hall]]]].
    exists o'. split; [exact E |]. split; [exact Hp |].
    split; [intros Hn; apply Hnd, NoDup_pushTag; exact Hn |].
    intros tag. destruct (Hall tag) as [Hg Hk]. split.
    + rewrite Hg, groupAt_pushTag. cbn [List.filter].
      destruct (streq tag t); cbn [List.map]; rewrite <- app_assoc; reflexivity.
    + rewrite Hk, In_keys_pushTag. cbn [In]. split.
      * intros [[Hin | ->] | Hin]; auto.
      * intros [Hin | [<- | Hin]]; auto.
Qed.

Lemma fold_addTag_reserved post ts o :
  plainKeys o -> Exists (fun t => isInheritedKey t = true) ts ->
  fold_left (addTag post) ts (Returns o) = Throws.
Proof.
  revert o. induction ts as [| t ts IH]; intros o Ho Hex;
    [inversion Hex |].
  cbn [fold_left]. rewrite (addTag_plain post o t Ho).
  destruct (isInheritedKey t) eqn:Et; [apply fold_addTag_throws |].
  apply IH; [apply plainKeys_pushTag; assumption |].
  inversion Hex as [t0 ts0 Ht | t0 ts0 Hrest]; subst; [congruence | exact Hrest].
Qed.

Lemma fold_posts_throws ps :
  fold_left (fun acc post => fold_left (addTag post) (tags post) acc) ps Throws
  = Throws.
Proof.
  induction ps as [| p ps IH]; simpl; [reflexivity |].
  rewrite fold_addTag_throws. exact IH.
Qed.

Lemma reserved_dec ts :
  Forall (fun t => isInheritedKey t = false) ts \/
  Exists (fun t => isInheritedKey t = true) ts.
Proof.
  induction ts as [| t ts [IH | IH]].
  - left. constructor.
  - destruct (isInheritedKey t) eqn:Et; [right; left; exact Et |].
    left. constructor; assumption.
  - right. right. exact IH.
Qed.

(** The outer loop over the posts. *)
Lemma fold_posts_plain ps o :
  plainKeys o -> plainTags ps ->
  exists o',
    fold_left (fun acc post => fold_left (addTag post) (tags post) acc) ps (Returns o)
      = Returns o' /\
    plainKeys o' /\
    (List.NoDup (keysOf o) -> List.NoDup (keysOf o')) /\
    forall tag,
      groupAt o' tag = groupAt o tag ++ groupOf tag ps /\
      (In tag (keysOf o') <->
       In tag (keysOf o) \/ exists p, In p ps /\ In tag (tags p)).
Proof.
  revert o. induction ps as [| p ps IH]; intros o Ho Hps.
  - exists o. simpl. split; [reflexivity |]. split; [exact Ho |].
    split; [auto |]. intros tag. rewrite app_nil_r. split; [reflexivity |].
    split; [auto |]. intros [Hin | [p [[] _]]]. exact Hin.
  - assert (Hp : Forall (fun t => isInheritedKey t = false) (tags p)).
    { apply List.Forall_forall. intros t Ht. apply (Hps p t); [left; reflexivity | exact Ht]. }
    destruct (fold_addTag_plain p (tags p) o Ho Hp) as [o1 [E1 [Hp1 [Hnd1 Hall1]]]].
    assert (Hps' : plainTags ps).
    { intros q t Hq Ht. apply (Hps q t); [right; exact Hq | exact Ht]. }
    destruct (IH o1 Hp1 Hps') as [o' [E [Hp' [Hnd Hall]]]].
    exists o'. cbn [fold_left]. rewrite E1. split; [exact E |].
    split; [exact Hp' |]. split; [auto |].
    intros tag. destruct (Hall tag) as [Hg Hk]. destruct (Hall1 tag) as [Hg1 Hk1].
    split.
    + rewrite Hg, Hg1. unfold groupOf. cbn [flat_map]. rewrite <- app_assoc.
      reflexivity.
    + rewrite Hk, Hk1. split.
      * intros [[Hin | Hin] | [q [Hq Ht]]]; [left; exact Hin | |].
        -- right. exists p. split; [left; reflexivity | exact Hin].
        -- right. exists q. split; [right; exact Hq | exact Ht].
      * intros [Hin | [q [[<- | Hq] Ht]]]; [left; left; exact Hin | |].
        -- left. right. exact Ht.
        -- right. exists q. split; assumption.
Qed.

Lemma fold_posts_reserved ps o :
  plainKeys o -> ~ plainTags ps ->
  fold_left (fun acc post => fold_left (addTag post) (tags post) acc) ps (Returns o)
  = Throws.
Proof.
  revert o. induction ps as [| p ps IH]; intros o Ho Hbad.
  - exfalso. apply Hbad. intros q t [].
  - cbn [fold_left]. destruct (reserved_dec (tags p)) as [Hp | Hp].
    + destruct (fold_addTag_plain p (tags p) o Ho Hp) as [o1 [E1 [Hp1 _]]].
      rewrite E1. apply IH; [exact Hp1 |]. intros Hps. apply Hbad.
      intros q t [<- | Hq] Ht.
      * rewrite List.Forall_forall in Hp. apply Hp. exact Ht.
      * apply (Hps q t Hq Ht).
    + rewrite (fold_addTag_reserved p (tags p) o Ho Hp). apply fold_posts_throws.
Qed.

Lemma plainTags_dec ps : plainTags ps \/ ~ plainTags ps.
Proof.
  induction ps as [| p ps [IH | IH]].
  - left. intros q t [].
  - destruct (reserved_dec (tags p)) as [Hp | Hp].
    + left. intros q t [<- | Hq] Ht; [| apply (IH q t Hq Ht)].
      rewrite List.Forall_forall in Hp. apply Hp. exact Ht.
    + right. intros Hall. apply List.Exists_exists in Hp as [t [Ht Hi]].
      rewrite (Hall p t (or_introl eq_refl) Ht) in Hi. discriminate.
  - right. intros Hall. apply IH. intros q t Hq Ht. apply (Hall q t (or_intror Hq) Ht).
Qed.

Lemma plainKeys_nil : plainKeys [].
Proof. constructor. Qed.

Lemma groupByTag_grouping (posts : list Post) (g : list (jsstring * list Post)) :
  groupByTag posts = Returns g ->
  List.NoDup (keysOf g) /\
  forall tag,
    groupAt g tag = groupOf tag (List.filter published posts) /\
    (In tag (keysOf g) <->
     exists p, In p posts /\ published p = true /\ In tag (tags p)).
Proof.
  unfold groupByTag. change (fun p : Post => negb (truthy (draft p))) with published.
  intros Hg. destruct (plainTags_dec (List.filter published posts)) as [Hp | Hp].
  - destruct (fold_posts_plain _ [] plainKeys_nil Hp) as [o' [E [_ [Hnd Hall]]]].
    rewrite E in Hg. injection Hg as <-.
    split; [apply Hnd; constructor |]. intros tag. destruct (Hall tag) as [Hga Hk].
    split; [exact Hga |]. rewrite Hk. split.
    + intros [[] | [p [Hin Ht]]]. apply filter_In in Hin as [Hin Hpub].
      exists p. auto.
    + intros [p [Hin [Hpub Ht]]]. right. exists p. split; [| exact Ht].
      apply filter_In. auto.
  - rewrite (fold_posts_reserved _ [] plainKeys_nil Hp) in Hg. discriminate.
Qed.

(** X8 (buildTagPages, the grouping loop): when the grouping succeeds,
    every key is the tag of some published post and the other way
    round, no key occurs twice, and the array under a tag holds the
    published posts that carry the tag, in the order of the posts, a
    post once for every time its tag list names the tag. *)
Theorem groupByTag_spec (posts : list Post) (g : list (jsstring * list Post)) :
  groupByTag posts = Returns g ->
  List.NoDup (keysOf g) /\
  forall tag,
    groupAt g tag = groupOf tag (List.filter published posts) /\
    (In tag (keysOf g) <->
     exists p, In p posts /\ published p = true /\ In tag (tags p)).
Proof. apply groupByTag_grouping. Qed.

Section WithBuiltins.
Context `{Builtins} `{Fragments}.

(** X9 (buildTagPages, build): a tag that names a member every object
    inherits ([constructor], [toString], [__proto__], ...) aborts the
    pass.  The grouping returns exactly when no published post carries
    such a tag and throws otherwise; a pass over a site with such a tag
    on a published post never returns. *)
Theorem reserved_tag_aborts_build :
  (forall posts,
     (exists g, groupByTag posts = Returns g) <->
     plainTags (List.filter published posts)) /\
  (forall posts,
     ~ plainTags (List.filter published posts) -> groupByTag posts = Throws) /\
  (forall src incremental persisted files0 clock pass,
     build src incremental persisted files0 clock = Returns pass ->
     plainTags (List.filter published (posts pass))).
Proof.
  assert (Hiff : forall posts,
            (exists g, groupByTag posts = Returns g) <->
            plainTags (List.filter published posts)).
  { intros posts. unfold groupByTag.
    change (fun p : Post => negb (truthy (draft p))) with published. split.
    - intros [g Hg]. destruct (plainTags_dec (List.filter published posts)) as [Hp | Hp];
        [exact Hp |].
      rewrite (fold_posts_reserved _ [] plainKeys_nil Hp) in Hg. discriminate.
    - intros Hp. destruct (fold_posts_plain _ [] plainKeys_nil Hp) as [o' [E _]].
      exists o'. exact E. }
  split; [exact Hiff |]. split.
  - intros posts Hp. unfold groupByTag.
    change (fun p : Post => negb (truthy (draft p))) with published.
    apply (fold_posts_reserved _ [] plainKeys_nil Hp).
  - intros src incremental persisted files0 clock pass Hb.
    destruct (build_stages _ _ _ _ _ _ Hb)
      as (st & d1 & d2 & d3 & sitemap & _ & _ & E2 & _ & _ & _ & Hposts & _).
    rewrite Hposts. apply (proj1 (Hiff _)).
    unfold buildTagPages in E2.
    destruct (groupByTag _) as [g | |]; simpl in E2; try discriminate.
    exists g. reflexivity.
Qed.

End WithBuiltins.

Lemma groupByTag_spec_witness :
  let posts := [RelatedSpec.postA; RelatedSpec.postB; RelatedSpec.postC] in
  let g := [(js "x", [RelatedSpec.postA; RelatedSpec.postB]);
            (js "y", [RelatedSpec.postA]); (js "z", [RelatedSpec.postC])] in
  groupByTag posts = Returns g /\
  groupAt g (js "x") = groupOf (js "x") (List.filter published posts).
Proof.
  intros posts g.
  assert (E : groupByTag posts = Returns g) by (vm_compute; reflexivity).
  split; [exact E |].
  apply (proj1 (proj2 (groupByTag_spec posts g E) (js "x"))).
Defined.

Lemma reserved_tag_aborts_build_witness :
  groupByTag [RelatedSpec.postA; Scenarios.reservedPost] = Throws /\
  plainTags (List.filter published (posts (Sample.passOf Sample.firstPass))).
Proof.
  split.
  - apply (proj1 (proj2 (@reserved_tag_aborts_build Sample.builtins Sample.fragments))).
    intros Hplain.
    assert (Hc : isInheritedKey (js "constructor") = false).
    { apply (Hplain Scenarios.reservedPost (js "constructor")).
      - vm_compute. tauto.
      - left. reflexivity. }
    vm_compute in Hc. discriminate.
  - apply (proj2 (proj2 (@reserved_tag_aborts_build Sample.builtins Sample.fragments))
             Sample.blog false ∅ ∅ (Sample.clockAt 1793674140000)).
    vm_compute. reflexivity.
Defined.

End TagProps.

(** ** More on the pass: drafts, tags, dates, the cache, the output *)

Module PassProps.
Import Template Builder Assembler AssemblerSpec AssemblerProps.
Import FeedsSpec FeedsProps PassSpec CacheProps.

(** *** Drafts *)

Section WithBuiltins.
Context `{Builtins} `{Fragments}.

Lemma listed_published p : Feeds.listed p = true -> published p = true.
Proof.
  unfold Feeds.listed, published. intros E.
  repeat (apply andb_true_iff in E as [E _]). exact E.
Qed.

Lemma inSitemap_published p : inSitemap p = true -> published p = true.
Proof.
  unfold inSitemap, published. intros E.
  repeat (apply andb_true_iff in E as [E _]). exact E.
Qed.

Lemma eligible_published cur p : Related.eligible cur p = true -> published p = true.
Proof.
  unfold Related.eligible, published. intros E.
  do 3 (apply andb_true_iff in E as [E _]).
  apply andb_true_iff in E as [_ E]. exact E.
Qed.

(** X7 (generateRSS, generateSitemap, buildTagPages,
    buildPaginationPages, findRelatedPosts): drafts never leak.  Taking
    the drafts out of the list of posts changes neither the feed, nor
    the sitemap, nor the tag pages, nor the pagination pages, nor the
    related posts of any post. *)
Theorem drafts_never_listed (posts : list Post) :
  let shown := List.filter published posts in
  (forall now config, Feeds.generateRSS now shown config = Feeds.generateRSS now posts config) /\
  (forall config, Feeds.generateSitemap shown config = Feeds.generateSitemap posts config) /\
  (forall templates config d,
     buildTagPages shown templates config d = buildTagPages posts templates config d) /\
  (forall templates config d,
     buildPaginationPages shown templates config d =
     buildPaginationPages posts templates config d) /\
  (forall currentPost limit,
     Related.findRelatedPosts currentPost shown limit =
     Related.findRelatedPosts currentPost posts limit).
Proof.
  intros shown. subst shown. split; [| split; [| split; [| split]]].
  - intros now config. unfold Feeds.generateRSS. cbv zeta.
    rewrite (filter_published_then Feeds.listed posts listed_published). reflexivity.
  - intros config. unfold Feeds.generateSitemap. cbv zeta.
    rewrite (filter_published_then
               (fun p => negb (truthy (draft p)) && negb (streq (slug p) (js "index")) &&
                         negb (startsWith (slug p) (js "tags/")))
               posts inSitemap_published).
    reflexivity.
  - intros templates config d. unfold buildTagPages, groupByTag.
    change (fun p : Post => negb (truthy (draft p))) with published.
    rewrite (filter_published_then published posts (fun p E => E)). reflexivity.
  - intros templates config d. unfold buildPaginationPages. cbv zeta.
    rewrite (filter_published_then Feeds.listed posts listed_published). reflexivity.
  - intros currentPost limit. unfold Related.findRelatedPosts.
    rewrite (filter_published_then (Related.eligible currentPost) posts
               (eligible_published currentPost)).
    reflexivity.
Qed.

End WithBuiltins.

(** *** Dates and page sizes that stop the pass *)

Section WithBuiltins.
Context `{Builtins} `{Fragments}.


Lemma sortByDate_nil_inv l : Feeds.sortByDate l = [] -> l = [].
Proof.
  intros E. pose proof (SortProps.sortByDate_perm l) as Hperm. rewrite E in Hperm.
  apply Permutation_nil in Hperm. exact Hperm.
Qed.

(** X11 (build, buildPaginationPages, paginate): with [postsPerPage]
    zero the pass returns only if there is nothing to list; as soon as
    one post is listed, the page loop of [paginate] has no end and the
    pass never returns. *)
Theorem zero_page_size_never_returns src incremental persisted files0 clock pass :
  cfg_postsPerPage (src_config src) = 0 ->
  build src incremental persisted files0 clock = Returns pass ->
  forall post, In post (posts pass) -> Feeds.listed post = false.
Proof.
  intros Hzero Hb post Hin.
  destruct (build_stages _ _ _ _ _ _ Hb)
    as (st & d1 & d2 & d3 & sitemap & _ & _ & _ & E3 & _ & _ & Hposts & _).
  rewrite Hposts in Hin. unfold buildPaginationPages in E3. cbv zeta in E3.
  rewrite Hzero in E3. unfold Paginate.paginate in E3. cbn [N.eqb] in E3.
  destruct (Feeds.sortByDate _) as [| p l] eqn:Es; [| discriminate].
  apply sortByDate_nil_inv in Es.
  destruct (Feeds.listed post) eqn:El; [| reflexivity].
  assert (Hf : In post (List.filter Feeds.listed
                          (parseFrom clock (src_pagesDir src) 0 (src_pages src))))
    by (apply filter_In; auto).
  rewrite Es in Hf. destruct Hf.
Qed.

(** *** The cache a pass saves *)





(** *** What a pass leaves in the output directory *)

Lemma tracked_writeFile before rel data d :
  tracked before d -> tracked before (writeFile rel data d).
Proof. unfold tracked, replay. intros E. simpl. rewrite E. reflexivity. Qed.

Lemma tracked_writeIfHtml before rel html d :
  tracked before d -> tracked before (writeIfHtml rel html d).
Proof.
  intros E. destruct html as [[| c h] |]; simpl; [exact E | | exact E].
  apply tracked_writeFile. exact E.
Qed.

Lemma tracked_fold_writeFile {A : Type} before (f g : A -> jsstring) l d :
  tracked before d ->
  tracked before (fold_left (fun d e => writeFile (f e) (g e) d) l d).
Proof.
  revert d. induction l as [| e l IH]; intros d E; simpl; [exact E |].
  apply IH, tracked_writeFile. exact E.
Qed.

Lemma tracked_loop before incremental fs cache templates all config ps st st' :
  foldM (buildOne incremental fs cache templates all config) ps st = Returns st' ->
  tracked before (snd st) -> tracked before (snd st').
Proof.
  revert st. induction ps as [| p ps IH]; intros st; simpl.
  - intros [= <-]. auto.
  - destruct (buildOne incremental fs cache templates all config st p)
      as [st1 | |] eqn:E1; simpl; try discriminate.
    intros Hrest Ht. apply (IH st1 Hrest). unfold buildOne in E1.
    destruct (truthy (draft p)); [injection E1 as <-; exact Ht |].
    destruct (needsBuild incremental fs cache p); [| injection E1 as <-; exact Ht].
    destruct (buildPost p templates all config) as [html | |]; simpl in E1;
      try discriminate.
    injection E1 as <-. simpl. apply tracked_writeIfHtml. exact Ht.
Qed.

Lemma tracked_rebuildIndex before templates all config d d' :
  rebuildIndex templates all config d = Returns d' ->
  tracked before d -> tracked before d'.
Proof.
  unfold rebuildIndex. destruct (List.find _ all) as [indexPost |].
  - destruct (buildPost indexPost templates all config) as [html | |]; simpl;
      try discriminate.
    intros [= <-]. apply tracked_writeIfHtml.
  - intros [= <-]. auto.
Qed.

Lemma tracked_buildTagPages before all templates config d d' :
  buildTagPages all templates config d = Returns d' ->
  tracked before d -> tracked before d'.
Proof.
  unfold buildTagPages. destruct (groupByTag all) as [tagPosts | |]; simpl;
    try discriminate.
  destruct (orElse _ _) as [| | | | | [| c t] |]; intros [= <-]; auto.
  apply (tracked_fold_writeFile before (fun e => tagPagePath (fst e))
           (fun e => tagPage (c :: t) config (fst e) (snd e))).
Qed.

Lemma tracked_writePage before listTemplate config d page :
  tracked before d -> tracked before (writePage listTemplate config d page).
Proof.
  intros E. unfold writePage. apply tracked_writeFile.
  destruct (_ && _); [apply tracked_writeFile |]; exact E.
Qed.

Lemma tracked_buildPaginationPages before all templates config d d' :
  buildPaginationPages all templates config d = Returns d' ->
  tracked before d -> tracked before d'.
Proof.
  unfold buildPaginationPages. destruct (Paginate.paginate _ _) as [pages |];
    [| discriminate].
  destruct (orElse _ _) as [| | | | | [| c t] |]; intros [= <-]; auto.
  generalize d. induction pages as [| page pages IH]; intros d0 E; simpl; [exact E |].
  apply IH, tracked_writePage. exact E.
Qed.

Lemma tracked_copies before src d :
  tracked before d -> tracked before (copy404 src (copyStatic src d)).
Proof.
  intros E. unfold copy404, copyStatic.
  assert (E1 : tracked before
                 match src_static src with
                 | Some staticFiles =>
                     fold_left (fun d e => writeFile (fst e) (snd e) d) staticFiles d
                 | None => d
                 end).
  { destruct (src_static src) as [l |]; [| exact E].
    apply (tracked_fold_writeFile before fst snd). exact E. }
  destruct (src_404 src); [apply tracked_writeFile |]; exact E1.
Qed.

Lemma replay_unwritten ws before k :
  ~ In k (List.map fst ws) -> replay ws before !! k = before !! k.
Proof.
  unfold replay. induction ws as [| e ws IH]; simpl; [reflexivity |].
  intros Hk. rewrite lookup_insert_ne by tauto. apply IH. tauto.
Qed.

Lemma replay_written ws before k :
  In k (List.map fst ws) ->
  exists data, In (k, data) ws /\ replay ws before !! k = Some data.
Proof.
  unfold replay. induction ws as [| [rel data] ws IH]; simpl; [intros [] |].
  intros Hk. destruct (decide (rel = k)) as [-> | Hne].
  - exists data. split; [left; reflexivity | apply lookup_insert_eq].
  - destruct Hk as [Hk | Hk]; [congruence |].
    destruct (IH Hk) as [data' [Hin Hl]]. exists data'.
    split; [right; exact Hin |]. rewrite lookup_insert_ne by exact Hne. exact Hl.
Qed.

(** X13 (build, cleanDir): a pass changes the output directory only
    through the files it writes.  A file the pass did not write is, after
    an incremental pass, exactly what it was before, so the page of a
    post whose source was deleted stays published; after a full pass it
    does not exist.  A file the pass wrote holds what one of those
    writes put there. *)
Theorem build_frame src incremental persisted files0 clock pass :
  build src incremental persisted files0 clock = Returns pass ->
  (forall k,
     ~ In k (writes pass) ->
     files (out pass) !! k = if incremental then files0 !! k else None) /\
  (forall k,
     In k (writes pass) ->
     exists data,
       In (k, data) (written (out pass)) /\ files (out pass) !! k = Some data).
Proof.
  intros Hb.
  destruct (build_stages _ _ _ _ _ _ Hb)
    as (st & d1 & d2 & d3 & sitemap & E0 & E1 & E2 & E3 & _ & Hout & _).
  set (before := if incremental then files0 else ∅ : gmap jsstring jsstring).
  assert (T0 : tracked before {| files := before; written := [] |}) by reflexivity.
  pose proof (tracked_loop before _ _ _ _ _ _ _ _ _ E0 T0) as Tst.
  assert (T1 : tracked before d1).
  { destruct (fst st || negb incremental); [| injection E1 as <-; exact Tst].
    apply (tracked_rebuildIndex before _ _ _ _ _ E1 Tst). }
  pose proof (tracked_buildTagPages before _ _ _ _ _ E2 T1) as T2.
  pose proof (tracked_buildPaginationPages before _ _ _ _ _ E3 T2) as T3.
  assert (T : tracked before (out pass)).
  { rewrite Hout. apply tracked_copies. do 2 apply tracked_writeFile. exact T3. }
  assert (Hw : forall k, In k (writes pass) <-> In k (List.map fst (written (out pass)))).
  { intros k. unfold writes. rewrite List.map_rev. symmetry. apply in_rev. }
  split.
  - intros k Hk. rewrite T, replay_unwritten by (rewrite <- Hw; exact Hk).
    subst before. destruct incremental; [reflexivity | apply lookup_empty].
  - intros k Hk. rewrite T. apply replay_written. apply Hw. exact Hk.
Qed.

Lemma fold_writeFile_lookup (l : list (jsstring * jsstring)) d rel data :
  List.NoDup (List.map fst l) -> In (rel, data) l ->
  files (fold_left (fun d e => writeFile (fst e) (snd e) d) l d) !! rel = Some data.
Proof.
  revert d. induction l as [| [r x] l IH]; intros d Hnd Hin; [destruct Hin |].
  cbn [fold_left]. inversion Hnd as [| r0 l0 Hr Hnd']; subst.
  destruct Hin as [[= -> ->] | Hin]; [| apply IH; assumption].
  clear IH. simpl in Hr.
  assert (Hkeep : forall l' d',
            ~ In rel (List.map fst l') -> files d' !! rel = Some data ->
            files (fold_left (fun d e => writeFile (fst e) (snd e) d) l' d') !! rel
            = Some data).
  { induction l' as [| [r' x'] l' IH']; intros d' Hn Hd; [exact Hd |].
    cbn [fold_left]. apply IH'; [simpl in Hn; tauto |].
    simpl. rewrite lookup_insert_ne by (simpl in Hn; tauto). exact Hd. }
  apply Hkeep; [exact Hr | apply lookup_insert_eq].
Qed.

(** X14 (build, copyDir): the copied files win.  After a pass, every
    file of the static directory is in the output directory under the
    same relative path with the same content, whatever page the pass
    generated under that path; only the custom 404 page, copied last,
    takes precedence over a static [404.html]. *)
Theorem static_files_win src incremental persisted files0 clock pass :
  build src incremental persisted files0 clock = Returns pass ->
  (forall page,
     src_404 src = Some page -> files (out pass) !! js "404.html" = Some page) /\
  (forall staticFiles rel data,
     src_static src = Some staticFiles ->
     List.NoDup (List.map fst staticFiles) ->
     In (rel, data) staticFiles ->
     src_404 src = None \/ rel <> js "404.html" ->
     files (out pass) !! rel = Some data).
Proof.
  intros Hb.
  destruct (build_stages _ _ _ _ _ _ Hb)
    as (st & d1 & d2 & d3 & sitemap & _ & _ & _ & _ & _ & Hout & _).
  rewrite Hout. split.
  - intros page E. unfold copy404. rewrite E. apply lookup_insert_eq.
  - intros staticFiles rel data Es Hnd Hin Hnot.
    unfold copy404, copyStatic. rewrite Es.
    destruct (src_404 src) as [page |].
    + destruct Hnot as [Hnone | Hne]; [discriminate |].
      simpl. rewrite lookup_insert_ne by congruence.
      apply fold_writeFile_lookup; assumption.
    + apply fold_writeFile_lookup; assumption.
Qed.

End WithBuiltins.


Lemma zero_page_size_never_returns_witness :
  Forall (fun post => @Feeds.listed post = false)
    (posts (Sample.passOf Scenarios.draftPass)).
Proof.
  assert (E : Scenarios.draftPass = Returns (Sample.passOf Scenarios.draftPass))
    by (vm_compute; reflexivity).
  apply List.Forall_forall. intros post Hin.
  apply (@zero_page_size_never_returns Sample.builtins Sample.fragments
           Scenarios.draftBlog false ∅ ∅ (Sample.clockAt 1793674140000) _
           eq_refl E post Hin).
Defined.


Lemma build_frame_witness :
  let pass1 := Sample.passOf Scenarios.idlePass in
  files (out pass1) !! js "hello.html" =
  Sample.filesAfter Sample.firstPass !! js "hello.html".
Proof.
  intros pass1.
  assert (E1 : Scenarios.idlePass = Returns pass1) by (vm_compute; reflexivity).
  apply (proj1 (@build_frame Sample.builtins Sample.fragments Sample.blog true
                  (Sample.cacheAfter Sample.firstPass)
                  (Sample.filesAfter Sample.firstPass)
                  (Sample.clockAt 1793674200000) pass1 E1) (js "hello.html")).
  vm_compute. intros Hin.
  repeat (destruct Hin as [Hin | Hin]; [discriminate |]). exact Hin.
Defined.

Lemma static_files_win_witness :
  let pass := Sample.passOf Scenarios.staticPass in
  In (js "hello.html") (List.map postPath (posts pass)) /\
  files (out pass) !! js "hello.html" = Some (js "by hand") /\
  files (out pass) !! js "404.html" = Some (js "gone").
Proof.
  intros pass.
  assert (E : Scenarios.staticPass = Returns pass) by (vm_compute; reflexivity).
  destruct (@static_files_win Sample.builtins Sample.fragments Scenarios.staticBlog
              false ∅ ∅ (Sample.clockAt 1793674140000) pass E) as [H404 Hstatic].
  split; [vm_compute; tauto |]. split.
  - apply (Hstatic [(js "css/style.css", js "body{}"); (js "hello.html", js "by hand")]).
    + reflexivity.
    + repeat constructor; simpl; intros Hin;
        repeat (destruct Hin as [Hin | Hin]; [discriminate |]); exact Hin.
    + right. left. reflexivity.
    + right. discriminate.
  - apply H404. reflexivity.
Defined.

End PassProps.

(** ** Where tag pages are written *)

Module TagPathProps.
Import Utils SlugSpec SlugProps Path PathSpec PathProps Assembler.

Lemma slugChar_slashFree s : forallb isSlugChar s = true -> slashFree s = true.
Proof.
  unfold slashFree. apply forallb_impl_gen. intros c Hc.
  apply negb_true_iff. destruct (c =? 47) eqn:E; [| reflexivity].
  apply N.eqb_eq in E. subst c. discriminate.
Qed.

Section WithBuiltins.
Context `{Builtins}.

(** X15 (slugify, buildTagPages): a tag cannot steer where its page is
    written.  Whatever the tag's text, on every platform, its slug is
    made of lower-case ASCII letters, digits and hyphens only, with no
    two hyphens in a row, and the page path has exactly two segments:
    the directory [tags] and the slug followed by [.html]. *)
Theorem tag_page_in_tags_dir (tag : jsstring) :
  forallb isSlugChar (slugify tag) = true /\
  collapsed false (slugify tag) /\
  segments (tagPagePath tag) = [js "tags"; slugify tag ++ js ".html"].
Proof.
  rewrite slugify_tidy.
  destruct (tidy_shape (removeClass isCombining (normalizeNFD (toLowerCase tag))))
    as [Hchars Hcol].
  split; [exact Hchars |]. split; [exact Hcol |].
  unfold tagPagePath. rewrite slugify_tidy.
  set (s := tidy (removeClass isCombining (normalizeNFD (toLowerCase tag)))) in *.
  change (js "tags/" ++ s ++ js ".html") with (js "tags" ++ 47 :: (s ++ js ".html")).
  rewrite segments_app. change (segments (js "tags")) with [js "tags"].
  unfold segments at 1.
  rewrite (splitSlash_of_slashFree (s ++ js ".html")).
  - cbn [List.filter]. destruct (s ++ js ".html") eqn:E; [| reflexivity].
    apply app_eq_nil in E as [_ E]. discriminate.
  - unfold slashFree. rewrite forallb_app. apply andb_true_iff.
    split; [apply slugChar_slashFree; exact Hchars | reflexivity].
Qed.

End WithBuiltins.

End TagPathProps.

(** ** The dev server's file cache *)

Module FileCacheProps.
Import Server ServerSpec StringProps.

Lemma cacheLookup_store c key v k :
  cacheLookup (cacheStore c key v) k =
  if streq key k then Some v else cacheLookup c k.
Proof.
  induction c as [| [k0 w] c IH]; simpl.
  - reflexivity.
  - destruct (streq k0 key) eqn:E0; simpl.
    + apply streq_eq in E0. subst k0. destruct (streq key k); reflexivity.
    + rewrite IH. destruct (streq k0 k) eqn:E1; [| reflexivity].
      apply streq_eq in E1. subst k0. rewrite (streq_sym key k), E0. reflexivity.
Qed.

Lemma cacheLookup_delete c key k :
  cacheLookup (cacheDelete c key) k =
  if streq key k then None else cacheLookup c k.
Proof.
  unfold cacheDelete. induction c as [| [k0 w] c IH]; simpl.
  - destruct (streq key k); reflexivity.
  - destruct (streq k0 key) eqn:E0; simpl.
    + rewrite IH. apply streq_eq in E0. subst k0.
      destruct (streq key k); reflexivity.
    + rewrite IH. destruct (streq k0 k) eqn:E1; [| reflexivity].
      apply streq_eq in E1. subst k0. rewrite (streq_sym key k), E0. reflexivity.
Qed.

Lemma length_delete c key : (length (cacheDelete c key) <= length c)%nat.
Proof. unfold cacheDelete. apply List.filter_length_le. Qed.

Lemma length_store c key v : (length (cacheStore c key v) <= S (length c))%nat.
Proof.
  induction c as [| [k0 w] c IH]; simpl; [lia |].
  destruct (streq k0 key); simpl; lia.
Qed.

Lemma keys_delete c key k :
  In k (List.map fst (cacheDelete c key)) <-> In k (List.map fst c) /\ k <> key.
Proof.
  unfold cacheDelete. rewrite !in_map_iff. split.
  - intros [e [<- He]]. apply filter_In in He as [He Hne].
    apply negb_true_iff, streq_neq in Hne. split; [| exact Hne].
    exists e. auto.
  - intros [[e [<- He]] Hne]. exists e. split; [reflexivity |].
    apply filter_In. split; [exact He |].
    apply negb_true_iff. unfold streq. apply bool_decide_eq_false_2. exact Hne.
Qed.

Lemma NoDup_delete c key :
  List.NoDup (List.map fst c) -> List.NoDup (List.map fst (cacheDelete c key)).
Proof.
  unfold cacheDelete. induction c as [| [k0 w] c IH]; simpl; [auto |].
  intros Hnd. inversion Hnd as [| x l Hx Hrest]; subst.
  destruct (streq k0 key); simpl; [apply IH; exact Hrest |].
  constructor; [| apply IH; exact Hrest].
  intros Hin. apply Hx. apply (keys_delete c key k0) in Hin. tauto.
Qed.

Lemma keys_store c key v k :
  In k (List.map fst (cacheStore c key v)) <-> In k (List.map fst c) \/ k = key.
Proof.
  induction c as [| [k0 w] c IH]; simpl.
  - split; [intros [<- | []]; auto | intros [[] | ->]; auto].
  - destruct (streq k0 key) eqn:E0; simpl.
    + apply streq_eq in E0. subst k0. split; [auto |].
      intros [[<- | Hin] | ->]; auto.
    + rewrite IH. tauto.
Qed.

Lemma NoDup_store c key v :
  List.NoDup (List.map fst c) -> List.NoDup (List.map fst (cacheStore c key v)).
Proof.
  induction c as [| [k0 w] c IH]; simpl.
  - intros _. constructor; [intros [] | constructor].
  - intros Hnd. inversion Hnd as [| x l Hx Hrest]; subst.
    destruct (streq k0 key) eqn:E0; simpl.
    + constructor; assumption.
    + constructor; [| apply IH; exact Hrest].
      intros Hin. apply keys_store in Hin as [Hin | ->]; [tauto |].
      rewrite streq_same in E0. discriminate.
Qed.

Section WithBuiltins.
Context `{Builtins}.

Lemma length_cacheSet maxSize c key data mtime :
  (0 < maxSize)%nat -> (length c <= maxSize)%nat ->
  (length (cacheSet maxSize c key data mtime) <= maxSize)%nat.
Proof.
  intros Hpos Hlen. unfold cacheSet.
  destruct (maxSize <=? length c)%nat eqn:Efull.
  - apply Nat.leb_le in Efull. destruct c as [| [firstKey w] c]; [simpl in *; lia |].
    eapply Nat.le_trans; [apply length_store |].
    unfold cacheDelete. cbn [List.filter fst]. rewrite streq_same. cbn [negb].
    pose proof (List.filter_length_le (fun e => negb (streq (fst e) firstKey)) c).
    simpl in Hlen. lia.
  - apply Nat.leb_gt in Efull.
    eapply Nat.le_trans; [apply length_store | lia].
Qed.

(** A cache created with capacity zero still holds the entry set last. *)
Lemma length_cacheSet_any maxSize c key data mtime :
  (length c <= Nat.max 1 maxSize)%nat ->
  (length (cacheSet maxSize c key data mtime) <= Nat.max 1 maxSize)%nat.
Proof.
  destruct maxSize as [| n]; [| rewrite Nat.max_r by lia; apply length_cacheSet; lia].
  cbn [Nat.max]. intros Hlen. unfold cacheSet. cbn [Nat.leb].
  destruct c as [| [firstKey w] [| e c]]; [reflexivity | | simpl in Hlen; lia].
  unfold cacheDelete. cbn [List.filter fst]. rewrite streq_same. reflexivity.
Qed.

Lemma NoDup_cacheSet maxSize c key data mtime :
  List.NoDup (List.map fst c) ->
  List.NoDup (List.map fst (cacheSet maxSize c key data mtime)).
Proof.
  intros Hnd. unfold cacheSet. apply NoDup_store.
  destruct (maxSize <=? length c)%nat; [| exact Hnd].
  destruct c as [| [firstKey w] c]; [constructor |].
  apply NoDup_delete. exact Hnd.
Qed.

Lemma cacheGet_cache disk c key :
  snd (fst (cacheGet disk c key)) = c \/
  snd (fst (cacheGet disk c key)) = cacheDelete c key.
Proof.
  unfold cacheGet. destruct (cacheLookup c key) as [item |]; [| left; reflexivity].
  destruct (disk !! key) as [[data m | m] |]; [| | right; reflexivity];
    destruct (item_mtime item <? m)%Z; auto.
Qed.

(** X16 (FileCache.set, FileCache.get, the request listener): the cache
    stays within its capacity and never holds a path twice.  [set] on a
    cache of at most [maxSize] entries leaves at most [maxSize], for a
    capacity of at least one (a cache of capacity zero holds the one
    entry set last); [get] never adds an entry; and so the listener,
    which creates the cache with capacity 50, never holds more than 50
    files. *)
Theorem file_cache_bounded :
  (forall maxSize c key data mtime,
     (length c <= Nat.max 1 maxSize)%nat ->
     List.NoDup (List.map fst c) ->
     (length (cacheSet maxSize c key data mtime) <= Nat.max 1 maxSize)%nat /\
     List.NoDup (List.map fst (cacheSet maxSize c key data mtime))) /\
  (forall disk c key,
     List.NoDup (List.map fst c) ->
     (length (snd (fst (cacheGet disk c key))) <= length c)%nat /\
     List.NoDup (List.map fst (snd (fst (cacheGet disk c key))))) /\
  (forall cwd projectDir disk fileCache reqUrl ifNoneMatch,
     (length fileCache <= 50)%nat -> List.NoDup (List.map fst fileCache) ->
     let h := handle cwd projectDir disk fileCache reqUrl ifNoneMatch in
     (length (cacheAfter h) <= 50)%nat /\ List.NoDup (List.map fst (cacheAfter h))).
Proof.
  assert (Hget : forall disk c key,
            List.NoDup (List.map fst c) ->
            (length (snd (fst (cacheGet disk c key))) <= length c)%nat /\
            List.NoDup (List.map fst (snd (fst (cacheGet disk c key))))).
  { intros disk c key Hnd. destruct (cacheGet_cache disk c key) as [-> | ->].
    - split; [lia | exact Hnd].
    - split; [apply length_delete | apply NoDup_delete; exact Hnd]. }
  split; [| split; [exact Hget |]].
  - intros maxSize c key data mtime Hlen Hnd.
    split; [apply length_cacheSet_any; assumption | apply NoDup_cacheSet; exact Hnd].
  - intros cwd projectDir disk fileCache reqUrl ifNoneMatch Hlen Hnd h. subst h.
    unfold handle. cbv zeta.
    destruct (streq (beforeQuery reqUrl) (js "/__live-reload")); [simpl; auto |].
    destruct (sanitizePath cwd _ _) as [filePath |]; [| simpl; auto].
    destruct (Hget disk fileCache filePath Hnd) as [Hl1 Hn1].
    destruct (cacheGet disk fileCache filePath) as [[cached cache1] acc1].
    cbn [fst snd] in Hl1, Hn1.
    assert (Hserve : forall item c2 acc,
              cacheAfter (serve filePath ifNoneMatch item c2 acc) = c2).
    { intros item c2 acc. unfold serve. destruct (match ifNoneMatch with
                                                   | Some (c :: e) => _
                                                   | _ => false
                                                   end); reflexivity. }
    destruct cached as [item |]; [rewrite Hserve; split; [lia | exact Hn1] |].
    unfold serveFromDisk.
    destruct (disk !! filePath) as [[data m | m] |].
    + pose proof (length_cacheSet 50 cache1 filePath data m ltac:(lia) ltac:(lia)) as Hl2.
      pose proof (NoDup_cacheSet 50 cache1 filePath data m Hn1) as Hn2.
      destruct (Hget disk (cacheSet 50 cache1 filePath data m) filePath Hn2) as [Hl3 Hn3].
      destruct (cacheGet disk (cacheSet 50 cache1 filePath data m) filePath)
        as [[again cache3] acc2].
      cbn [fst snd] in Hl3, Hn3.
      destruct again as [item |]; [rewrite Hserve |]; simpl; split;
        [lia | exact Hn3 | lia | exact Hn3].
    + simpl. split; [lia | exact Hn1].
    + destruct (disk !! Path.resolve _ _) as [[data m | m] |]; simpl;
        (split; [lia | exact Hn1]).
Qed.

Lemma cacheGet_fresh disk c key item m :
  cacheLookup c key = Some item -> mtimeOf disk key = Some m ->
  (m <= item_mtime item)%Z ->
  cacheGet disk c key = (Some item, c, [key]).
Proof.
  unfold cacheGet, mtimeOf. intros -> Hm Hle.
  destruct (disk !! key) as [[data m' | m'] |]; try discriminate;
    injection Hm as ->;
    (destruct (Z.ltb_spec (item_mtime item) m); [lia | reflexivity]).
Qed.

Lemma cacheGet_after_set maxSize disk c key data mtime m :
  mtimeOf disk key = Some m -> (m <= mtime)%Z ->
  cacheGet disk (cacheSet maxSize c key data mtime) key =
  (Some {| item_content := data; item_mtime := mtime; item_etag := md5hex data |},
   cacheSet maxSize c key data mtime, [key]).
Proof.
  intros Hm Hle.
  apply (cacheGet_fresh disk _ key _ m); [| exact Hm | exact Hle].
  unfold cacheSet. rewrite cacheLookup_store, streq_same. reflexivity.
Qed.

(** X17 (FileCache.set, FileCache.get): what was stored is what is
    found.  After [set(key, content, mtime)], [get(key)] returns the
    entry with that content, that time and the MD5 of the content as
    its tag, as long as the path still exists and was not modified
    after [mtime]; the cache is left as it was. *)
Theorem file_cache_round_trip maxSize disk c key data mtime m :
  mtimeOf disk key = Some m -> (m <= mtime)%Z ->
  let c' := cacheSet maxSize c key data mtime in
  cacheGet disk c' key =
  (Some {| item_content := data; item_mtime := mtime; item_etag := md5hex data |},
   c', [key]).
Proof.
  intros Hm Hle c'. subst c'. apply (cacheGet_after_set maxSize disk c key data mtime m);
    assumption.
Qed.

(** X18 (FileCache.get): a stale entry is dropped on access and only
    that entry.  When the path is gone, or was modified after the entry
    was read, [get] returns [null], the entry is no longer in the
    cache, and every other entry is found as before. *)
Theorem file_cache_stale_dropped disk c key item :
  cacheLookup c key = Some item ->
  match mtimeOf disk key with
  | Some m => (item_mtime item < m)%Z
  | None => True
  end ->
  exists c',
    cacheGet disk c key = (None, c', [key]) /\
    cacheLookup c' key = None /\
    forall k, k <> key -> cacheLookup c' k = cacheLookup c k.
Proof.
  intros Hl Hstale. exists (cacheDelete c key).
  split; [| split].
  - unfold cacheGet, mtimeOf in *. rewrite Hl.
    destruct (disk !! key) as [[data m | m] |]; [| | reflexivity];
      (destruct (Z.ltb_spec (item_mtime item) m); [reflexivity | lia]).
  - rewrite cacheLookup_delete, streq_same. reflexivity.
  - intros k Hne. rewrite cacheLookup_delete.
    destruct (streq key k) eqn:E; [| reflexivity].
    apply streq_eq in E. congruence.
Qed.

End WithBuiltins.

(** A full cache of capacity two: setting a third path drops the
    oldest one. *)
Lemma file_cache_bounded_witness :
  let full :=
    @cacheSet Sample.builtins 2
      (@cacheSet Sample.builtins 2 [] (js "/a") (js "A") 1) (js "/b") (js "B") 1 in
  let c := @cacheSet Sample.builtins 2 full (js "/c") (js "C") 1 in
  List.map fst full = [js "/a"; js "/b"] /\
  (length c <= 2)%nat /\ List.NoDup (List.map fst c) /\
  List.map fst c = [js "/b"; js "/c"].
Proof.
  intros full c.
  assert (Ekeys : List.map fst full = [js "/a"; js "/b"]) by (vm_compute; reflexivity).
  assert (Hnd : List.NoDup (List.map fst full)).
  { rewrite Ekeys. constructor; [intros [E | []]; discriminate |].
    constructor; [intros [] | constructor]. }
  assert (Hlen : (length full <= Nat.max 1 2)%nat) by (vm_compute; lia).
  destruct (proj1 (@file_cache_bounded Sample.builtins) 2%nat full (js "/c") (js "C")
              1%Z Hlen Hnd) as [Hl Hn].
  split; [exact Ekeys |]. split; [exact Hl |].
  split; [exact Hn | vm_compute; reflexivity].
Defined.

Lemma file_cache_round_trip_witness :
  let key := js "/srv/blog/public/about.html" in
  let c := @cacheSet Sample.builtins 50 [] key (js "old") 7 in
  fst (fst (cacheGet Scenarios.disk c key)) =
  Some {| item_content := js "old"; item_mtime := 7; item_etag := @md5hex Sample.builtins (js "old") |}.
Proof.
  intros key c. subst c.
  rewrite (@file_cache_round_trip Sample.builtins 50 Scenarios.disk [] key (js "old")
             7 5).
  - reflexivity.
  - vm_compute. reflexivity.
  - lia.
Defined.

Lemma file_cache_stale_dropped_witness :
  let key := js "/srv/blog/public/about.html" in
  let item := {| item_content := js "old"; item_mtime := 3; item_etag := @md5hex Sample.builtins (js "old") |} in
  fst (fst (cacheGet Scenarios.disk [(key, item)] key)) = None.
Proof.
  intros key item.
  destruct (file_cache_stale_dropped Scenarios.disk [(key, item)] key item)
    as [c' [E _]].
  - vm_compute. reflexivity.
  - vm_compute. reflexivity.
  - rewrite E. reflexivity.
Defined.

End FileCacheProps.

(** ** The request listener *)

Module RequestProps.
Import Path Server ServerSpec StringProps FileCacheProps.

Section WithBuiltins.
Context `{Builtins}.

Lemma serve_response filePath ifNoneMatch item cache2 acc :
  response (serve filePath ifNoneMatch item cache2 acc) =
  Some (if match ifNoneMatch with
           | Some (c :: e) => streq (c :: e) (item_etag item)
           | _ => false
           end
        then Reply 304 None []
        else Reply 200 (Some (contentTypeOf filePath))
               (bodyOf filePath (item_content item))) /\
  cacheAfter (serve filePath ifNoneMatch item cache2 acc) = cache2.
Proof.
  unfold serve, contentTypeOf, bodyOf.
  destruct (match ifNoneMatch with
            | Some (c :: e) => streq (c :: e) (item_etag item)
            | _ => false
            end); [split; reflexivity |].
  destruct (mimeLookup filePath) as [t |]; split; reflexivity.
Qed.

Lemma coherent_nil disk : coherent disk [].
Proof. intros key item Hl. discriminate. Qed.

Lemma coherent_cacheSet disk c filePath data m maxSize :
  coherent disk c -> disk !! filePath = Some (File data m) ->
  coherent disk (cacheSet maxSize c filePath data m).
Proof.
  intros Hc Hd key item. unfold cacheSet. rewrite cacheLookup_store.
  destruct (streq filePath key) eqn:E.
  - apply streq_eq in E. subst key. intros [= <-]. simpl.
    exists m. split; [exact Hd |]. split; [lia | reflexivity].
  - destruct (maxSize <=? length c)%nat; [| apply Hc].
    destruct c as [| [firstKey w] c']; [discriminate |].
    rewrite cacheLookup_delete. destruct (streq firstKey key); [discriminate |].
    apply Hc.
Qed.

(** The listener's answer for a path that [sanitizePath] let through,
    on a coherent cache. *)
Lemma answer_file cwd disk c outputDir filePath ifNoneMatch data m :
  coherent disk c -> disk !! filePath = Some (File data m) ->
  let '(cached, cache1, acc1) := cacheGet disk c filePath in
  let h := match cached with
           | Some item => serve filePath ifNoneMatch item cache1 acc1
           | None => serveFromDisk cwd outputDir filePath ifNoneMatch disk cache1 acc1
           end in
  response h =
    Some (if match ifNoneMatch with
             | Some (c :: e) => streq (c :: e) (md5hex data)
             | _ => false
             end
          then Reply 304 None []
          else Reply 200 (Some (contentTypeOf filePath)) (bodyOf filePath data)) /\
  coherent disk (cacheAfter h).
Proof.
  intros Hc Hd. destruct (cacheLookup c filePath) as [item |] eqn:Hl.
  - destruct (Hc filePath item Hl) as [m' [Hd' [Hle He]]].
    rewrite Hd in Hd'. injection Hd' as Hdata <-.
    rewrite (cacheGet_fresh disk c filePath item m Hl); [| | exact Hle].
    2:{ unfold mtimeOf. rewrite Hd. reflexivity. }
    cbv zeta. destruct (serve_response filePath ifNoneMatch item c [filePath])
      as [-> ->].
    rewrite He, <- Hdata. split; [reflexivity | exact Hc].
  - unfold cacheGet. rewrite Hl. cbv zeta. unfold serveFromDisk. rewrite Hd.
    pose proof (coherent_cacheSet disk c filePath data m 50 Hc Hd) as Hc2.
    rewrite (cacheGet_after_set 50 disk c filePath data m m).
    2:{ unfold mtimeOf. rewrite Hd. reflexivity. }
    2:{ lia. }
    destruct (serve_response filePath ifNoneMatch
                {| item_content := data; item_mtime := m; item_etag := md5hex data |}
                (cacheSet 50 c filePath data m)
                ([] ++ [filePath; filePath; filePath] ++ [filePath])) as [-> ->].
    split; [reflexivity | exact Hc2].
Qed.

Lemma answer_not_file cwd disk c outputDir filePath ifNoneMatch :
  coherent disk c ->
  match disk !! filePath with Some (File _ _) => False | _ => True end ->
  let '(cached, cache1, acc1) := cacheGet disk c filePath in
  let h := match cached with
           | Some item => serve filePath ifNoneMatch item cache1 acc1
           | None => serveFromDisk cwd outputDir filePath ifNoneMatch disk cache1 acc1
           end in
  response h =
    response (serveFromDisk cwd outputDir filePath ifNoneMatch disk [] []) /\
  cacheAfter h = c.
Proof.
  intros Hc Hd. destruct (cacheLookup c filePath) as [item |] eqn:Hl.
  - destruct (Hc filePath item Hl) as [m' [Hd' _]]. rewrite Hd' in Hd. destruct Hd.
  - unfold cacheGet. rewrite Hl. cbv zeta. unfold serveFromDisk.
    destruct (disk !! filePath) as [[data m | m] |]; [destruct Hd | |].
    + split; reflexivity.
    + destruct (disk !! Path.resolve cwd (Path.join outputDir (js "404.html")))
        as [[data m | m] |];
        split; reflexivity.
Qed.

(** X19 (the request listener, FileCache): the cache is transparent.
    As long as every cached entry is the file on disk, a request
    gets the response it would get with an empty cache, and the cache
    is again coherent afterwards. *)
Theorem cache_transparent cwd projectDir disk fileCache reqUrl ifNoneMatch :
  coherent disk fileCache ->
  let h := handle cwd projectDir disk fileCache reqUrl ifNoneMatch in
  response h = response (handle cwd projectDir disk [] reqUrl ifNoneMatch) /\
  coherent disk (cacheAfter h).
Proof.
  intros Hc h. subst h. unfold handle. cbv zeta.
  destruct (streq (beforeQuery reqUrl) (js "/__live-reload"));
    [split; [reflexivity | exact Hc] |].
  destruct (sanitizePath cwd _ _) as [filePath |]; [| split; [reflexivity | exact Hc]].
  set (outputDir := Path.join projectDir (js "public")).
  destruct (disk !! filePath) as [[data m | m] |] eqn:Hd.
  - pose proof (answer_file cwd disk fileCache outputDir filePath ifNoneMatch data m Hc Hd)
      as Hwarm.
    pose proof (answer_file cwd disk [] outputDir filePath ifNoneMatch data m
                  (coherent_nil disk) Hd) as Hcold.
    destruct (cacheGet disk fileCache filePath) as [[cached cache1] acc1].
    destruct (cacheGet disk [] filePath) as [[cached0 cache0] acc0].
    cbv zeta in Hwarm, Hcold. destruct Hwarm as [-> Hco]. destruct Hcold as [-> _].
    split; [reflexivity | exact Hco].
  - assert (Hnf : match disk !! filePath with Some (File _ _) => False | _ => True end)
      by (rewrite Hd; exact I).
    pose proof (answer_not_file cwd disk fileCache outputDir filePath ifNoneMatch Hc Hnf)
      as Hwarm.
    pose proof (answer_not_file cwd disk [] outputDir filePath ifNoneMatch
                  (coherent_nil disk) Hnf) as Hcold.
    destruct (cacheGet disk fileCache filePath) as [[cached cache1] acc1].
    destruct (cacheGet disk [] filePath) as [[cached0 cache0] acc0].
    cbv zeta in Hwarm, Hcold. destruct Hwarm as [-> ->]. destruct Hcold as [-> _].
    split; [reflexivity | exact Hc].
  - assert (Hnf : match disk !! filePath with Some (File _ _) => False | _ => True end)
      by (rewrite Hd; exact I).
    pose proof (answer_not_file cwd disk fileCache outputDir filePath ifNoneMatch Hc Hnf)
      as Hwarm.
    pose proof (answer_not_file cwd disk [] outputDir filePath ifNoneMatch
                  (coherent_nil disk) Hnf) as Hcold.
    destruct (cacheGet disk fileCache filePath) as [[cached cache1] acc1].
    destruct (cacheGet disk [] filePath) as [[cached0 cache0] acc0].
    cbv zeta in Hwarm, Hcold. destruct Hwarm as [-> ->]. destruct Hcold as [-> _].
    split; [reflexivity | exact Hc].
Qed.

(** X20 (the request listener): conditional requests, as long as every
    entry of the cache is the file on disk, read no earlier than the
    file was last modified.  For a file on disk, a request whose
    If-None-Match header is the MD5 of the file's content is answered
    304 with an empty body; any other request is answered 200 with the
    file's content type and the file's content, into which the
    live-reload script is put if the type is HTML. *)
Theorem conditional_get cwd projectDir disk fileCache reqUrl ifNoneMatch
    filePath data m :
  coherent disk fileCache ->
  streq (beforeQuery reqUrl) (js "/__live-reload") = false ->
  sanitizePath cwd (requestPath (beforeQuery reqUrl))
    (Path.join projectDir (js "public")) = Some filePath ->
  disk !! filePath = Some (File data m) ->
  response (handle cwd projectDir disk fileCache reqUrl ifNoneMatch) =
  Some (if match ifNoneMatch with
           | Some (c :: e) => streq (c :: e) (md5hex data)
           | _ => false
           end
        then Reply 304 None []
        else Reply 200 (Some (contentTypeOf filePath)) (bodyOf filePath data)).
Proof.
  intros Hc Hlive Hs Hd. unfold handle. cbv zeta. rewrite Hlive, Hs.
  pose proof (answer_file cwd disk fileCache (Path.join projectDir (js "public"))
                filePath ifNoneMatch data m Hc Hd) as Hans.
  destruct (cacheGet disk fileCache filePath) as [[cached cache1] acc1].
  cbv zeta in Hans. apply Hans.
Qed.

End WithBuiltins.

Lemma cache_transparent_witness :
  let fileCache :=
    @cacheSet Sample.builtins 50 [] (js "/srv/blog/public/about.html")
      (js "<html><body>About</body></html>") 5 in
  response (@handle Sample.builtins (js "/srv") (js "blog") Scenarios.disk fileCache
              (js "/about") None) =
  response (@handle Sample.builtins (js "/srv") (js "blog") Scenarios.disk []
              (js "/about") None).
Proof.
  intros fileCache.
  apply (@cache_transparent Sample.builtins (js "/srv") (js "blog") Scenarios.disk
           fileCache (js "/about") None).
  apply coherent_cacheSet; [apply coherent_nil | vm_compute; reflexivity].
Defined.

(** The page is in the cache: its digest gets 304, no header gets the
    page with the script in it. *)
Lemma conditional_get_witness :
  let page := js "<html><body>About</body></html>" in
  let fileCache :=
    @cacheSet Sample.builtins 50 [] (js "/srv/blog/public/about.html") page 5 in
  response (@handle Sample.builtins (js "/srv") (js "blog") Scenarios.disk fileCache
              (js "/about") (Some (@md5hex Sample.builtins page))) =
  Some (Reply 304 None []) /\
  response (@handle Sample.builtins (js "/srv") (js "blog") Scenarios.disk fileCache
              (js "/about") None) =
  Some (Reply 200 (Some (js "text/html"))
          (js "<html><body>About" ++ liveReloadScript ++ js "</body></html>")).
Proof.
  intros page fileCache.
  assert (Hc : @coherent Sample.builtins Scenarios.disk fileCache)
    by (apply coherent_cacheSet; [apply coherent_nil | vm_compute; reflexivity]).
  split.
  - rewrite (@conditional_get Sample.builtins (js "/srv") (js "blog") Scenarios.disk
               fileCache (js "/about") (Some (@md5hex Sample.builtins page))
               (js "/srv/blog/public/about.html") page 5 Hc);
      vm_compute; reflexivity.
  - rewrite (@conditional_get Sample.builtins (js "/srv") (js "blog") Scenarios.disk
               fileCache (js "/about") None
               (js "/srv/blog/public/about.html") page 5 Hc);
      vm_compute; reflexivity.
Defined.

End RequestProps.

(** ** Which request paths the dev server accepts *)

Module SanitizeProps.
Import Path Server PathSpec PathProps ServerProps StringProps.

Lemma startsWith_app s r : startsWith (s ++ r) s = true.
Proof.
  induction s as [| c s IH]; simpl; [destruct r; reflexivity |].
  rewrite N.eqb_refl. exact IH.
Qed.

Lemma joinSlash_app_prefix A C : exists rest, joinSlash (A ++ C) = joinSlash A ++ rest.
Proof.
  induction A as [| x A IH]; [exists (joinSlash C); reflexivity |].
  destruct A as [| y A].
  - destruct C as [| z C]; [exists []; symmetry; apply app_nil_r |].
    exists (47 :: joinSlash (z :: C)). reflexivity.
  - destruct IH as [rest E]. exists rest.
    change (joinSlash ((x :: y :: A) ++ C))
      with (x ++ [47] ++ joinSlash ((y :: A) ++ C)).
    rewrite E. change (joinSlash (x :: y :: A)) with (x ++ [47] ++ joinSlash (y :: A)).
    rewrite <- !app_assoc. reflexivity.
Qed.

(** A resolved path is the slash followed by its segments joined. *)
Lemma resolve_canonical cwd p :
  isAbsolute cwd = true ->
  resolve cwd p = 47 :: joinSlash (segments (resolve cwd p)).
Proof.
  intros Hcwd.
  assert (Hn : forall x, [47] ++ normalizeString x false =
                         47 :: joinSlash (segments ([47] ++ normalizeString x false))).
  { intros x. change ([47] ++ ?y) with (47 :: y).
    rewrite segments_slash, segments_normalizeString.
    unfold normalizeString. rewrite normSegments_split. reflexivity. }
  unfold resolve. rewrite Hcwd. destruct (isAbsolute p); apply Hn.
Qed.

(** Between resolved paths, lying inside a directory shows in the
    text: the path begins with the directory's. *)
Lemma inside_startsWith cwd root p :
  isAbsolute cwd = true -> inside cwd root p ->
  startsWith (resolve cwd p) (resolve cwd root) = true.
Proof.
  intros Hcwd [k Hk].
  rewrite (resolve_canonical cwd p Hcwd), (resolve_canonical cwd root Hcwd), Hk.
  destruct (joinSlash_app_prefix (segments (resolve cwd root)) k) as [rest ->].
  cbn [startsWith]. rewrite N.eqb_refl. apply startsWith_app.
Qed.

(** X21 (sanitizePath): the three substring tests decide alone.  A
    request path is refused exactly when it cannot be decoded or its
    decoded text holds two dots in a row, two slashes in a row or a
    backslash; every other path is accepted and mapped to the output
    directory joined with the decoded text, resolved.  The prefix test
    that follows never refuses anything. *)
Theorem sanitizePath_decides cwd urlPath outputDir :
  isAbsolute cwd = true -> outputDir <> [] ->
  sanitizePath cwd urlPath outputDir =
  match Uri.decodeURIComponent urlPath with
  | None => None
  | Some decoded =>
      if includes decoded (js "..") || includes decoded (js "//") ||
         includes decoded [92]
      then None
      else Some (resolve cwd (join outputDir decoded))
  end.
Proof.
  intros Hcwd Hout. unfold sanitizePath.
  destruct (Uri.decodeURIComponent urlPath) as [decoded |]; [| reflexivity].
  destruct (includes decoded (js "..") || includes decoded (js "//") ||
            includes decoded [92]) eqn:Hbad; [reflexivity |].
  apply orb_false_iff in Hbad as [Hbad _].
  apply orb_false_iff in Hbad as [Hdd _].
  rewrite (inside_startsWith cwd outputDir (join outputDir decoded) Hcwd);
    [reflexivity |].
  apply join_inside; assumption.
Qed.

Lemma sanitizePath_decides_witness :
  @sanitizePath (js "/home/me/blog") (js "/posts/hello%20world.html") (js "public") =
  Some (js "/home/me/blog/public/posts/hello world.html").
Proof.
  rewrite (sanitizePath_decides (js "/home/me/blog") (js "/posts/hello%20world.html")
             (js "public") eq_refl ltac:(discriminate)).
  vm_compute. reflexivity.
Defined.

End SanitizeProps.

(** ** Which URLs name the same page *)

Module UrlProps.
Import Path Server PathSpec PathProps StringProps.







Section WithBuiltins.
Context `{Builtins}.


End WithBuiltins.


End UrlProps.

(** ** The debounce timer on arbitrary traces *)

Module DebounceProps.
Import DevLoop DevLoopSpec DebounceSpec DevLoopProps.
Local Open Scope Z_scope.

Lemma settled_step evs s e s' :
  settled evs s -> step s e = Some s' -> settled (evs ++ [e]) s'.
Proof.
  intros Hs Hstep w Hw. rewrite watchTimes_app in Hw. apply in_app_iff in Hw.
  destruct (step_time s e s' Hstep) as [Hmono Hnow].
  unfold step in Hstep. destruct (timeOf e <? now s); [discriminate |].
  destruct e as [t | t | t ok]; simpl in *.
  - injection Hstep as <-. simpl. destruct Hw as [Hw | [<- | []]].
    + destruct (Hs w Hw) as [Hle _]. split; [lia |]. intros d [= <-].
      unfold debounceMs. lia.
    + split; [lia |]. intros d [= <-]. lia.
  - destruct Hw as [Hw | []]. destruct (Hs w Hw) as [Hle _].
    destruct (buildTimeout s) as [d |]; [| discriminate].
    destruct (d <=? t); [| discriminate]. injection Hstep as <-. simpl.
    split; [lia | discriminate].
  - destruct Hw as [Hw | []]. destruct (Hs w Hw) as [Hle Hd].
    destruct (inFlight s); [discriminate |]. injection Hstep as <-. simpl.
    split; [lia | exact Hd].
Qed.

Lemma settled_run pre evs s0 s :
  settled pre s0 -> run s0 evs = Some s -> settled (pre ++ evs) s.
Proof.
  revert pre s0. induction evs as [| e evs IH]; intros pre s0 Hs; simpl.
  - intros [= <-]. rewrite app_nil_r. exact Hs.
  - destruct (step s0 e) as [s1 |] eqn:E; [| discriminate]. intros Hr.
    change (e :: evs) with ([e] ++ evs). rewrite app_assoc.
    apply (IH (pre ++ [e]) s1); [| exact Hr].
    apply (settled_step pre s0 e s1 Hs E).
Qed.

(** X23 (debouncedBuild): the quiet period, on every trace.  Whatever
    the watcher reports and whenever, a rebuild starts no sooner than
    150 ms after every watcher event that came before it. *)
Theorem debounce_quiet_period (evs : list event) (s : Loop) :
  run idle evs = Some s ->
  forall before t after,
    evs = before ++ Timeout t :: after ->
    forall w, In w (watchTimes before) -> w + debounceMs <= t.
Proof.
  intros Hrun before t after -> w Hw.
  rewrite run_app in Hrun.
  destruct (run idle before) as [s1 |] eqn:E1; [| discriminate].
  assert (Hs : settled before s1).
  { apply (settled_run [] before idle s1); [intros x [] | exact E1]. }
  simpl in Hrun. destruct (step s1 (Timeout t)) as [s2 |] eqn:E2; [| discriminate].
  unfold step in E2. simpl in E2. destruct (t <? now s1); [discriminate |].
  destruct (buildTimeout s1) as [d |] eqn:Ed; [| discriminate].
  destruct (Z.leb_spec d t); [| discriminate].
  destruct (Hs w Hw) as [_ Hd]. specialize (Hd d Ed). lia.
Qed.

Lemma accounting_step s e s' n :
  step s e = Some s' ->
  (started s + armed s <= n)%nat ->
  (started s = inFlight s + broadcasts s + failures s)%nat ->
  (started s' + armed s' <= n + length (watchTimes [e]))%nat /\
  (started s' = inFlight s' + broadcasts s' + failures s')%nat.
Proof.
  unfold step, armed. destruct (timeOf e <? now s); [discriminate |].
  destruct e as [t | t | t ok]; simpl.
  - intros [= <-]. simpl. destruct (buildTimeout s); lia.
  - destruct (buildTimeout s) as [d |]; [| discriminate].
    destruct (d <=? t); [| discriminate]. intros [= <-]. simpl. lia.
  - destruct (inFlight s) as [| k] eqn:Ek; [discriminate |]. intros [= <-]. simpl.
    destruct (buildTimeout s); destruct ok; lia.
Qed.

Lemma accounting_run evs s0 s n :
  run s0 evs = Some s ->
  (started s0 + armed s0 <= n)%nat ->
  (started s0 = inFlight s0 + broadcasts s0 + failures s0)%nat ->
  (started s + armed s <= n + length (watchTimes evs))%nat /\
  (started s = inFlight s + broadcasts s + failures s)%nat.
Proof.
  revert s0 n. induction evs as [| e evs IH]; intros s0 n; cbn [run].
  - intros [= <-] H1 H2. simpl. split; [lia | exact H2].
  - destruct (step s0 e) as [s1 |] eqn:E; [| discriminate]. intros Hr H1 H2.
    destruct (accounting_step s0 e s1 n E H1 H2) as [H1' H2'].
    destruct (IH s1 _ Hr H1' H2') as [H1'' H2''].
    split; [| exact H2''].
    change (e :: evs) with ([e] ++ evs). rewrite watchTimes_app.
    rewrite List.length_app. lia.
Qed.

(** X24 (debouncedBuild): the rebuilds add up, on every trace.  There
    are never more rebuilds started, plus the one the armed timer will
    start, than watcher events were reported; and every rebuild that
    was started is either still in flight or has ended in exactly one
    reload broadcast or one logged error. *)
Theorem rebuild_accounting (evs : list event) (s : Loop) :
  run idle evs = Some s ->
  (started s + armed s <= length (watchTimes evs))%nat /\
  (started s = inFlight s + broadcasts s + failures s)%nat.
Proof.
  intros Hrun.
  destruct (accounting_run evs idle s 0%nat Hrun) as [H1 H2];
    [apply Nat.le_refl | reflexivity |].
  split; [exact H1 | exact H2].
Qed.

Lemma debounce_quiet_period_witness :
  (200 + debounceMs <= 350)%Z.
Proof.
  apply (debounce_quiet_period
           [Watch 0; Timeout 150; Watch 200; Timeout 350]
           {| now := 350; buildTimeout := None; inFlight := 2; started := 2;
              broadcasts := 0; failures := 0 |}
           eq_refl [Watch 0; Timeout 150; Watch 200] 350 [] eq_refl 200).
  simpl. tauto.
Defined.

Lemma rebuild_accounting_witness :
  let s := {| now := 400; buildTimeout := None; inFlight := 1; started := 2;
              broadcasts := 1; failures := 0 |} in
  (started s + armed s <= 2)%nat /\
  (started s = inFlight s + broadcasts s + failures s)%nat.
Proof.
  intros s.
  apply (rebuild_accounting
           [Watch 0; Timeout 150; Watch 200; Timeout 350; Settled 400 true] s eq_refl).
Defined.

End DebounceProps.

(** ** The project scaffold *)

Module ScaffoldProps.
Import Scaffold ScaffoldSpec.

Lemma createIfMissing_keeps (rel content : jsstring) (fs : gmap jsstring jsstring)
    (k v : jsstring) :
  fs !! k = Some v -> createIfMissing rel content fs !! k = Some v.
Proof.
  intros Hk. unfold createIfMissing. destruct (fs !! rel) eqn:E; [exact Hk |].
  rewrite lookup_insert_ne; [exact Hk |]. intros ->. congruence.
Qed.

Lemma createIfMissing_other (rel content : jsstring) (fs : gmap jsstring jsstring)
    (k : jsstring) :
  k <> rel -> createIfMissing rel content fs !! k = fs !! k.
Proof.
  intros Hne. unfold createIfMissing. destruct (fs !! rel); [reflexivity |].
  apply lookup_insert_ne. congruence.
Qed.

Lemma createIfMissing_exists (rel content : jsstring) (fs : gmap jsstring jsstring) :
  is_Some (createIfMissing rel content fs !! rel).
Proof.
  unfold createIfMissing. destruct (fs !! rel) eqn:E.
  - rewrite E. eexists. reflexivity.
  - rewrite lookup_insert_eq. eexists. reflexivity.
Qed.

Lemma createIfMissing_present (rel content : jsstring) (fs : gmap jsstring jsstring) :
  is_Some (fs !! rel) -> createIfMissing rel content fs = fs.
Proof. intros [v E]. unfold createIfMissing. rewrite E. reflexivity. Qed.

Lemma create_all_keeps (l : list (jsstring * jsstring))
    (fs : gmap jsstring jsstring) (k v : jsstring) :
  fs !! k = Some v ->
  fold_left (fun fs e => createIfMissing (fst e) (snd e) fs) l fs !! k = Some v.
Proof.
  revert fs. induction l as [| e l IH]; intros fs Hk; [exact Hk |].
  apply IH, createIfMissing_keeps. exact Hk.
Qed.

Lemma create_all_other (l : list (jsstring * jsstring))
    (fs : gmap jsstring jsstring) (k : jsstring) :
  ~ In k (List.map fst l) ->
  fold_left (fun fs e => createIfMissing (fst e) (snd e) fs) l fs !! k = fs !! k.
Proof.
  revert fs. induction l as [| e l IH]; intros fs Hk; [reflexivity |].
  cbn [fold_left]. rewrite IH by (intros Hin; apply Hk; right; exact Hin).
  apply createIfMissing_other. intros ->. apply Hk. left. reflexivity.
Qed.

Lemma create_all_exists (l : list (jsstring * jsstring))
    (fs : gmap jsstring jsstring) (k : jsstring) :
  In k (List.map fst l) ->
  is_Some (fold_left (fun fs e => createIfMissing (fst e) (snd e) fs) l fs !! k).
Proof.
  revert fs. induction l as [| e l IH]; intros fs Hk; [destruct Hk |].
  cbn [fold_left]. destruct Hk as [<- | Hk]; [| apply IH; exact Hk].
  destruct (createIfMissing_exists (fst e) (snd e) fs) as [v Hv].
  rewrite (create_all_keeps l _ _ v Hv). eexists. reflexivity.
Qed.

Lemma create_all_present (l : list (jsstring * jsstring))
    (fs : gmap jsstring jsstring) :
  (forall k, In k (List.map fst l) -> is_Some (fs !! k)) ->
  fold_left (fun fs e => createIfMissing (fst e) (snd e) fs) l fs = fs.
Proof.
  induction l as [| e l IH]; intros Hall; [reflexivity |].
  cbn [fold_left]. rewrite createIfMissing_present by (apply Hall; left; reflexivity).
  apply IH. intros k Hk. apply Hall. right. exact Hk.
Qed.

Section WithTexts.
Context `{Texts}.

Lemma init_scaffold fs :
  init fs = fold_left (fun fs e => createIfMissing (fst e) (snd e) fs) scaffold fs.
Proof.
  unfold init, scaffold, defaultTemplates.
  cbn [List.map fold_left app fst snd]. reflexivity.
Qed.

(** X25 (init): the scaffold never overwrites.  Every file that exists
    before [init] has the same content afterwards; every path that is
    not one of the twelve scaffold files is left as it was; afterwards
    all twelve exist, among them the index page the root listing is
    rendered from; and running [init] again changes nothing. *)
Theorem init_never_overwrites (fs : gmap jsstring jsstring) :
  (forall k v, fs !! k = Some v -> init fs !! k = Some v) /\
  (forall k, ~ In k (List.map fst scaffold) -> init fs !! k = fs !! k) /\
  (forall k, In k (List.map fst scaffold) -> is_Some (init fs !! k)) /\
  In (js "pages/index.md") (List.map fst scaffold) /\
  init (init fs) = init fs.
Proof.
  rewrite !init_scaffold. split; [| split; [| split; [| split]]].
  - intros k v. apply create_all_keeps.
  - intros k. apply create_all_other.
  - intros k. apply create_all_exists.
  - unfold scaffold. apply in_map_iff. exists (js "pages/index.md", indexPage).
    split; [reflexivity |]. apply in_or_app. right.
    do 5 right. left. reflexivity.
  - apply create_all_present. intros k. apply create_all_exists.
Qed.

End WithTexts.

Lemma init_never_overwrites_witness :
  let fs : gmap jsstring jsstring := {[ js "config.json" := js "{ mine }" ]} in
  @init Scenarios.texts fs !! js "config.json" = Some (js "{ mine }") /\
  is_Some (@init Scenarios.texts fs !! js "pages/index.md").
Proof.
  intros fs.
  destruct (@init_never_overwrites Scenarios.texts fs) as (Hkeep & _ & Hall & Hin & _).
  split.
  - apply Hkeep. vm_compute. reflexivity.
  - apply Hall. exact Hin.
Defined.

End ScaffoldProps.

(** ** The files of the images directory *)

Module ImagesProps.
Import Images.

Section WithBuiltins.
Context `{Builtins}.

Lemma optimizable_is_image f : isOptimizableImage f = true -> isAnyImage f = true.
Proof.
  unfold isOptimizableImage, isAnyImage, Related.arrayIncludes. cbv zeta.
  set (ext := toLowerCase (Path.extname f)). simpl.
  destruct (streq ext (js ".jpg")); [reflexivity |].
  destruct (streq ext (js ".jpeg")); [reflexivity |].
  destruct (streq ext (js ".png")); [reflexivity | discriminate].
Qed.

Lemma filter_split {A : Type} (f : A -> bool) l :
  Permutation (List.filter f l ++ List.filter (fun x => negb (f x)) l) l.
Proof.
  induction l as [| a l IH]; simpl; [constructor |].
  destruct (f a); simpl.
  - constructor. exact IH.
  - apply Permutation_sym. apply Permutation_cons_app. apply Permutation_sym. exact IH.
Qed.

(** X26 (processImages, isOptimizableImage, isAnyImage): every file of
    the images directory is handled exactly once.  The images to
    convert, the images to copy and the other files to copy are,
    together, the files that were found, each as often as it was found;
    a file to convert is always an image, and the images to copy are
    the images that are not converted. *)
Theorem image_files_partition (files : list jsstring) :
  Permutation (optimizableImages files ++ copyOnlyImages files ++ nonImageFiles files)
    files /\
  (forall f, isOptimizableImage f = true -> isAnyImage f = true) /\
  (forall f, In f (copyOnlyImages files) <->
             In f files /\ isAnyImage f = true /\ isOptimizableImage f = false) /\
  (forall f, In f (nonImageFiles files) <-> In f files /\ isAnyImage f = false).
Proof.
  split; [| split; [exact optimizable_is_image | split]].
  - unfold optimizableImages, copyOnlyImages, nonImageFiles, otherFiles.
    eapply Permutation_trans; [| apply (filter_split isOptimizableImage files)].
    apply Permutation_app_head. apply filter_split.
  - intros f. unfold copyOnlyImages, otherFiles. rewrite !filter_In, negb_true_iff.
    tauto.
  - intros f. unfold nonImageFiles, otherFiles. rewrite !filter_In, !negb_true_iff.
    split; [tauto |]. intros [Hin Hno]. split; [split; [exact Hin |] | exact Hno].
    destruct (isOptimizableImage f) eqn:E; [| reflexivity].
    rewrite (optimizable_is_image f E) in Hno. discriminate.
Qed.

End WithBuiltins.

Lemma image_files_partition_witness :
  In (js "anim.gif")
    (@copyOnlyImages Sample.builtins [js "a.JPG"; js "anim.gif"; js "notes.txt"]).
Proof.
  apply (proj1 (proj2 (proj2 (@image_files_partition Sample.builtins
                                [js "a.JPG"; js "anim.gif"; js "notes.txt"])))
           (js "anim.gif")).
  split; [right; left; reflexivity |]. split; vm_compute; reflexivity.
Defined.

End ImagesProps.

(** ** Where a pass writes *)

Module WriteSetProps.
Import Template Builder Assembler AssemblerSpec AssemblerProps.
Import FeedsSpec PassSpec StringProps TagProps PassProps.

Lemma written_writeFile rel data d k :
  In k (keysOf (written (writeFile rel data d))) <->
  k = rel \/ In k (keysOf (written d)).
Proof. unfold keysOf. simpl. split; intros [E | E]; auto. Qed.

Lemma written_writeIfHtml rel html d k :
  In k (keysOf (written (writeIfHtml rel html d))) ->
  k = rel \/ In k (keysOf (written d)).
Proof.
  destruct html as [[| c h] |]; cbn [writeIfHtml];
    [intros Hin; right; exact Hin | | intros Hin; right; exact Hin].
  intros Hin. apply written_writeFile in Hin. exact Hin.
Qed.

Lemma written_fold_writeFile {A : Type} (f g : A -> jsstring) l d k :
  In k (keysOf (written (fold_left (fun d e => writeFile (f e) (g e) d) l d))) ->
  (exists e, In e l /\ k = f e) \/ In k (keysOf (written d)).
Proof.
  revert d. induction l as [| a l IH]; intros d; simpl; [auto |].
  intros Hin. destruct (IH _ Hin) as [[e [He Hk]] | Hd].
  - left. exists e. auto.
  - apply written_writeFile in Hd as [-> | Hd]; [| auto].
    left. exists a. auto.
Qed.

Lemma entries_In_inv {V : Type} (o : list (jsstring * V)) e :
  In e (entries o) -> In e o.
Proof.
  unfold entries. intros Hin. apply in_app_iff in Hin as [Hin | Hin].
  - apply (Permutation_in _ (SortProps.sort_perm _ _)) in Hin.
    apply filter_In in Hin. tauto.
  - apply filter_In in Hin. tauto.
Qed.

Section WithBuiltins.
Context `{Builtins} `{Fragments}.

Lemma written_loop incremental fs cache templates all config ps st st' k :
  foldM (buildOne incremental fs cache templates all config) ps st = Returns st' ->
  In k (keysOf (written (snd st'))) ->
  (exists post, In post ps /\ truthy (draft post) = false /\ k = postPath post) \/
  In k (keysOf (written (snd st))).
Proof.
  revert st. induction ps as [| p ps IH]; intros st; simpl.
  - intros [= <-]. auto.
  - destruct (buildOne incremental fs cache templates all config st p)
      as [st1 | |] eqn:E1; simpl; try discriminate.
    intros Hrest Hin. destruct (IH st1 Hrest Hin) as [[post [Hp [Hd Hk]]] | Hin1].
    + left. exists post. auto.
    + unfold buildOne in E1. destruct (truthy (draft p)) eqn:Ed.
      * injection E1 as <-. auto.
      * destruct (needsBuild incremental fs cache p); [| injection E1 as <-; auto].
        destruct (buildPost p templates all config) as [html | |]; simpl in E1;
          try discriminate.
        injection E1 as <-. simpl in Hin1.
        apply written_writeIfHtml in Hin1 as [-> | Hin1]; [| auto].
        left. exists p. auto.
Qed.

Lemma written_rebuildIndex templates all config d d' k :
  rebuildIndex templates all config d = Returns d' ->
  In k (keysOf (written d')) -> k = js "index.html" \/ In k (keysOf (written d)).
Proof.
  unfold rebuildIndex. destruct (List.find _ all) as [indexPost |].
  - destruct (buildPost indexPost templates all config) as [html | |]; simpl;
      try discriminate.
    intros [= <-]. apply written_writeIfHtml.
  - intros [= <-]. auto.
Qed.

Lemma written_buildTagPages all templates config d d' k :
  buildTagPages all templates config d = Returns d' ->
  In k (keysOf (written d')) ->
  (exists post tag, In post all /\ published post = true /\ In tag (tags post) /\
                    k = tagPagePath tag) \/
  In k (keysOf (written d)).
Proof.
  unfold buildTagPages. destruct (groupByTag all) as [g | |] eqn:Eg; simpl;
    try discriminate.
  destruct (orElse _ _) as [| | | | | [| c t] |]; intros [= <-]; auto.
  intros Hin.
  apply (written_fold_writeFile (fun e => tagPagePath (fst e))
           (fun e => tagPage (c :: t) config (fst e) (snd e))) in Hin
    as [[e [He Hk]] | Hin]; [| auto].
  left. apply entries_In_inv in He.
  destruct (groupByTag_grouping all g Eg) as [_ Hkeys].
  destruct (proj1 (proj2 (Hkeys (fst e))) (in_map fst _ _ He)) as [p [Hp [Hpub Ht]]].
  exists p, (fst e). auto.
Qed.

Lemma written_writePage listTemplate config d page k :
  In k (keysOf (written (writePage listTemplate config d page))) ->
  k = pagePath (Paginate.currentPage page) \/ k = js "index.html" \/
  In k (keysOf (written d)).
Proof.
  unfold writePage. intros Hin. apply written_writeFile in Hin as [-> | Hin]; [auto |].
  destruct (_ && _); [| auto].
  apply written_writeFile in Hin as [-> | Hin]; auto.
Qed.

Lemma written_buildPaginationPages all templates config d d' k :
  buildPaginationPages all templates config d = Returns d' ->
  In k (keysOf (written d')) ->
  (exists n, 0 < n /\ k = pagePath n) \/ k = js "index.html" \/
  In k (keysOf (written d)).
Proof.
  unfold buildPaginationPages.
  destruct (Paginate.paginate _ _) as [pages |] eqn:Ep; [| discriminate].
  destruct (orElse _ _) as [| | | | | [| c t] |]; intros [= <-]; auto.
  pose proof (PaginateProps.pages_numbered _ _ _ Ep) as Hnum.
  clear Ep. revert d Hnum. induction pages as [| page pages IH]; intros d Hnum; simpl;
    [auto |].
  intros Hin. destruct (IH _ (fun q Hq => Hnum q (or_intror Hq)) Hin)
    as [Hn | [Hi | Hw]]; [auto | auto |].
  apply written_writePage in Hw as [-> | [-> | Hw]]; [| auto | auto].
  left. exists (Paginate.currentPage page). split; [| reflexivity].
  apply Hnum. left. reflexivity.
Qed.

(** X27 (build and the functions it calls): a pass writes nowhere
    else.  Every path a pass writes below the output directory is the
    page of a post that is not a draft, [index.html], the page of a
    tag of a published post, a numbered pagination page, [rss.xml],
    [sitemap.xml], a file of the static directory or the custom
    [404.html]. *)
Theorem pass_writes_only src incremental persisted files0 clock pass :
  build src incremental persisted files0 clock = Returns pass ->
  forall k,
    In k (writes pass) ->
    (exists post,
       In post (posts pass) /\ truthy (draft post) = false /\ k = postPath post) \/
    k = js "index.html" \/
    (exists post tag,
       In post (posts pass) /\ published post = true /\ In tag (tags post) /\
       k = tagPagePath tag) \/
    (exists n, 0 < n /\ k = pagePath n) \/
    k = js "rss.xml" \/ k = js "sitemap.xml" \/
    (exists staticFiles data,
       src_static src = Some staticFiles /\ In (k, data) staticFiles) \/
    (k = js "404.html" /\ src_404 src <> None).
Proof.
  intros Hb k Hk.
  destruct (build_stages _ _ _ _ _ _ Hb)
    as (st & d1 & d2 & d3 & sitemap & E0 & E1 & E2 & E3 & _ & Hout & Hposts & _).
  rewrite Hposts.
  assert (Hk' : In k (keysOf (written (out pass)))).
  { unfold writes in Hk. unfold keysOf. rewrite List.map_rev in Hk.
    apply in_rev. exact Hk. }
  rewrite Hout in Hk'. clear Hk Hout.
  unfold copy404 in Hk'.
  assert (H5 : (k = js "404.html" /\ src_404 src <> None) \/
               In k (keysOf (written (copyStatic src
                 (writeFile (js "sitemap.xml") sitemap
                    (writeFile (js "rss.xml")
                       (Feeds.generateRSS (rssInstant clock)
                          (parseFrom clock (src_pagesDir src) 0 (src_pages src))
                          (src_config src)) d3)))))).
  { destruct (src_404 src) as [page |]; [| auto].
    apply written_writeFile in Hk' as [-> | Hk']; [left; split; congruence | auto]. }
  destruct H5 as [H5 | H5]; [tauto |]. clear Hk'.
  unfold copyStatic in H5.
  assert (H4 : (exists staticFiles data,
                  src_static src = Some staticFiles /\ In (k, data) staticFiles) \/
               In k (keysOf (written
                 (writeFile (js "sitemap.xml") sitemap
                    (writeFile (js "rss.xml")
                       (Feeds.generateRSS (rssInstant clock)
                          (parseFrom clock (src_pagesDir src) 0 (src_pages src))
                          (src_config src)) d3))))).
  { destruct (src_static src) as [l |]; [| auto].
    apply (written_fold_writeFile fst snd) in H5 as [[e [He ->]] | H5]; [| auto].
    left. exists l, (snd e). split; [reflexivity |]. destruct e; exact He. }
  destruct H4 as [H4 | H4]; [tauto |]. clear H5.
  apply written_writeFile in H4 as [-> | H4]; [tauto |].
  apply written_writeFile in H4 as [-> | H4]; [tauto |].
  destruct (written_buildPaginationPages _ _ _ _ _ _ E3 H4) as [Hn | [-> | H3]];
    [tauto | tauto |].
  destruct (written_buildTagPages _ _ _ _ _ _ E2 H3) as [Ht | H2]; [tauto |].
  assert (H1 : k = js "index.html" \/ In k (keysOf (written (snd st)))).
  { destruct (fst st || negb incremental); [| injection E1 as <-; auto].
    apply (written_rebuildIndex _ _ _ _ _ _ E1 H2). }
  destruct H1 as [-> | H1]; [tauto |].
  destruct (written_loop _ _ _ _ _ _ _ _ _ _ E0 H1) as [Hp | []]. tauto.
Qed.

End WithBuiltins.

Lemma pass_writes_only_witness :
  let pass := Sample.passOf Sample.firstPass in
  let k := js "tags/x.html" in
  In k (writes pass) /\
  ((exists post,
      In post (posts pass) /\ truthy (draft post) = false /\ k = postPath post) \/
   k = js "index.html" \/
   (exists post tag,
      In post (posts pass) /\ published post = true /\ In tag (tags post) /\
      k = @tagPagePath Sample.builtins tag) \/
   (exists n, 0 < n /\ k = pagePath n) \/
   k = js "rss.xml" \/ k = js "sitemap.xml" \/
   (exists staticFiles data,
      src_static Sample.blog = Some staticFiles /\ In (k, data) staticFiles) \/
   (k = js "404.html" /\ src_404 Sample.blog <> None)).
Proof.
  intros pass k.
  assert (E : Sample.firstPass = Returns pass) by (vm_compute; reflexivity).
  assert (Hk : In k (writes pass)) by (vm_compute; tauto).
  split; [exact Hk |].
  apply (@pass_writes_only Sample.builtins Sample.fragments Sample.blog false ∅ ∅
           (Sample.clockAt 1793674140000) pass E k Hk).
Defined.

End WriteSetProps.

(** ** The root page of a site without an index post, first pass *)

Module RootPageProps.
Import Template Builder Assembler AssemblerSpec AssemblerProps.
Import FeedsSpec PassSpec StringProps TagProps PassProps WriteSetProps.

Lemma files_writeFile_ne rel data d k :
  rel <> k -> files (writeFile rel data d) !! k = files d !! k.
Proof. intros Hne. simpl. apply lookup_insert_ne. exact Hne. Qed.

Lemma files_fold_writeFile_ne (l : list (jsstring * jsstring)) d k :
  ~ In k (List.map fst l) ->
  files (fold_left (fun d e => writeFile (fst e) (snd e) d) l d) !! k = files d !! k.
Proof.
  revert d. induction l as [| e l IH]; intros d Hk; [reflexivity |].
  cbn [fold_left]. rewrite IH by (intros Hin; apply Hk; right; exact Hin).
  apply files_writeFile_ne. intros E. apply Hk. left. exact E.
Qed.

Lemma pagePath_inj n m : pagePath n = pagePath m -> n = m.
Proof.
  unfold pagePath. intros E. apply app_inv_head in E.
  apply app_inv_tail in E. apply HeadingProps.showN_inj. exact E.
Qed.

Section WithBuiltins.
Context `{Builtins} `{Fragments}.

Lemma later_pages_keep listTemplate config pages d k :
  (forall page, In page pages ->
     Paginate.currentPage page <> 1 /\ pagePath (Paginate.currentPage page) <> k) ->
  files (fold_left (writePage listTemplate config) pages d) !! k = files d !! k.
Proof.
  revert d. induction pages as [| page pages IH]; intros d Hall; [reflexivity |].
  cbn [fold_left]. rewrite IH by (intros q Hq; apply Hall; right; exact Hq).
  destruct (Hall page (or_introl eq_refl)) as [Hn Hp].
  unfold writePage. rewrite files_writeFile_ne by exact Hp.
  destruct (N.eqb_spec (Paginate.currentPage page) 1) as [E | _]; [congruence |].
  reflexivity.
Qed.

(** X28 (buildPaginationPages, build): on a site without an index
    post, a pass that finds no [index.html] in the output directory,
    as every full pass does, leaves the first pagination page there as
    the root page.  Given a list template and at least one listed post,
    [index.html] and [page/1.html] exist afterwards and are the same
    bytes, unless the static directory holds a file of either name. *)
Theorem root_mirrors_first_page src incremental persisted files0 clock pass c t :
  build src incremental persisted files0 clock = Returns pass ->
  (if incremental then files0 !! js "index.html" else None) = None ->
  (forall post, In post (posts pass) -> slug post <> js "index") ->
  orElse (templateGet (src_templates src) (js "list"))
    (templateGet (src_templates src) (js "default")) = JStr (c :: t) ->
  (exists post, In post (posts pass) /\ Feeds.listed post = true) ->
  (forall l, src_static src = Some l ->
             ~ In (js "index.html") (List.map fst l) /\
             ~ In (pagePath 1) (List.map fst l)) ->
  exists html,
    files (out pass) !! js "index.html" = Some html /\
    files (out pass) !! pagePath 1 = Some html.
Proof.
  intros Hb Hnone Hposts Htpl [lp [Hlp Hlisted]] Hstatic.
  destruct (build_stages _ _ _ _ _ _ Hb)
    as (st & d1 & d2 & d3 & sitemap & E0 & E1 & E2 & E3 & _ & Hout & Hp & _).
  rewrite Hp in Hposts, Hlp.
  set (all := parseFrom clock (src_pagesDir src) 0 (src_pages src)) in *.
  set (before := if incremental then files0 else ∅ : gmap jsstring jsstring).
  assert (Hbefore : before !! js "index.html" = None).
  { subst before. destruct incremental; [exact Hnone | apply lookup_empty]. }
  (* nothing has written index.html when the pagination starts *)
  assert (T0 : tracked before {| files := before; written := [] |}) by reflexivity.
  pose proof (tracked_loop before _ _ _ _ _ _ _ _ _ E0 T0) as Tst.
  assert (E1' : d1 = snd st).
  { destruct (fst st || negb incremental); [| injection E1 as <-; reflexivity].
    unfold rebuildIndex in E1. rewrite (find_index_none all Hposts) in E1.
    injection E1 as <-. reflexivity. }
  subst d1.
  pose proof (tracked_buildTagPages before _ _ _ _ _ E2 Tst) as T2.
  assert (Hfresh : files d2 !! js "index.html" = None).
  { rewrite T2, replay_unwritten; [exact Hbefore |].
    intros Hin.
    destruct (written_buildTagPages _ _ _ _ _ _ E2 Hin)
      as [[post [tag [_ [_ [_ Hk]]]]] | Hin1].
    - symmetry in Hk. apply (tagPagePath_index tag Hk).
    - destruct (written_loop _ _ _ _ _ _ _ _ _ _ E0 Hin1)
        as [[post [Hin2 [_ Hk]]] | []].
      symmetry in Hk. apply (postPath_index post (Hposts post Hin2) Hk). }
  (* the pagination: the first page is written twice *)
  unfold buildPaginationPages in E3. cbv zeta in E3. fold all in E3.
  set (sorted := Feeds.sortByDate (List.filter Feeds.listed all)) in *.
  assert (Hsorted : sorted <> []).
  { intros E. apply PassProps.sortByDate_nil_inv in E.
    assert (Hf : In lp (List.filter Feeds.listed all)) by (apply filter_In; auto).
    rewrite E in Hf. destruct Hf. }
  destruct (Paginate.paginate sorted (cfg_postsPerPage (src_config src)))
    as [pages |] eqn:Epages; [| discriminate].
  rewrite Htpl in E3. injection E3 as <-.
  assert (Hpos : 0 < cfg_postsPerPage (src_config src)).
  { unfold Paginate.paginate in Epages.
    destruct (N.eqb_spec (cfg_postsPerPage (src_config src)) 0) as [E | Hne]; [| lia].
    destruct sorted; [congruence | discriminate]. }
  rewrite (PaginateProps.paginate_pages sorted _ Hpos) in Epages.
  injection Epages as <-.
  set (total := Paginate.ceilDiv (N.of_nat (length sorted))
                  (cfg_postsPerPage (src_config src))) in *.
  assert (Htotal : (0 < N.to_nat total)%nat).
  { subst total. rewrite PaginateProps.ceilDiv_nat by exact Hpos.
    destruct sorted as [| a l]; [congruence |]. cbn [length].
    apply Nat.div_str_pos. lia. }
  destruct (N.to_nat total) as [| T'] eqn:ET; [lia |].
  cbn [seq List.map fold_left] in Hout.
  set (page0 := Paginate.pageAt sorted (cfg_postsPerPage (src_config src)) total 0)
    in *.
  set (html := listPage (c :: t) (src_config src) page0).
  assert (Hfirst : writePage (c :: t) (src_config src) d2 page0 =
                   writeFile (pagePath 1) html
                     (writeFile (js "index.html") html d2)).
  { unfold writePage. fold html. change (Paginate.currentPage page0) with 1.
    unfold exists_. rewrite Hfresh.
    rewrite bool_decide_eq_false_2 by (intros [x Hx]; discriminate).
    reflexivity. }
  rewrite Hfirst in Hout.
  assert (Hrest : forall page,
            In page (List.map (Paginate.pageAt sorted
                                 (cfg_postsPerPage (src_config src)) total)
                       (seq 1 T')) ->
            Paginate.currentPage page <> 1).
  { intros page Hin. apply in_map_iff in Hin as [i [<- Hi]].
    apply in_seq in Hi. simpl. lia. }
  exists html. rewrite Hout.
  assert (Hcopies : forall k v dd,
            k <> js "404.html" -> k <> js "sitemap.xml" -> k <> js "rss.xml" ->
            (forall l, src_static src = Some l -> ~ In k (List.map fst l)) ->
            files dd !! k = Some v ->
            files (copy404 src (copyStatic src
                     (writeFile (js "sitemap.xml") sitemap
                        (writeFile (js "rss.xml")
                           (Feeds.generateRSS (rssInstant clock) all (src_config src))
                           dd)))) !! k = Some v).
  { intros k v dd H404 Hsm Hrss Hst Hv.
    assert (Hs : files (copyStatic src
                     (writeFile (js "sitemap.xml") sitemap
                        (writeFile (js "rss.xml")
                           (Feeds.generateRSS (rssInstant clock) all (src_config src))
                           dd))) !! k = Some v).
    { unfold copyStatic. destruct (src_static src) as [l |] eqn:El.
      - rewrite files_fold_writeFile_ne by (apply (Hst l eq_refl)).
        rewrite !files_writeFile_ne by congruence. exact Hv.
      - rewrite !files_writeFile_ne by congruence. exact Hv. }
    unfold copy404. destruct (src_404 src); [| exact Hs].
    rewrite files_writeFile_ne by congruence. exact Hs. }
  split.
  - apply Hcopies; try discriminate.
    + intros l El. apply (Hstatic l El).
    + rewrite later_pages_keep.
      * rewrite files_writeFile_ne by apply pagePath_index.
        apply lookup_insert_eq.
      * intros page Hin. split; [apply Hrest; exact Hin | apply pagePath_index].
  - apply Hcopies.
    + apply head_differs. vm_compute. discriminate.
    + apply head_differs. vm_compute. discriminate.
    + apply head_differs. vm_compute. discriminate.
    + intros l El. apply (Hstatic l El).
    + rewrite later_pages_keep; [apply lookup_insert_eq |].
      intros page Hin. split; [apply Hrest; exact Hin |].
      intros E. apply pagePath_inj in E. apply (Hrest page Hin E).
Qed.

End WithBuiltins.

Lemma root_mirrors_first_page_witness :
  let pass := Sample.passOf Sample.firstPass in
  exists html,
    files (out pass) !! js "index.html" = Some html /\
    files (out pass) !! pagePath 1 = Some html.
Proof.
  intros pass.
  assert (E : Sample.firstPass = Returns pass) by (vm_compute; reflexivity).
  apply (@root_mirrors_first_page Sample.builtins Sample.fragments Sample.blog false
           ∅ ∅ (Sample.clockAt 1793674140000) pass 60
           (js "html>{{posts}}{{pagination}}</html>") E).
  - reflexivity.
  - intros post Hin. vm_compute in Hin.
    destruct Hin as [<- | [<- | []]]; vm_compute; discriminate.
  - vm_compute. reflexivity.
  - exists (nth 0 (posts pass) RelatedSpec.postA).
    split; [vm_compute; tauto | vm_compute; reflexivity].
  - intros l El. vm_compute in El. discriminate.
Defined.

End RootPageProps.

(** ** The template renderer on well-formed templates *)

Module TemplateEngineProps.
Import Template TemplateSpec StringProps.

Ltac bits p := repeat (destruct p as [p | p |]; try reflexivity).

Ltac bits_or_absurd p :=
  repeat (destruct p as [p | p |]; try reflexivity; try discriminate).

Lemma matchPlaceholder_head key a s :
  (a =? 123) = false -> matchPlaceholder key (a :: s) = None.
Proof.
  intros Ha. unfold matchPlaceholder.
  destruct a as [| p]; [reflexivity |]. bits_or_absurd p.
Qed.

Lemma matchPlaceholder_second key b s :
  (b =? 123) = false -> matchPlaceholder key (123 :: b :: s) = None.
Proof.
  intros Hb. unfold matchPlaceholder.
  destruct b as [| p]; [reflexivity |]. bits_or_absurd p.
Qed.

Lemma matchPlaceholder_single key a : matchPlaceholder key [a] = None.
Proof.
  unfold matchPlaceholder. destruct a as [| p]; [reflexivity |]. bits p.
Qed.

(** No placeholder begins in calm text, whatever follows it. *)
Lemma calm_no_match key c t rest :
  calm (c :: t) = true -> matchPlaceholder key (c :: t ++ rest) = None.
Proof.
  cbn [calm]. intros Hc. apply andb_true_iff in Hc as [Hc _].
  destruct (c =? 123) eqn:E; [| apply matchPlaceholder_head; exact E].
  apply N.eqb_eq in E. subst c. destruct t as [| d t]; [discriminate |].
  apply negb_true_iff in Hc. apply matchPlaceholder_second. exact Hc.
Qed.

Lemma calm_tail c t : calm (c :: t) = true -> calm t = true.
Proof. cbn [calm]. intros Hc. apply andb_true_iff in Hc as [_ Hc]. exact Hc. Qed.

Lemma replaceAll_calm key repl t seen rest :
  calm t = true ->
  replaceAll key repl seen (t ++ rest) 0 =
  t ++ replaceAll key repl (rev t ++ seen) rest 0.
Proof.
  revert seen. induction t as [| c t IH]; intros seen Hc; [reflexivity |].
  change ((c :: t) ++ rest) with (c :: t ++ rest). cbn [replaceAll].
  rewrite (calm_no_match key c t rest Hc).
  rewrite (IH (c :: seen) (calm_tail c t Hc)).
  cbn [rev]. rewrite <- app_assoc. reflexivity.
Qed.

Lemma replaceAll_none key repl seen c s :
  matchPlaceholder key (c :: s) = None ->
  replaceAll key repl seen (c :: s) 0 = c :: replaceAll key repl (c :: seen) s 0.
Proof. intros Hm. cbn [replaceAll]. rewrite Hm. reflexivity. Qed.

(** The units a match covers are skipped. *)
Lemma replaceAll_skip key repl a seen rest :
  replaceAll key repl seen (a ++ rest) (length a) =
  replaceAll key repl (rev a ++ seen) rest 0.
Proof.
  revert seen. induction a as [| c a IH]; intros seen; [reflexivity |].
  change ((c :: a) ++ rest) with (c :: a ++ rest). cbn [replaceAll length].
  rewrite IH. cbn [rev]. rewrite <- app_assoc. reflexivity.
Qed.

Lemma expand_dollarFree repl matched pre post :
  dollarFree repl = true -> expand repl matched pre post = repl.
Proof.
  unfold dollarFree. induction repl as [| c repl IH]; intros Hd; [reflexivity |].
  cbn [forallb] in Hd. apply andb_true_iff in Hd as [Hc Hd].
  apply negb_true_iff in Hc.
  assert (E : expand (c :: repl) matched pre post = c :: expand repl matched pre post).
  { destruct c as [| p]; [reflexivity |]. cbn [expand]. bits_or_absurd p. }
  rewrite E, (IH Hd). reflexivity.
Qed.

(** *** Character classes *)

Lemma wordChar_facts c :
  isWordChar c = true ->
  Utils.isSpace c = false /\ (c =? 125) = false /\ (c =? 123) = false.
Proof.
  unfold isWordChar, Utils.isSpace, Utils.isLower, Utils.isDigit. intros Hw.
  repeat first [ rewrite orb_true_iff in Hw | rewrite andb_true_iff in Hw
               | rewrite N.leb_le in Hw | rewrite N.eqb_eq in Hw ].
  repeat split; apply not_true_iff_false; intros Hs;
    repeat first [ rewrite orb_true_iff in Hs | rewrite andb_true_iff in Hs
                 | rewrite N.leb_le in Hs | rewrite N.eqb_eq in Hs ];
    lia.
Qed.

Lemma space_facts c :
  Utils.isSpace c = true -> isWordChar c = false /\ (c =? 123) = false.
Proof.
  intros Hs. split.
  - destruct (isWordChar c) eqn:E; [| reflexivity].
    destruct (wordChar_facts c E) as [Hn _]. congruence.
  - apply not_true_iff_false. intros E. apply N.eqb_eq in E. subst c. discriminate.
Qed.

Lemma goodKey_head key :
  goodKey key = true ->
  exists c k, key = c :: k /\ isWordChar c = true /\ plainKey k = true.
Proof.
  unfold goodKey, plainKey. intros Hk. apply andb_true_iff in Hk as [Hp Hne].
  destruct key as [| c k]; [discriminate |]. cbn [forallb] in Hp.
  apply andb_true_iff in Hp as [Hc Hp]. exists c, k. auto.
Qed.

Lemma spaceRun_app w x :
  forallb Utils.isSpace w = true ->
  match x with
  | [] => True
  | c :: _ => Utils.isSpace c = false
  end ->
  spaceRun (w ++ x) = length w /\ skipn (length w) (w ++ x) = x.
Proof.
  intros Hw Hx. induction w as [| a w IH].
  - split; [| reflexivity]. destruct x as [| c x]; [reflexivity |].
    cbn [app spaceRun]. rewrite Hx. reflexivity.
  - cbn [forallb] in Hw. apply andb_true_iff in Hw as [Ha Hw].
    destruct (IH Hw) as [E1 E2]. cbn [app spaceRun length skipn].
    rewrite Ha, E1. split; [reflexivity | exact E2].
Qed.

Lemma startsWith_same s r : startsWith (s ++ r) s = true.
Proof.
  induction s as [| c s IH]; cbn [app startsWith]; [destruct r; reflexivity |].
  rewrite N.eqb_refl. exact IH.
Qed.

Lemma skipn_same {A : Type} (s r : list A) : skipn (length s) (s ++ r) = r.
Proof. induction s as [| c s IH]; [reflexivity | exact IH]. Qed.

(** A plain key that begins text made of a plain key [k] and something
    that does not start like a key either is a prefix of [k]. *)
Lemma startsWith_plain k x key :
  plainKey key = true ->
  match x with
  | [] => True
  | c :: _ => isWordChar c = false
  end ->
  startsWith (k ++ x) key = true -> exists m, k = key ++ m.
Proof.
  revert k. induction key as [| a key IH]; intros k Hp Hx Hs; [exists k; reflexivity |].
  unfold plainKey in Hp. cbn [forallb] in Hp. apply andb_true_iff in Hp as [Ha Hp].
  destruct k as [| b k].
  - cbn [app] in Hs. destruct x as [| c x]; [discriminate |].
    cbn [startsWith] in Hs. apply andb_true_iff in Hs as [Hac _].
    apply N.eqb_eq in Hac. subst c. congruence.
  - cbn [app startsWith] in Hs. apply andb_true_iff in Hs as [Hab Hs].
    apply N.eqb_eq in Hab. subst b.
    destruct (IH k Hp Hx Hs) as [m ->]. exists m. reflexivity.
Qed.

(** *** A placeholder under the pattern of a key *)

Lemma hole_matches w1 key w2 rest :
  forallb Utils.isSpace w1 = true -> forallb Utils.isSpace w2 = true ->
  goodKey key = true ->
  matchPlaceholder key (pieceText (Hole w1 key w2) ++ rest) =
  Some (length (pieceText (Hole w1 key w2))).
Proof.
  intros H1 H2 Hk. destruct (goodKey_head key Hk) as [c [k [Ek [Hc Hp]]]].
  destruct (wordChar_facts c Hc) as [Hcs _].
  cbn [pieceText]. rewrite <- !app_assoc.
  change (js "{{" ++ ?x) with (123 :: 123 :: x).
  unfold matchPlaceholder.
  destruct (spaceRun_app w1 (key ++ w2 ++ js "}}" ++ rest) H1) as [E1 E2];
    [rewrite Ek; exact Hcs |].
  cbv zeta. rewrite E1, E2, startsWith_same, skipn_same.
  destruct (spaceRun_app w2 (js "}}" ++ rest) H2) as [E3 E4]; [reflexivity |].
  rewrite E3, E4. cbn [app js]. simpl length.
  rewrite !List.length_app. simpl length. f_equal. lia.
Qed.

Lemma hole_other w1 k w2 key rest :
  forallb Utils.isSpace w1 = true -> forallb Utils.isSpace w2 = true ->
  goodKey k = true -> goodKey key = true -> k <> key ->
  matchPlaceholder key (pieceText (Hole w1 k w2) ++ rest) = None.
Proof.
  intros H1 H2 Hk Hkey Hne. destruct (goodKey_head k Hk) as [c [k' [Ek [Hc Hp]]]].
  destruct (wordChar_facts c Hc) as [Hcs _].
  cbn [pieceText]. rewrite <- !app_assoc.
  change (js "{{" ++ ?x) with (123 :: 123 :: x).
  unfold matchPlaceholder.
  destruct (spaceRun_app w1 (k ++ w2 ++ js "}}" ++ rest) H1) as [E1 E2];
    [rewrite Ek; exact Hcs |].
  cbv zeta. rewrite E1, E2.
  destruct (startsWith (k ++ w2 ++ js "}}" ++ rest) key) eqn:Es; [| reflexivity].
  assert (Hkp : plainKey key = true).
  { unfold goodKey in Hkey. apply andb_true_iff in Hkey as [Hkp _]. exact Hkp. }
  destruct (startsWith_plain k (w2 ++ js "}}" ++ rest) key Hkp) as [m Em];
    [| exact Es |].
  { destruct w2 as [| a w2]; [reflexivity |]. cbn [forallb] in H2.
    apply andb_true_iff in H2 as [Ha _]. apply (space_facts a Ha). }
  destruct m as [| d m]; [rewrite app_nil_r in Em; congruence |].
  assert (Hd : isWordChar d = true).
  { unfold goodKey, plainKey in Hk. apply andb_true_iff in Hk as [Hk _].
    rewrite Em, forallb_app in Hk. apply andb_true_iff in Hk as [_ Hk].
    cbn [forallb] in Hk. apply andb_true_iff in Hk as [Hd _]. exact Hd. }
  destruct (wordChar_facts d Hd) as [Hds [Hd125 _]].
  rewrite Em, <- app_assoc, skipn_same.
  cbn [app spaceRun]. rewrite Hds. cbn [skipn].
  clear - Hd125. destruct d as [| p]; [reflexivity |]. bits_or_absurd p.
Qed.

Lemma hole_tail_calm w1 k w2 :
  forallb Utils.isSpace w1 = true -> forallb Utils.isSpace w2 = true ->
  goodKey k = true ->
  calm (123 :: w1 ++ k ++ w2 ++ js "}}") = true.
Proof.
  intros H1 H2 Hk.
  assert (Hq : forall t, forallb (fun c => negb (c =? 123)) t = true -> calm t = true).
  { induction t as [| c t IH]; [reflexivity |]. cbn [forallb calm].
    intros Hc. apply andb_true_iff in Hc as [Hc Ht]. apply negb_true_iff in Hc.
    rewrite Hc, (IH Ht). reflexivity. }
  assert (Hbody : forallb (fun c => negb (c =? 123)) (w1 ++ k ++ w2 ++ js "}}") = true).
  { rewrite !forallb_app. repeat (apply andb_true_iff; split); try reflexivity.
    - eapply PathProps.forallb_impl_gen; [| exact H1].
      intros c Hc. apply negb_true_iff. apply (space_facts c Hc).
    - unfold goodKey, plainKey in Hk. apply andb_true_iff in Hk as [Hk _].
      eapply PathProps.forallb_impl_gen; [| exact Hk].
      intros c Hc. apply negb_true_iff. apply (wordChar_facts c Hc).
    - eapply PathProps.forallb_impl_gen; [| exact H2].
      intros c Hc. apply negb_true_iff. apply (space_facts c Hc). }
  cbn [calm]. rewrite N.eqb_refl, (Hq _ Hbody).
  destruct (w1 ++ k ++ w2 ++ js "}}") as [| d t] eqn:E.
  - apply app_eq_nil in E as [_ E]. apply app_eq_nil in E as [_ E].
    apply app_eq_nil in E as [_ E]. discriminate.
  - cbn [forallb] in Hbody. apply andb_true_iff in Hbody as [Hd _].
    rewrite Hd. reflexivity.
Qed.

(** *** One substitution step, piece by piece *)

Lemma goodPiece_fillKey key v p :
  calm v = true -> goodPiece p = true -> goodPiece (fillKey key v p) = true.
Proof.
  intros Hv Hp. destruct p as [t | w1 k w2]; [exact Hp |].
  cbn [fillKey]. destruct (streq k key); [exact Hv | exact Hp].
Qed.

Lemma replaceAll_pieces key v ps seen :
  goodKey key = true -> dollarFree v = true ->
  forallb goodPiece ps = true ->
  replaceAll key v seen (templateOf ps) 0 =
  templateOf (List.map (fillKey key v) ps).
Proof.
  intros Hkey Hv. revert seen. induction ps as [| p ps IH]; intros seen Hps;
    [reflexivity |].
  cbn [forallb] in Hps. apply andb_true_iff in Hps as [Hp Hps].
  unfold templateOf in *. cbn [List.map concat].
  destruct p as [t | w1 k w2].
  - cbn [pieceText fillKey]. rewrite (replaceAll_calm key v t seen _ Hp).
    rewrite IH by exact Hps. reflexivity.
  - cbn [goodPiece] in Hp. apply andb_true_iff in Hp as [Hp Hk].
    apply andb_true_iff in Hp as [H1 H2]. cbn [fillKey].
    destruct (streq k key) eqn:Ek.
    + apply streq_eq in Ek. subst k. cbn [pieceText].
      pose proof (hole_matches w1 key w2 (concat (List.map pieceText ps)) H1 H2 Hk)
        as Hm.
      cbn [pieceText] in Hm.
      set (hole := js "{{" ++ w1 ++ key ++ w2 ++ js "}}") in *.
      assert (Eh : exists tl, hole = 123 :: tl) by (eexists; reflexivity).
      destruct Eh as [tl Eh]. rewrite Eh in *.
      change ((123 :: tl) ++ ?x) with (123 :: tl ++ x) in *.
      cbn [replaceAll]. rewrite Hm, (expand_dollarFree v _ _ _ Hv).
      cbn [length Nat.pred]. rewrite replaceAll_skip, IH by exact Hps.
      reflexivity.
    + apply streq_neq in Ek.
      pose proof (hole_other w1 k w2 key (concat (List.map pieceText ps))
                    H1 H2 Hk Hkey Ek) as Hm.
      pose proof (hole_tail_calm w1 k w2 H1 H2 Hk) as Hcalm.
      pose proof (replaceAll_calm key v (123 :: w1 ++ k ++ w2 ++ js "}}")
                    (123 :: seen) (concat (List.map pieceText ps)) Hcalm) as Hr.
      assert (Eh : pieceText (Hole w1 k w2) =
                   123 :: (123 :: w1 ++ k ++ w2 ++ js "}}")) by reflexivity.
      rewrite Eh in Hm |- *.
      change ((123 :: ?x) ++ ?y) with (123 :: x ++ y) in Hm |- *.
      rewrite (replaceAll_none _ _ _ _ _ Hm), Hr, IH by exact Hps.
      reflexivity.
Qed.

Lemma fillPiece_step e data p :
  fillPiece (e :: data) p = fillPiece data (fillKey (fst e) (replacementOf (snd e)) p).
Proof.
  destruct p as [t | w1 k w2]; [reflexivity |]. cbn [fillPiece fillKey valueOf].
  rewrite (streq_sym (fst e) k). destruct (streq k (fst e)); reflexivity.
Qed.

(** X29 (renderTemplate): what the renderer does on a well-formed
    template.  Let the template be made of text in which every opening
    brace is followed by a character other than an opening brace, and
    of placeholders whose key is a non-empty word between optional
    whitespace; let the data's keys be such words and its values hold
    no dollar sign and, like the text, only opening braces that a
    character other than an opening brace follows (so a value neither
    holds two of them in a row nor ends with one).  Then every
    placeholder whose key the data
    has is replaced with that key's value, exactly as it is, and the
    text and the other placeholders are left as they are. *)
Theorem renderTemplate_fills (ps : list piece) (data : list (jsstring * tvalue)) :
  forallb goodPiece ps = true -> forallb goodEntry data = true ->
  renderTemplate (templateOf ps) data = concat (List.map (fillPiece data) ps).
Proof.
  unfold renderTemplate. revert ps. induction data as [| e data IH]; intros ps Hps Hd.
  - cbn [fold_left]. unfold templateOf. f_equal. apply List.map_ext.
    intros [t | w1 k w2]; reflexivity.
  - cbn [forallb] in Hd. apply andb_true_iff in Hd as [He Hd].
    unfold goodEntry in He. apply andb_true_iff in He as [He Hcalm].
    apply andb_true_iff in He as [Hkey Hdollar].
    cbn [fold_left]. rewrite (replaceAll_pieces _ _ ps [] Hkey Hdollar Hps).
    rewrite IH; [| | exact Hd].
    + rewrite List.map_map. f_equal. apply List.map_ext. intros p.
      symmetry. apply fillPiece_step.
    + rewrite forallb_forall in Hps |- *. intros p Hin.
      apply in_map_iff in Hin as [q [<- Hq]].
      apply goodPiece_fillKey; [exact Hcalm | apply Hps; exact Hq].
Qed.

Lemma renderTemplate_fills_witness :
  renderTemplate
    (js "<h1>{{ title }}</h1><style>p{margin:0}</style>{{content}}{{toc}}")
    [(js "title", TStr (js "Tom & Jerry")); (js "content", TStr (js "<p>Hi</p>"));
     (js "readingTime", TNum 3)] =
  js "<h1>Tom & Jerry</h1><style>p{margin:0}</style><p>Hi</p>{{toc}}".
Proof.
  apply (renderTemplate_fills
           [Text (js "<h1>"); Hole (js " ") (js "title") (js " ");
            Text (js "</h1><style>p{margin:0}</style>");
            Hole [] (js "content") []; Hole [] (js "toc") []]
           [(js "title", TStr (js "Tom & Jerry")); (js "content", TStr (js "<p>Hi</p>"));
            (js "readingTime", TNum 3)]).
  - vm_compute. reflexivity.
  - vm_compute. reflexivity.
Defined.

End TemplateEngineProps.
